(** * poolparty: a pool of external worker processes

    A shallow embedding of [poolparty.go].  The pool is a concurrent
    program: one goroutine per worker loop, one per [Dispatch] call and one
    per [Close] call, coordinated by an unbuffered channel ([dispatch]),
    one private unbuffered channel per call ([RespChan]), a cancellable
    context ([workerCtx]) and a [sync.WaitGroup].

    The embedding is an interleaving transition system.  Every goroutine
    has a program counter naming the statement it is blocked at; an
    [event] is one atomic action of one goroutine or of the environment
    (a timer expiring, the worker process answering, failing or exiting).
    [step] is the executable transition function, [run] runs a schedule.

    Go's [select] is modelled as the runtime implements it: a goroutine
    reaching a [select] polls its cases; if some are ready it takes any
    one of them, otherwise it parks.  A parked goroutine is resumed by
    the first event that makes one of its cases ready.  A rendezvous on
    an unbuffered channel needs one parked party and one polling party.
    Every [select] of this program has a [<-p.workerCtx.Done()] case, so
    cancelling the context commits every parked goroutine to that case:
    a goroutine found parked in a cancelled pool has been woken by the
    cancellation and can only take it.

    Time is not modelled.  A timer expires at some point after it was
    created, whatever its duration; the durations are kept in the state
    for reference only.  Logging calls do not influence control flow
    and are not modelled.  The JSON codec and the worker process are the
    environment: the result of [Encode], of [Decode] and of [cmd.Wait]
    is carried by the event. *)

From Stdlib Require Import ZArith String List Bool Lia.
From stdpp Require Import base option list.
Import ListNotations.
Local Open Scope Z_scope.

(** ** Data model *)

(** [error] values.  [ErrNew] is [errors.New], [ErrWrap] is
    [fmt.Errorf("...: %w", err)], [ErrIO] stands for an error produced by
    the operating system, the codec or the process. *)
Inductive error : Type :=
| ErrWorkerPoolBusy
| ErrWorkerPoolClosed
| ErrNew (msg : string)
| ErrWrap (msg : string) (cause : error)
| ErrIO (msg : string).

(** A [log15.Logger]; [log15_New] is the value of [log15.New()]. *)
Inductive Logger : Type :=
| log15_New
| UserLogger (id : nat).

Record PoolConfig : Type := {
  cfg_Logger : option Logger;          (* [None] is the nil interface *)
  NumWorkers : Z;
  WorkerProc : list string;
  WorkerRequestTimeout : Z
}.

Record JanetRequest : Type := {
  RequestID : string;
  req_Headers : string;
  req_Body : string
}.

Record JanetResponse : Type := {
  Status : Z;
  resp_Headers : list string;
  resp_Body : string
}.

(** The zero value [JanetResponse{}]. *)
Definition zeroResponse : JanetResponse :=
  {| Status := 0; resp_Headers := []; resp_Body := EmptyString |}.

Record workResponse : Type := {
  Err : option error;
  Resp : JanetResponse
}.

(** ** Goroutine states *)

(** Status of a goroutine inside a [select]. *)
Inductive sel : Type := Polling | Parked.

(** The request-timeout timer created by [time.AfterFunc]: not created
    yet, armed with a duration, expired with its function started,
    expired with its function finished, or stopped before it expired. *)
Inductive guard : Type :=
| GNone
| GArmed (d : Z)
| GFired
| GRan
| GStopped.

(** The [cmd] variable of the worker loop. *)
Inductive cmdstate : Type :=
| CmdNil
| CmdUnstarted
| CmdRunning (pid : nat)
| CmdReaped (pid : nat).

(** Host-side pipe handles [p1 .. p4]; [true] is open. *)
Record pipes : Type := {
  p1 : bool; p2 : bool; p3 : bool; p4 : bool
}.

Definition no_pipes : pipes :=
  {| p1 := false; p2 := false; p3 := false; p4 := false |}.

(** Program counter of a worker loop (the goroutine of [spawnWorker]). *)
Inductive wpc : Type :=
| WSpawning                               (* lines 94-144 *)
| WReady (st : sel)                       (* select, line 149 *)
| WEncode                                 (* line 163 *)
| WSendEncErr (st : sel) (e : error)      (* select, line 166 *)
| WDecode                                 (* line 176 *)
| WSendDecErr (st : sel) (e : error)      (* select, line 178 *)
| WSendResp (st : sel) (r : JanetResponse) (* select, line 187 *)
| WStopTimer                              (* line 194 *)
| WWait                                   (* lines 202-214 *)
| WBackoff (st : sel)                     (* select, line 215 *)
| WExited.                                (* returned; wg.Done has run *)

Record worker : Type := {
  w_pc : wpc;
  w_cmd : cmdstate;
  w_gen : nat;               (* processes started so far by this loop *)
  w_pipes : pipes;
  w_codec : option nat;      (* encoder and decoder, bound to a process *)
  w_item : option nat;       (* workReq: the call whose RespChan is held *)
  w_guard : guard;
  w_after : bool             (* time.After(200ms) has expired *)
}.

(** Program counter of a [Dispatch] call. *)
Inductive cpc : Type :=
| DHandoff (st : sel)                     (* select, line 237 *)
| DAwait (st : sel)                       (* select, line 245 *)
| DReturned (resp : JanetResponse) (err : option error).

Record caller : Type := {
  c_req : JanetRequest;
  c_timeout : Z;
  c_fired : bool;            (* the timer t has expired *)
  c_pc : cpc
}.

(** Program counter of a [Close] call: past [cancelWorkers()], inside
    [wg.Wait()], or returned. *)
Inductive closer : Type := CWaiting | CReturned.

(** The pool together with the goroutines that use it. *)
Record state : Type := {
  cfg : PoolConfig;
  cancelled : bool;          (* workerCtx.Done() is closed *)
  wg : nat;                  (* the WaitGroup counter *)
  workers : list worker;
  callers : list caller;
  closers : list closer
}.

(** ** NewWorkerPool *)

(** What a call to [NewWorkerPool] does to the outside world, in order. *)
Inductive effect : Type :=
| EffNewLogger        (* log15.New() *)
| EffWithCancel       (* context.WithCancel *)
| EffMakeChan         (* make(chan workRequest) *)
| EffWgAdd            (* p.wg.Add(1) *)
| EffGo.              (* go func(ctx) {...}(p.workerCtx) *)

Definition new_worker : worker :=
  {| w_pc := WSpawning; w_cmd := CmdNil; w_gen := 0%nat;
     w_pipes := no_pipes; w_codec := None; w_item := None;
     w_guard := GNone; w_after := false |}.

(** [spawnWorker]: add one to the wait group and start the loop. *)
Definition spawnWorker (p : state * list effect) : state * list effect :=
  let (s, tr) := p in
  ({| cfg := cfg s; cancelled := cancelled s; wg := S (wg s);
      workers := workers s ++ [new_worker];
      callers := callers s; closers := closers s |},
   tr ++ [EffWgAdd; EffGo]).

Record created : Type := {
  cr_pool : option state;
  cr_err : option error;
  cr_effects : list effect
}.

Definition NewWorkerPool (c : PoolConfig) : created :=
  let '(c, tr) :=
    match cfg_Logger c with
    | None =>
        ({| cfg_Logger := Some log15_New; NumWorkers := NumWorkers c;
            WorkerProc := WorkerProc c;
            WorkerRequestTimeout := WorkerRequestTimeout c |},
         [EffNewLogger])
    | Some _ => (c, [])
    end in
  if NumWorkers c <? 0 then
    {| cr_pool := None;
       cr_err := Some (ErrNew "pool needs at least one worker");
       cr_effects := tr |}
  else if (Z.of_nat (length (WorkerProc c)) <=? 0) then
    {| cr_pool := None;
       cr_err := Some (ErrNew "pool worker proc must not be empty");
       cr_effects := tr |}
  else
    let p0 :=
      {| cfg := c; cancelled := false; wg := 0%nat; workers := [];
         callers := []; closers := [] |} in
    let (p, tr') :=
      Nat.iter (Z.to_nat (NumWorkers c)) spawnWorker
               (p0, tr ++ [EffWithCancel; EffMakeChan]) in
    {| cr_pool := Some p; cr_err := None; cr_effects := tr' |}.

(** ** The transition system *)

(** How the loop body up to [cmd.Start()] ends (lines 97-136). *)
Inductive spawn_outcome : Type :=
| SpawnPipe12Fail     (* first os.Pipe() fails *)
| SpawnPipe34Fail     (* second os.Pipe() fails *)
| SpawnStartFail      (* cmd.Start() fails *)
| SpawnOk.

Inductive event : Type :=
(* a goroutine calls Dispatch(req, timeout) and reaches its first select *)
| EvDispatch (req : JanetRequest) (timeout : Z)
(* the timer t of call c expires *)
| EvTimer (c : nat)
(* call c takes [case <-t.C] *)
| EvCallerBusy (c : nat)
(* call c takes [case <-p.workerCtx.Done()] in either select *)
| EvCallerClosed (c : nat)
(* call c finds no case ready and parks *)
| EvCallerPark (c : nat)
(* [p.dispatch <- workReq] of call c meets [workReq = <-p.dispatch] of
   worker w; the worker arms its request timer *)
| EvHandoff (c w : nat)
(* [workReq.RespChan <- ...] of worker w meets [<-workReq.RespChan] *)
| EvDeliver (w : nat)
(* worker w takes [case <-p.workerCtx.Done()] in any of its selects *)
| EvWorkerDone (w : nat)
(* worker w finds no case ready and parks *)
| EvWorkerPark (w : nat)
(* worker w runs the loop body up to cmd.Start() *)
| EvSpawn (w : nat) (o : spawn_outcome)
(* encoder.Encode returns *)
| EvEncode (w : nat) (res : option error)
(* decoder.Decode returns *)
| EvDecode (w : nat) (res : JanetResponse + error)
(* the request timer of worker w expires and starts its function *)
| EvGuardFire (w : nat)
(* the function of the request timer closes p2 and p3 *)
| EvGuardClose (w : nat)
(* worker w calls workerRequestTimeoutTimer.Stop() *)
| EvStopTimer (w : nat)
(* cmd.Wait() returns (or is skipped when cmd is nil) *)
| EvWait (w : nat) (exit : option error)
(* time.After(200ms) of worker w expires *)
| EvAfter (w : nat)
(* worker w takes [case <-time.After(...)] *)
| EvBackoffElapsed (w : nat)
(* a goroutine calls Close(): cancelWorkers() runs, wg.Wait() begins *)
| EvClose
(* wg.Wait() of Close call k returns *)
| EvCloseReturn (k : nat).

Definition set_worker (s : state) (i : nat) (w : worker) : state :=
  {| cfg := cfg s; cancelled := cancelled s; wg := wg s;
     workers := <[i:=w]> (workers s);
     callers := callers s; closers := closers s |}.

Definition set_caller (s : state) (i : nat) (c : caller) : state :=
  {| cfg := cfg s; cancelled := cancelled s; wg := wg s;
     workers := workers s;
     callers := <[i:=c]> (callers s); closers := closers s |}.

Definition with_pc (w : worker) (pc : wpc) : worker :=
  {| w_pc := pc; w_cmd := w_cmd w; w_gen := w_gen w;
     w_pipes := w_pipes w; w_codec := w_codec w; w_item := w_item w;
     w_guard := w_guard w; w_after := w_after w |}.

Definition with_cpc (c : caller) (pc : cpc) : caller :=
  {| c_req := c_req c; c_timeout := c_timeout c; c_fired := c_fired c;
     c_pc := pc |}.

Definition fire (c : caller) (pc : cpc) : caller :=
  {| c_req := c_req c; c_timeout := c_timeout c; c_fired := true;
     c_pc := pc |}.

(** The inner function returns: the deferred [Close] calls release every
    pipe handle, the encoder and decoder go out of scope with them.  A
    request timer that is still armed at this point, or whose function
    has not run yet, later closes handles that are closed already, which
    changes nothing; it is dropped here. *)
Definition teardown (w : worker) : worker :=
  {| w_pc := WWait; w_cmd := w_cmd w; w_gen := w_gen w;
     w_pipes := no_pipes; w_codec := None; w_item := None;
     w_guard := GNone; w_after := false |}.

(** Lines 97-144. *)
Definition spawn (w : worker) (o : spawn_outcome) : worker :=
  match o with
  | SpawnPipe12Fail | SpawnPipe34Fail =>
      (* cmd stays nil; whatever was opened is closed by the defers *)
      teardown w
  | SpawnStartFail =>
      (* cmd was built by exec.Command, Start failed *)
      teardown {| w_pc := w_pc w; w_cmd := CmdUnstarted; w_gen := w_gen w;
                  w_pipes := w_pipes w; w_codec := w_codec w;
                  w_item := w_item w; w_guard := w_guard w;
                  w_after := w_after w |}
  | SpawnOk =>
      (* p1 and p4 now belong to the child and are closed on our side;
         encoder on p2, decoder on p3 *)
      {| w_pc := WReady Polling; w_cmd := CmdRunning (S (w_gen w));
         w_gen := S (w_gen w);
         w_pipes := {| p1 := false; p2 := true; p3 := true; p4 := false |};
         w_codec := Some (S (w_gen w)); w_item := None;
         w_guard := GNone; w_after := false |}
  end.

(** The goroutine returns at line 217 and [defer p.wg.Done()] runs. *)
Definition exit_worker (s : state) (i : nat) (w : worker) : state :=
  {| cfg := cfg s; cancelled := cancelled s; wg := pred (wg s);
     workers := <[i:=with_pc w WExited]> (workers s);
     callers := callers s; closers := closers s |}.

(** The value a worker offers on [workReq.RespChan]. *)
Definition offered (pc : wpc) : option workResponse :=
  match pc with
  | WSendEncErr _ e | WSendDecErr _ e =>
      Some {| Err := Some e; Resp := zeroResponse |}
  | WSendResp _ r => Some {| Err := None; Resp := r |}
  | _ => None
  end.

Definition send_status (pc : wpc) : option sel :=
  match pc with
  | WSendEncErr st _ | WSendDecErr st _ | WSendResp st _ => Some st
  | _ => None
  end.

(** What the worker does once its send has been taken. *)
Definition after_send (w : worker) : worker :=
  match w_pc w with
  | WSendResp _ _ => with_pc w WStopTimer
  | _ => teardown w
  end.

(** Lines 248-252 of Dispatch. *)
Definition on_reply (r : workResponse) : cpc :=
  match Err r with
  | Some e => DReturned zeroResponse (Some (ErrWrap "request failed" e))
  | None => DReturned (Resp r) None
  end.

(** An unbuffered channel operation succeeds when exactly one side is
    already parked on it. *)
Definition rendezvous (a b : sel) : bool :=
  match a, b with
  | Parked, Polling | Polling, Parked => true
  | _, _ => false
  end.

Definition parked_handoff (c : caller) : bool :=
  match c_pc c with DHandoff Parked => true | _ => false end.

Definition parked_await (c : caller) : bool :=
  match c_pc c with DAwait Parked => true | _ => false end.

Definition parked_ready (w : worker) : bool :=
  match w_pc w with WReady Parked => true | _ => false end.

Definition parked_send_to (c : nat) (w : worker) : bool :=
  match send_status (w_pc w), w_item w with
  | Some Parked, Some c' => Nat.eqb c c'
  | _, _ => false
  end.

Definition set_sel_w (pc : wpc) (st : sel) : wpc :=
  match pc with
  | WReady _ => WReady st
  | WSendEncErr _ e => WSendEncErr st e
  | WSendDecErr _ e => WSendDecErr st e
  | WSendResp _ r => WSendResp st r
  | WBackoff _ => WBackoff st
  | pc => pc
  end.

Definition on_worker (s : state) (i : nat)
    (k : worker -> option state) : option state :=
  match workers s !! i with
  | Some w => k w
  | None => None
  end.

Definition on_caller (s : state) (i : nat)
    (k : caller -> option state) : option state :=
  match callers s !! i with
  | Some c => k c
  | None => None
  end.

Definition step (e : event) (s : state) : option state :=
  match e with
  | EvDispatch req timeout =>
      (* Dispatch, lines 227-235: respChan, workReq and the timer t *)
      Some {| cfg := cfg s; cancelled := cancelled s; wg := wg s;
              workers := workers s;
              callers := callers s ++
                [{| c_req := req; c_timeout := timeout; c_fired := false;
                    c_pc := DHandoff Polling |}];
              closers := closers s |}
  | EvTimer c =>
      (* a call parked on [<-t.C] is resumed with that case, line 238 *)
      on_caller s c (fun cl =>
        if c_fired cl then None else
        match c_pc cl with
        | DHandoff Parked =>
            if cancelled s then Some (set_caller s c (fire cl (c_pc cl)))
            else Some (set_caller s c
                   (fire cl (DReturned zeroResponse (Some ErrWorkerPoolBusy))))
        | DHandoff Polling | DAwait _ =>
            Some (set_caller s c (fire cl (c_pc cl)))
        | DReturned _ _ => None     (* defer t.Stop() has run *)
        end)
  | EvCallerBusy c =>
      (* Dispatch, lines 238-239 *)
      on_caller s c (fun cl =>
        match c_pc cl with
        | DHandoff Polling =>
            if c_fired cl then
              Some (set_caller s c
                (with_cpc cl (DReturned zeroResponse (Some ErrWorkerPoolBusy))))
            else None
        | _ => None
        end)
  | EvCallerClosed c =>
      (* Dispatch, lines 240-241 and 246-247 *)
      on_caller s c (fun cl =>
        if cancelled s then
          match c_pc cl with
          | DHandoff _ | DAwait _ =>
              Some (set_caller s c
                (with_cpc cl
                   (DReturned zeroResponse (Some ErrWorkerPoolClosed))))
          | DReturned _ _ => None
          end
        else None)
  | EvCallerPark c =>
      (* Dispatch, lines 237 and 245: no case is ready *)
      on_caller s c (fun cl =>
        if cancelled s then None else
        match c_pc cl with
        | DHandoff Polling =>
            if c_fired cl || existsb parked_ready (workers s) then None
            else Some (set_caller s c (with_cpc cl (DHandoff Parked)))
        | DAwait Polling =>
            if existsb (parked_send_to c) (workers s) then None
            else Some (set_caller s c (with_cpc cl (DAwait Parked)))
        | _ => None
        end)
  | EvHandoff c w =>
      (* Dispatch, line 242; worker loop, lines 152-161 *)
      on_caller s c (fun cl =>
      on_worker s w (fun wk =>
        if cancelled s then None else
        match c_pc cl, w_pc wk with
        | DHandoff stc, WReady stw =>
            if rendezvous stc stw then
              Some (set_worker
                      (set_caller s c (with_cpc cl (DAwait Polling))) w
                      {| w_pc := WEncode; w_cmd := w_cmd wk;
                         w_gen := w_gen wk; w_pipes := w_pipes wk;
                         w_codec := w_codec wk; w_item := Some c;
                         w_guard :=
                           GArmed (WorkerRequestTimeout (cfg s));
                         w_after := w_after wk |})
            else None
        | _, _ => None
        end))
  | EvDeliver w =>
      (* worker loop, lines 169, 181, 190; Dispatch, lines 248-252 *)
      on_worker s w (fun wk =>
        match w_item wk, offered (w_pc wk), send_status (w_pc wk) with
        | Some c, Some r, Some stw =>
            on_caller s c (fun cl =>
              if cancelled s then None else
              match c_pc cl with
              | DAwait stc =>
                  if rendezvous stc stw then
                    Some (set_worker
                            (set_caller s c (with_cpc cl (on_reply r))) w
                            (after_send wk))
                  else None
              | _ => None
              end)
        | _, _, _ => None
        end)
  | EvWorkerDone w =>
      (* worker loop, lines 150, 167, 179, 188 and 216 *)
      on_worker s w (fun wk =>
        if cancelled s then
          match w_pc wk with
          | WReady _ | WSendEncErr _ _ | WSendDecErr _ _ | WSendResp _ _ =>
              Some (set_worker s w (teardown wk))
          | WBackoff _ => Some (exit_worker s w wk)
          | _ => None
          end
        else None)
  | EvWorkerPark w =>
      (* worker loop, lines 149, 166, 178, 187 and 215: no case is
         ready *)
      on_worker s w (fun wk =>
        if cancelled s then None else
        match w_pc wk with
        | WReady Polling =>
            if existsb parked_handoff (callers s) then None
            else Some (set_worker s w (with_pc wk (WReady Parked)))
        | WSendEncErr Polling _ | WSendDecErr Polling _
        | WSendResp Polling _ =>
            match w_item wk with
            | Some c =>
                match callers s !! c with
                | Some cl =>
                    if parked_await cl then None
                    else Some (set_worker s w
                           (with_pc wk (set_sel_w (w_pc wk) Parked)))
                | None => None
                end
            | None => None
            end
        | WBackoff Polling =>
            if w_after wk then None
            else Some (set_worker s w (with_pc wk (WBackoff Parked)))
        | _ => None
        end)
  | EvSpawn w o =>
      (* worker loop, lines 94-144 *)
      on_worker s w (fun wk =>
        match w_pc wk with
        | WSpawning => Some (set_worker s w (spawn wk o))
        | _ => None
        end)
  | EvEncode w res =>
      (* worker loop, lines 163-164 *)
      on_worker s w (fun wk =>
        match w_pc wk with
        | WEncode =>
            match res with
            | None =>
                (* a write on a closed handle cannot succeed *)
                if p2 (w_pipes wk)
                then Some (set_worker s w (with_pc wk WDecode))
                else None
            | Some err =>
                Some (set_worker s w (with_pc wk
                  (WSendEncErr Polling
                     (ErrWrap "error writing to worker process" err))))
            end
        | _ => None
        end)
  | EvDecode w res =>
      (* worker loop, lines 175-177 *)
      on_worker s w (fun wk =>
        match w_pc wk with
        | WDecode =>
            match res with
            | inl resp =>
                Some (set_worker s w (with_pc wk (WSendResp Polling resp)))
            | inr err =>
                Some (set_worker s w (with_pc wk
                  (WSendDecErr Polling
                     (ErrWrap "decoding worker process response" err))))
            end
        | _ => None
        end)
  | EvGuardFire w =>
      (* the timer of line 157 expires *)
      on_worker s w (fun wk =>
        match w_guard wk with
        | GArmed _ =>
            Some (set_worker s w
              {| w_pc := w_pc wk; w_cmd := w_cmd wk; w_gen := w_gen wk;
                 w_pipes := w_pipes wk;
                 w_codec := w_codec wk; w_item := w_item wk;
                 w_guard := GFired; w_after := w_after wk |})
        | _ => None
        end)
  | EvGuardClose w =>
      (* lines 158-160 *)
      on_worker s w (fun wk =>
        match w_guard wk with
        | GFired =>
            Some (set_worker s w
              {| w_pc := w_pc wk; w_cmd := w_cmd wk; w_gen := w_gen wk;
                 w_pipes := {| p1 := p1 (w_pipes wk); p2 := false;
                               p3 := false; p4 := p4 (w_pipes wk) |};
                 w_codec := w_codec wk; w_item := w_item wk;
                 w_guard := GRan; w_after := w_after wk |})
        | _ => None
        end)
  | EvStopTimer w =>
      (* worker loop, lines 194-196 *)
      on_worker s w (fun wk =>
        match w_pc wk with
        | WStopTimer =>
            match w_guard wk with
            | GArmed _ =>
                (* Stop() reports true: the timer had not expired; the
                   next iteration declares a fresh workReq *)
                Some (set_worker s w
                  {| w_pc := WReady Polling; w_cmd := w_cmd wk;
                     w_gen := w_gen wk; w_pipes := w_pipes wk;
                     w_codec := w_codec wk; w_item := None;
                     w_guard := GStopped; w_after := w_after wk |})
            | _ => Some (set_worker s w (teardown wk))
            end
        | _ => None
        end)
  | EvWait w exit =>
      (* worker loop, lines 202-214; the exit status only decides what
         is logged *)
      on_worker s w (fun wk =>
        match w_pc wk with
        | WWait =>
            match w_cmd wk with
            | CmdNil | CmdUnstarted =>
                (* Wait is skipped, or fails at once: nothing was started;
                   the select then creates its time.After timer *)
                Some (set_worker s w
                  {| w_pc := WBackoff Polling; w_cmd := w_cmd wk;
                     w_gen := w_gen wk; w_pipes := w_pipes wk;
                     w_codec := w_codec wk; w_item := w_item wk;
                     w_guard := w_guard wk; w_after := false |})
            | CmdRunning pid =>
                (* the process has exited, with or without an error *)
                Some (set_worker s w
                  {| w_pc := WBackoff Polling; w_cmd := CmdReaped pid;
                     w_gen := w_gen wk; w_pipes := w_pipes wk;
                     w_codec := w_codec wk; w_item := w_item wk;
                     w_guard := w_guard wk; w_after := false |})
            | CmdReaped _ => None
            end
        | _ => None
        end)
  | EvAfter w =>
      (* a loop parked on [<-time.After(...)] is resumed with that case,
         line 218 *)
      on_worker s w (fun wk =>
        if w_after wk then None else
        match w_pc wk with
        | WBackoff Parked =>
            if cancelled s then
              Some (set_worker s w
                {| w_pc := w_pc wk; w_cmd := w_cmd wk; w_gen := w_gen wk;
                   w_pipes := w_pipes wk; w_codec := w_codec wk;
                   w_item := w_item wk; w_guard := w_guard wk;
                   w_after := true |})
            else
              Some (set_worker s w
                {| w_pc := WSpawning; w_cmd := CmdNil; w_gen := w_gen wk;
                   w_pipes := w_pipes wk; w_codec := w_codec wk;
                   w_item := w_item wk; w_guard := w_guard wk;
                   w_after := false |})
        | WBackoff Polling =>
            Some (set_worker s w
              {| w_pc := w_pc wk; w_cmd := w_cmd wk; w_gen := w_gen wk;
                 w_pipes := w_pipes wk; w_codec := w_codec wk;
                 w_item := w_item wk; w_guard := w_guard wk;
                 w_after := true |})
        | _ => None
        end)
  | EvBackoffElapsed w =>
      (* worker loop, line 218, and the top of the loop, lines 94-95 *)
      on_worker s w (fun wk =>
        match w_pc wk with
        | WBackoff Polling =>
            if w_after wk then
              Some (set_worker s w
                {| w_pc := WSpawning; w_cmd := CmdNil; w_gen := w_gen wk;
                   w_pipes := w_pipes wk; w_codec := w_codec wk;
                   w_item := w_item wk; w_guard := w_guard wk;
                   w_after := false |})
            else None
        | _ => None
        end)
  | EvClose =>
      (* Close, line 257 *)
      Some {| cfg := cfg s; cancelled := true; wg := wg s;
              workers := workers s; callers := callers s;
              closers := closers s ++ [CWaiting] |}
  | EvCloseReturn k =>
      (* Close, line 258 *)
      match closers s !! k, wg s with
      | Some CWaiting, O =>
          Some {| cfg := cfg s; cancelled := cancelled s; wg := wg s;
                  workers := workers s; callers := callers s;
                  closers := <[k:=CReturned]> (closers s) |}
      | _, _ => None
      end
  end.

(** Running a schedule. *)
Fixpoint run (evs : list event) (s : state) : option state :=
  match evs with
  | [] => Some s
  | e :: evs' =>
      match step e s with
      | Some s' => run evs' s'
      | None => None
      end
  end.

(** The states a pool built by [NewWorkerPool] can be in. *)
Definition reachable (s : state) : Prop :=
  exists c s0 evs,
    cr_pool (NewWorkerPool c) = Some s0 /\ run evs s0 = Some s.

(** ** Observations *)

Definition is_go (e : effect) : bool :=
  match e with EffGo => true | _ => false end.

(** Number of worker loops a call to [NewWorkerPool] has started. *)
Definition loops_started (r : created) : nat :=
  length (List.filter is_go (cr_effects r)).

(** The configuration as [NewWorkerPool] sees it after line 64. *)
Definition with_default_logger (c : PoolConfig) : PoolConfig :=
  {| cfg_Logger := Some log15_New; NumWorkers := NumWorkers c;
     WorkerProc := WorkerProc c;
     WorkerRequestTimeout := WorkerRequestTimeout c |}.

(** ** Predicates on worker loops and calls *)

(** A worker loop that has not returned yet. *)
Definition alive (w : worker) : bool :=
  match w_pc w with WExited => false | _ => true end.

Definition alive_count (ws : list worker) : nat :=
  length (List.filter alive ws).

(** Between a successful [cmd.Start()] and the return of the inner
    function the loop holds a live process, its pipes and its codec. *)
Definition holds_process (pc : wpc) : bool :=
  match pc with
  | WReady _ | WEncode | WSendEncErr _ _ | WDecode | WSendDecErr _ _
  | WSendResp _ _ | WStopTimer => true
  | _ => false
  end.

(** The worker holds a work item whose call has no answer yet. *)
Definition busy (pc : wpc) : bool :=
  match pc with
  | WEncode | WSendEncErr _ _ | WDecode | WSendDecErr _ _
  | WSendResp _ _ => true
  | _ => false
  end.

(** A protocol-level error has occurred in the current exchange. *)
Definition protocol_error (pc : wpc) : option error :=
  match pc with
  | WSendEncErr _ e | WSendDecErr _ e => Some e
  | _ => None
  end.

Definition running (w : worker) : bool :=
  match w_cmd w with CmdRunning _ => true | _ => false end.

(** The loop is using its current process for an exchange that has not
    failed. *)
Definition serving (pc : wpc) : bool :=
  match pc with
  | WReady _ | WEncode | WDecode | WSendResp _ _ | WStopTimer => true
  | _ => false
  end.

(** A measure that no step of a worker loop decreases: twice the number
    of processes started, plus one once the current process is given
    up. *)
Definition rank (w : worker) : nat :=
  (2 * w_gen w + (if serving (w_pc w) then 0 else 1))%nat.

(** The blocking points of a worker loop that the specification lists:
    the wait on the dispatch channel, the encode call, the decode call,
    the process-exit wait and the backoff sleep. *)
Definition blocking_point (pc : wpc) : bool :=
  match pc with
  | WReady _ | WEncode | WDecode | WWait | WBackoff _ => true
  | _ => false
  end.

(** The blocking points that are [select] statements. *)
Definition at_select (pc : wpc) : bool :=
  match pc with
  | WReady _ | WSendEncErr _ _ | WSendDecErr _ _ | WSendResp _ _
  | WBackoff _ => true
  | _ => false
  end.

(** A worker observes the cancellation when it can take the
    [<-p.workerCtx.Done()] case from where it is. *)
Definition observes_cancellation (s : state) (w : nat) : Prop :=
  exists s', step (EvWorkerDone w) s = Some s'.

(** A worker loop whose execution context is gone: the goroutine has
    returned, no process is running, every pipe handle is closed and the
    codec is dropped. *)
Definition fully_exited (w : worker) : Prop :=
  w_pc w = WExited /\ running w = false /\ w_pipes w = no_pipes /\
  w_codec w = None.

(** Some call to Close has returned. *)
Definition close_returned (s : state) : Prop :=
  exists k, closers s !! k = Some CReturned.

(** The two shapes a finished [Dispatch] call can have: a response and a
    nil error, or the zero response and a non-nil error. *)
Definition is_response (r : JanetResponse) (e : option error) : Prop :=
  e = None.

Definition is_error (r : JanetResponse) (e : option error) : Prop :=
  r = zeroResponse /\ e <> None.

Definition awaiting (c : caller) : bool :=
  match c_pc c with DAwait _ => true | _ => false end.

Definition holds (c : nat) (w : worker) : bool :=
  busy (w_pc w) &&
  match w_item w with Some c' => Nat.eqb c c' | None => false end.

(** ** The invariant *)

Definition worker_ok (d : Z) (w : worker) : Prop :=
  if holds_process (w_pc w) then
    w_cmd w = CmdRunning (w_gen w) /\ w_codec w = Some (w_gen w) /\
    p1 (w_pipes w) = false /\ p4 (w_pipes w) = false /\
    match w_pc w with
    | WReady _ =>
        (w_guard w = GNone \/ w_guard w = GStopped) /\ w_item w = None /\
        p2 (w_pipes w) = true /\ p3 (w_pipes w) = true
    | _ =>
        is_Some (w_item w) /\
        ((w_guard w = GRan /\
          p2 (w_pipes w) = false /\ p3 (w_pipes w) = false) \/
         ((w_guard w = GFired \/ w_guard w = GArmed d) /\
          p2 (w_pipes w) = true /\ p3 (w_pipes w) = true))
    end
  else
    w_pipes w = no_pipes /\ w_codec w = None /\ w_item w = None /\
    w_guard w = GNone /\
    (w_pc w = WWait \/ running w = false).

Definition caller_ok (cancel : bool) (c : caller) : Prop :=
  match c_pc c with
  | DHandoff Parked => c_fired c = false \/ cancel = true
  | DHandoff Polling | DAwait _ => True
  | DReturned r e =>
      (is_response r e /\ ~ is_error r e) \/
      (is_error r e /\ ~ is_response r e)
  end.

(** Every call waiting for its answer is held by a worker, unless the
    pool has been cancelled. *)
Definition holder_ok (s : state) : Prop :=
  forall c cl,
    callers s !! c = Some cl -> awaiting cl = true ->
    cancelled s = true \/ existsb (holds c) (workers s) = true.

(** The call a worker holds is waiting for its answer, unless the pool has
    been cancelled; the two are never parked on the channel together. *)
Definition item_ok (s : state) : Prop :=
  forall w wk c,
    workers s !! w = Some wk -> holds c wk = true ->
    exists cl, callers s !! c = Some cl /\
      (cancelled s = true \/ awaiting cl = true) /\
      (send_status (w_pc wk) = Some Parked -> parked_await cl = false).

(** No two workers hold the same call. *)
Definition unique_ok (s : state) : Prop :=
  forall w w' wk wk' c,
    workers s !! w = Some wk -> workers s !! w' = Some wk' ->
    holds c wk = true -> holds c wk' = true -> w = w'.

(** What holds of every reachable state. *)
Record inv (s : state) : Prop := {
  inv_wg : wg s = alive_count (workers s);
  inv_workers :
    Forall (worker_ok (WorkerRequestTimeout (cfg s))) (workers s);
  inv_callers : Forall (caller_ok (cancelled s)) (callers s);
  inv_closing : closers s <> [] -> cancelled s = true;
  inv_closed : forall k, closers s !! k = Some CReturned -> wg s = 0%nat;
  inv_holder : holder_ok s;
  inv_item : item_ok s;
  inv_unique : unique_ok s
}.

(** What a call against a pool without workers can look like. *)
Definition unserved (cancel : bool) (c : caller) : Prop :=
  match c_pc c with
  | DHandoff _ => True
  | DAwait _ => False
  | DReturned r e =>
      r = zeroResponse /\
      ((e = Some ErrWorkerPoolBusy /\ c_fired c = true) \/
       (e = Some ErrWorkerPoolClosed /\ cancel = true))
  end.

(** What one step can do to the workers and the calls, as far as the
    relation between calls and their holders is concerned. *)
Definition wmove (s : state) (wk wk' : worker) : Prop :=
  (forall c, holds c wk' = true -> holds c wk = true) /\
  (send_status (w_pc wk') = Some Parked ->
   forall c, holds c wk' = true ->
     send_status (w_pc wk) = Some Parked \/
     exists cl, callers s !! c = Some cl /\ parked_await cl = false).

Definition cmove (s : state) (c : nat) (cl cl' : caller) : Prop :=
  (awaiting cl = true -> cancelled s = true \/ awaiting cl' = true) /\
  (awaiting cl = false -> cancelled s = true \/ awaiting cl' = false) /\
  (parked_await cl' = true ->
     parked_await cl = true \/
     existsb (parked_send_to c) (workers s) = false).

Inductive step_class (s s' : state) : Prop :=
| ClassWorker (w : nat) (wk wk' : worker) :
    workers s !! w = Some wk -> wmove s wk wk' ->
    workers s' = <[w:=wk']> (workers s) ->
    callers s' = callers s -> cancelled s' = cancelled s ->
    step_class s s'
| ClassCaller (c : nat) (cl cl' : caller) :
    callers s !! c = Some cl -> cmove s c cl cl' ->
    callers s' = <[c:=cl']> (callers s) ->
    workers s' = workers s -> cancelled s' = cancelled s ->
    step_class s s'
| ClassDispatch (cl : caller) :
    awaiting cl = false ->
    callers s' = callers s ++ [cl] ->
    workers s' = workers s -> cancelled s' = cancelled s ->
    step_class s s'
| ClassClose :
    workers s' = workers s -> callers s' = callers s ->
    (cancelled s' = cancelled s \/ cancelled s' = true) ->
    step_class s s'
| ClassHandoff (c w : nat) (cl : caller) (wk wk' : worker) :
    callers s !! c = Some cl -> workers s !! w = Some wk ->
    awaiting cl = false -> busy (w_pc wk) = false ->
    cancelled s = false ->
    w_pc wk' = WEncode -> w_item wk' = Some c ->
    callers s' = <[c:=with_cpc cl (DAwait Polling)]> (callers s) ->
    workers s' = <[w:=wk']> (workers s) ->
    cancelled s' = cancelled s ->
    step_class s s'
| ClassDeliver (c w : nat) (cl cl' : caller) (wk wk' : worker) :
    callers s !! c = Some cl -> workers s !! w = Some wk ->
    holds c wk = true -> busy (w_pc wk') = false ->
    awaiting cl' = false ->
    callers s' = <[c:=cl']> (callers s) ->
    workers s' = <[w:=wk']> (workers s) ->
    cancelled s' = cancelled s ->
    step_class s s'.

(** ** Concrete pools and schedules *)

Definition cfg_bad_workers : PoolConfig :=
  {| cfg_Logger := None; NumWorkers := -1;
     WorkerProc := ["janet"%string; "worker.janet"%string];
     WorkerRequestTimeout := 1000 |}.

Definition cfg_nil_logger : PoolConfig :=
  {| cfg_Logger := None; NumWorkers := 2;
     WorkerProc := ["janet"%string; "worker.janet"%string];
     WorkerRequestTimeout := 1000 |}.

Definition cfg_echo : PoolConfig :=
  {| cfg_Logger := None; NumWorkers := 1;
     WorkerProc := ["echo-server"%string];
     WorkerRequestTimeout := 1000 |}.

Definition cfg_zero : PoolConfig :=
  {| cfg_Logger := None; NumWorkers := 0;
     WorkerProc := ["echo-server"%string];
     WorkerRequestTimeout := 1000 |}.

Definition req_hello : JanetRequest :=
  {| RequestID := "a"; req_Headers := EmptyString; req_Body := "hello" |}.

Definition resp_hello : JanetResponse :=
  {| Status := 200; resp_Headers := []; resp_Body := "hello" |}.

(** The state a schedule leads to, started on the pool of a
    configuration; the empty pool stands in when there is none. *)
Definition state_after (c : PoolConfig) (evs : list event) : state :=
  let dummy := {| cfg := c; cancelled := false; wg := 0%nat;
                  workers := []; callers := []; closers := [] |} in
  match cr_pool (NewWorkerPool c) with
  | Some s0 => match run evs s0 with Some s => s | None => dummy end
  | None => dummy
  end.

(** One worker, one call, the worker echoes. *)
Definition sched_echo : list event :=
  [EvSpawn 0 SpawnOk; EvWorkerPark 0; EvDispatch req_hello 5000;
   EvHandoff 0 0; EvEncode 0 None; EvDecode 0 (inl resp_hello);
   EvCallerPark 0; EvDeliver 0; EvStopTimer 0].

Definition s_echo : state := Eval vm_compute in state_after cfg_echo sched_echo.

(** One worker; Close is called and returns. *)
Definition sched_closed : list event :=
  [EvSpawn 0 SpawnOk; EvWorkerPark 0; EvClose; EvWorkerDone 0;
   EvWait 0 None; EvWorkerDone 0; EvCloseReturn 0].

Definition s_closed : state :=
  Eval vm_compute in state_after cfg_echo sched_closed.

(** After that, a call with a zero handoff timeout: its timer has expired
    when the first select is evaluated, and the select takes that case. *)
Definition sched_late_call : list event :=
  [EvDispatch req_hello 0; EvTimer 0; EvCallerBusy 0].

Definition s_late_call : state :=
  Eval vm_compute in state_after cfg_echo (sched_closed ++ sched_late_call).

(** The late call of [sched_late_call] while it polls its first select,
    its timer expired and the pool cancelled. *)
Definition s_late_polling : state :=
  Eval vm_compute in
    state_after cfg_echo
      (sched_closed ++ [EvDispatch req_hello 0; EvTimer 0]).

(** One worker is reading the answer of a call when Close is called. *)
Definition sched_decoding : list event :=
  [EvSpawn 0 SpawnOk; EvWorkerPark 0; EvDispatch req_hello 5000;
   EvHandoff 0 0; EvEncode 0 None].

Definition s_decoding_cancelled : state :=
  Eval vm_compute in state_after cfg_echo (sched_decoding ++ [EvClose]).

(** The call is parked waiting for its answer and the worker's read
    fails. *)
Definition sched_decode_failed : list event :=
  [EvSpawn 0 SpawnOk; EvWorkerPark 0; EvDispatch req_hello 5000;
   EvHandoff 0 0; EvCallerPark 0; EvEncode 0 None;
   EvDecode 0 (inr (ErrIO "EOF"))].

Definition s_decode_failed : state :=
  Eval vm_compute in state_after cfg_echo sched_decode_failed.

(** Close is called before the worker reaches the select that delivers
    the error: the parked call is woken by the cancellation and returns
    PoolClosed, the worker finds only the cancellation case ready. *)
Definition sched_then_cancelled : list event :=
  [EvClose; EvCallerClosed 0; EvWorkerDone 0].

Definition s_decode_failed_cancelled : state :=
  Eval vm_compute in
    state_after cfg_echo (sched_decode_failed ++ sched_then_cancelled).

(** No workers; Close, then a call. *)
Definition s_zero_closed_call : state :=
  Eval vm_compute in
    state_after cfg_zero
      [EvClose; EvDispatch req_hello 5000; EvCallerClosed 0].

(** The echo scenario just before the worker calls Stop(), when the
    request timer has fired after the response was decoded. *)
Definition sched_late_success : list event :=
  [EvSpawn 0 SpawnOk; EvWorkerPark 0; EvDispatch req_hello 5000;
   EvHandoff 0 0; EvEncode 0 None; EvDecode 0 (inl resp_hello);
   EvCallerPark 0; EvGuardFire 0; EvDeliver 0].

Definition s_late_success : state :=
  Eval vm_compute in state_after cfg_echo sched_late_success.

(** The echo scenario while the call waits for its answer. *)
Definition sched_awaiting : list event :=
  [EvSpawn 0 SpawnOk; EvWorkerPark 0; EvDispatch req_hello 5000;
   EvHandoff 0 0; EvCallerPark 0].

Definition s_awaiting : state :=
  Eval vm_compute in state_after cfg_echo sched_awaiting.

(** ** Statements of the specification that the code does not satisfy *)

(** "Every Dispatch call made after Close has returned fails with
    PoolClosed." *)
Definition after_Close_always_PoolClosed : Prop :=
  forall s evs s' c cl r e,
    reachable s -> close_returned s -> (length (callers s) <= c)%nat ->
    run evs s = Some s' -> callers s' !! c = Some cl ->
    c_pc cl = DReturned r e -> e = Some ErrWorkerPoolClosed.

(** "Every blocking point of a worker loop observes the shared
    cancellation signal and unblocks when it fires." *)
Definition every_blocking_point_observes_cancellation : Prop :=
  forall s w wk,
    reachable s -> cancelled s = true -> workers s !! w = Some wk ->
    blocking_point (w_pc wk) = true -> observes_cancellation s w.

(** "A protocol-level error causes the worker loop to deliver a wrapped
    error to the caller and then discard the process": so whenever the
    inner function has returned after the error, the caller has the
    error. *)
Definition protocol_error_always_delivered : Prop :=
  forall s w wk e0 c evs s' wk',
    reachable s -> workers s !! w = Some wk ->
    protocol_error (w_pc wk) = Some e0 -> w_item wk = Some c ->
    run evs s = Some s' -> workers s' !! w = Some wk' ->
    w_pc wk' = WWait ->
    exists cl, callers s' !! c = Some cl /\
      c_pc cl = DReturned zeroResponse (Some (ErrWrap "request failed" e0)).

(** "Every Dispatch call against a pool of zero workers fails with
    PoolBusy." *)
Definition zero_workers_always_PoolBusy : Prop :=
  forall c s0 evs s k cl r e,
    NumWorkers c = 0 -> cr_pool (NewWorkerPool c) = Some s0 ->
    run evs s0 = Some s -> callers s !! k = Some cl ->
    c_pc cl = DReturned r e -> e = Some ErrWorkerPoolBusy.

(** ** Tactics *)

(** Inverting a step: one goal per event and enabled branch. *)
Ltac destruct_step H :=
  unfold on_worker, on_caller in H;
  repeat match type of H with
  | context [match ?x with _ => _ end] =>
      let E := fresh "E" in destruct x eqn:E; try discriminate H
  end;
  try (injection H as <-).

Ltac step_inv H :=
  match type of H with
  | step ?e _ = Some _ => destruct e; cbn [step] in H; destruct_step H
  end.

Ltac fix_cancelled :=
  repeat match goal with
  | E : cancelled ?s = _ |- context [cancelled ?s] => rewrite E
  end.

Ltac step_inv' H := step_inv H; simpl; fix_cancelled.

Ltac split_lookup H :=
  match type of H with
  | <[_:=_]> _ !! _ = Some _ =>
      apply list_lookup_insert_Some in H;
      destruct H as [(? & ? & ?)|(? & H)]; subst
  | (_ ++ [_]) !! _ = Some _ =>
      apply lookup_snoc_Some in H;
      destruct H as [(? & H)|(? & ?)]; subst
  end.

Ltac other_worker w :=
  match goal with
  | |- <[?w0:=_]> _ !! _ = Some _ \/ _ =>
      destruct (decide (w0 = w)) as [->|Hne];
      [|left; by rewrite list_lookup_insert_ne]
  end.


(** ** Further observations on the code *)

(** [exec.Command(name, arg...)]: the argument vector of the command. *)
Definition exec_Command (name : string) (args : list string) : list string :=
  name :: args.

(** Lines 115-119: the command a worker loop launches.  [None] stands
    for the panic of an index out of range. *)
Definition worker_command (c : PoolConfig) : option (list string) :=
  if 1 <? Z.of_nat (length (WorkerProc c)) then
    match WorkerProc c !! 0%nat with
    | Some name => Some (exec_Command name (drop 1 (WorkerProc c)))
    | None => None
    end
  else
    match WorkerProc c !! 0%nat with
    | Some name => Some (exec_Command name [])
    | None => None
    end.

(** Number of worker processes started and not yet reaped. *)
Definition running_count (ws : list worker) : nat :=
  length (List.filter running ws).

(** The request timer has expired, whether or not its function has run. *)
Definition guard_expired (g : guard) : bool :=
  match g with GFired | GRan => true | _ => false end.

(** The loop can still go on with its current process: it is idle, or in
    an exchange that has not failed and whose request timer has not
    expired. *)
Definition usable (w : worker) : bool :=
  match w_pc w with
  | WReady _ => true
  | WEncode | WDecode | WSendResp _ _ | WStopTimer =>
      match w_guard w with GArmed _ => true | _ => false end
  | _ => false
  end.

Definition vigour (w : worker) : nat :=
  (2 * w_gen w + (if usable w then 0 else 1))%nat.

(** The errors [Dispatch] hands to its caller, with what each one tells
    about the call and the pool. *)
Definition dispatch_error (cancel fired : bool) (e : error) : Prop :=
  (e = ErrWorkerPoolBusy /\ fired = true) \/
  (e = ErrWorkerPoolClosed /\ cancel = true) \/
  (exists io, e = ErrWrap "request failed"
                    (ErrWrap "error writing to worker process" io)) \/
  (exists io, e = ErrWrap "request failed"
                    (ErrWrap "decoding worker process response" io)).

Definition worker_errors_ok (w : worker) : Prop :=
  match w_pc w with
  | WSendEncErr _ e =>
      exists io, e = ErrWrap "error writing to worker process" io
  | WSendDecErr _ e =>
      exists io, e = ErrWrap "decoding worker process response" io
  | _ => True
  end.

Definition caller_errors_ok (cancel : bool) (c : caller) : Prop :=
  match c_pc c with
  | DReturned r (Some e) =>
      r = zeroResponse /\ dispatch_error cancel (c_fired c) e
  | _ => True
  end.

(** The worker loop an event is a step of, if any. *)
Definition worker_of (e : event) : option nat :=
  match e with
  | EvHandoff _ w | EvDeliver w | EvWorkerDone w | EvWorkerPark w
  | EvSpawn w _ | EvEncode w _ | EvDecode w _ | EvGuardFire w
  | EvGuardClose w | EvStopTimer w | EvWait w _ | EvAfter w
  | EvBackoffElapsed w => Some w
  | _ => None
  end.

(** The call an event is a step of, if any; a delivery concerns the call
    whose item the worker holds. *)
Definition call_of (s : state) (e : event) : option nat :=
  match e with
  | EvTimer c | EvCallerBusy c | EvCallerClosed c | EvCallerPark c
  | EvHandoff c _ => Some c
  | EvDeliver w =>
      match workers s !! w with
      | Some wk => w_item wk
      | None => None
      end
  | _ => None
  end.

(** What the loop variables look like at the top of the loop body and
    after the inner function. *)
Definition loop_vars_ok (w : worker) : Prop :=
  match w_pc w with
  | WSpawning => w_cmd w = CmdNil /\ w_after w = false
  | WWait => forall pid, w_cmd w <> CmdReaped pid
  | _ => True
  end.

(** A pool of two workers, the first one idle and parked. *)
Definition cfg_two : PoolConfig :=
  {| cfg_Logger := Some (UserLogger 7); NumWorkers := 2;
     WorkerProc := ["janet"%string; "worker.janet"%string];
     WorkerRequestTimeout := 1000 |}.

Definition sched_idle : list event := [EvSpawn 0 SpawnOk; EvWorkerPark 0].

Definition s_idle : state := Eval vm_compute in state_after cfg_two sched_idle.

(** The first worker of that pool in an exchange, its request timer
    expired. *)
Definition sched_timed_out : list event :=
  [EvSpawn 0 SpawnOk; EvWorkerPark 0; EvDispatch req_hello 5000;
   EvHandoff 0 0; EvEncode 0 None; EvGuardFire 0].

Definition s_timed_out : state :=
  Eval vm_compute in state_after cfg_two sched_timed_out.

(** From there: the response is decoded and delivered all the same, the
    call to Stop() reports the expiry, and the loop starts a new
    process. *)
Definition sched_recycle : list event :=
  [EvDecode 0 (inl resp_hello); EvWorkerPark 0; EvDeliver 0;
   EvStopTimer 0; EvWait 0 None; EvAfter 0; EvBackoffElapsed 0;
   EvSpawn 0 SpawnOk].

Definition s_recycled : state :=
  Eval vm_compute in state_after cfg_two (sched_timed_out ++ sched_recycle).

(** The fresh pool of two workers. *)
Definition s_fresh : state := Eval vm_compute in state_after cfg_two [].

(** An upper bound of the number of its own steps a worker loop needs to
    return once the context is cancelled. *)
Definition steps_to_exit (pc : wpc) : nat :=
  match pc with
  | WExited => 0
  | WBackoff _ => 1
  | WWait => 2
  | WReady _ | WSendEncErr _ _ | WSendDecErr _ _ | WSendResp _ _
  | WSpawning => 3
  | WEncode | WDecode | WStopTimer => 4
  end.

(** Number of calls a worker has accepted and that have no answer yet. *)
Definition in_flight (cs : list caller) : nat :=
  length (List.filter awaiting cs).

(** Number of worker loops in an exchange with their process. *)
Definition busy_count (ws : list worker) : nat :=
  length (List.filter (fun w => busy (w_pc w)) ws).

(** Close is called while the worker is about to deliver the error of a
    failed read. *)
Definition s_failed_closing : state :=
  Eval vm_compute in state_after cfg_echo (sched_decode_failed ++ [EvClose]).

(** The expiries of the back-off timer of loop [w] in a schedule. *)
Definition is_after (w : nat) (e : event) : bool :=
  match e with EvAfter w' => Nat.eqb w w' | _ => false end.

Definition backoffs (w : nat) (evs : list event) : nat :=
  length (List.filter (is_after w) evs).

(** The processes a loop has started, plus one when it can start the next
    without a further expiry of its back-off timer. *)
Definition launch_credit (wk : worker) : nat :=
  (w_gen wk +
   match w_pc wk with
   | WSpawning => 1
   | WBackoff _ => if w_after wk then 1 else 0
   | _ => 0
   end)%nat.

(** ** Steps that need nothing from the worker process *)

(** The steps the runtime alone brings about: the expiry of a timer, a
    goroutine going through one of its selects or calling [Stop()], and
    a write or a read on a handle that has been closed, which returns an
    error.  Left out are what only the process or a user of the pool can
    bring about: a write or a read on an open pipe returning, the
    process exiting, the outcome of a launch, a new call to [Dispatch],
    a call to [Close]. *)
Definition unaided (s : state) (e : event) : bool :=
  match e with
  | EvTimer _ | EvGuardFire _ | EvGuardClose _ | EvAfter _ => true
  | EvCallerBusy _ | EvCallerClosed _ | EvCallerPark _ | EvHandoff _ _
  | EvDeliver _ | EvWorkerDone _ | EvWorkerPark _ | EvBackoffElapsed _
  | EvStopTimer _ => true
  | EvEncode w (Some _) =>
      match workers s !! w with
      | Some wk => negb (p2 (w_pipes wk))
      | None => false
      end
  | EvDecode w (inr _) =>
      match workers s !! w with
      | Some wk => negb (p3 (w_pipes wk))
      | None => false
      end
  | _ => false
  end.

(** Running a schedule made of such steps only. *)
Fixpoint run_unaided (evs : list event) (s : state) : option state :=
  match evs with
  | [] => Some s
  | e :: evs' =>
      if unaided s e then
        match step e s with
        | Some s' => run_unaided evs' s'
        | None => None
        end
      else None
  end.

(** What [os.File] operations return on a closed handle. *)
Definition ErrClosed : error := ErrIO "file already closed".

(** ** Inside the launch sequence *)


(** * Properties *)

(** ** NewWorkerPool *)

Lemma iter_spawnWorker (n : nat) (s : state) (tr : list effect) :
  Nat.iter n spawnWorker (s, tr) =
  ({| cfg := cfg s; cancelled := cancelled s; wg := (n + wg s)%nat;
      workers := workers s ++ replicate n new_worker;
      callers := callers s; closers := closers s |},
   tr ++ concat (replicate n [EffWgAdd; EffGo])).
Proof.
  induction n as [|n IH].
  - simpl. rewrite !app_nil_r. by destruct s.
  - rewrite Nat.iter_succ, IH, !replicate_S_end, concat_app.
    unfold spawnWorker. simpl.
    rewrite <- !app_assoc. reflexivity.
Qed.

Lemma filter_go_spawns (n : nat) :
  length (List.filter is_go (concat (replicate n [EffWgAdd; EffGo]))) = n.
Proof. induction n as [|n IH]; simpl; [done | by rewrite IH]. Qed.

(** The three ways [NewWorkerPool] can end, as equations. *)
Lemma NewWorkerPool_cases (c : PoolConfig) :
  let c' := match cfg_Logger c with None => with_default_logger c
                                  | Some _ => c end in
  let tr := match cfg_Logger c with None => [EffNewLogger]
                                  | Some _ => [] end in
  (NumWorkers c < 0 /\
   NewWorkerPool c =
     {| cr_pool := None;
        cr_err := Some (ErrNew "pool needs at least one worker");
        cr_effects := tr |}) \/
  (0 <= NumWorkers c /\ WorkerProc c = [] /\
   NewWorkerPool c =
     {| cr_pool := None;
        cr_err := Some (ErrNew "pool worker proc must not be empty");
        cr_effects := tr |}) \/
  (0 <= NumWorkers c /\ WorkerProc c <> [] /\
   NewWorkerPool c =
     {| cr_pool :=
          Some {| cfg := c'; cancelled := false;
                  wg := Z.to_nat (NumWorkers c);
                  workers := replicate (Z.to_nat (NumWorkers c)) new_worker;
                  callers := []; closers := [] |};
        cr_err := None;
        cr_effects :=
          tr ++ [EffWithCancel; EffMakeChan] ++
          concat (replicate (Z.to_nat (NumWorkers c)) [EffWgAdd; EffGo]) |}).
Proof.
  intros c' tr. unfold NewWorkerPool.
  assert (Hn : NumWorkers c' = NumWorkers c)
    by (subst c'; destruct (cfg_Logger c); reflexivity).
  assert (Hp : WorkerProc c' = WorkerProc c)
    by (subst c'; destruct (cfg_Logger c); reflexivity).
  replace (match cfg_Logger c with
           | Some _ => (c, [])
           | None => (_, [EffNewLogger]) end) with (c', tr)
    by (subst c' tr; destruct (cfg_Logger c); reflexivity).
  rewrite Hn, Hp.
  destruct (Z.ltb_spec (NumWorkers c) 0) as [Hlt|Hge]; [left; done|].
  right.
  destruct (WorkerProc c) as [|a l] eqn:Hwp.
  - left. simpl. done.
  - right. split; [done|]. split; [done|].
    replace (Z.of_nat (length (a :: l)) <=? 0) with false
      by (symmetry; apply Z.leb_gt; simpl length; lia).
    rewrite iter_spawnWorker. simpl.
    rewrite Nat.add_0_r, <- app_assoc. reflexivity.
Qed.

Lemma NewWorkerPool_success_iff (c : PoolConfig) :
  is_Some (cr_pool (NewWorkerPool c)) <->
  0 <= NumWorkers c /\ WorkerProc c <> [].
Proof.
  destruct (NewWorkerPool_cases c)
    as [[Hn ->]|[(Hn & Hp & ->)|(Hn & Hp & ->)]]; simpl.
  - split; [intros [? ?]; discriminate | intros [H _]; lia].
  - split; [intros [? ?]; discriminate | intros [_ H]; congruence].
  - split; eauto.
Qed.

(** C2.  [NewWorkerPool] returns a pool exactly when [NumWorkers] is not
    negative and [WorkerProc] is not empty; it returns a pool or an error,
    never both and never neither; and when it fails, no worker loop has
    been started (so no process either: only worker loops start
    processes), the only thing it may have done is create the default
    logger.  On success it has started exactly [NumWorkers] loops, each
    still before its first spawn. *)
Theorem NewWorkerPool_validates (c : PoolConfig) :
  (is_Some (cr_pool (NewWorkerPool c)) <->
     0 <= NumWorkers c /\ WorkerProc c <> []) /\
  (is_Some (cr_pool (NewWorkerPool c)) <-> cr_err (NewWorkerPool c) = None) /\
  (cr_pool (NewWorkerPool c) = None ->
     is_Some (cr_err (NewWorkerPool c)) /\
     loops_started (NewWorkerPool c) = 0%nat /\
     forall e, In e (cr_effects (NewWorkerPool c)) -> e = EffNewLogger) /\
  (forall s, cr_pool (NewWorkerPool c) = Some s ->
     loops_started (NewWorkerPool c) = Z.to_nat (NumWorkers c) /\
     workers s = replicate (Z.to_nat (NumWorkers c)) new_worker /\
     wg s = Z.to_nat (NumWorkers c) /\ cancelled s = false).
Proof.
  assert (Hfail : forall tr0 : list effect,
            tr0 = match cfg_Logger c with None => [EffNewLogger]
                                        | Some _ => [] end ->
            length (List.filter is_go tr0) = 0%nat /\
            forall e, In e tr0 -> e = EffNewLogger).
  { intros tr0 ->. destruct (cfg_Logger c); simpl; split; try done.
    intros e [<-|[]]. reflexivity. }
  destruct (NewWorkerPool_cases c)
    as [[Hn ->]|[(Hn & Hp & ->)|(Hn & Hp & ->)]];
    unfold loops_started; simpl.
  - split; [|split; [|split]].
    + split; [intros [? ?]; discriminate | intros [H _]; lia].
    + split; [intros [? ?]; discriminate | discriminate].
    + intros _. split; [eauto | by apply Hfail].
    + discriminate.
  - split; [|split; [|split]].
    + split; [intros [? ?]; discriminate | intros [_ H]; congruence].
    + split; [intros [? ?]; discriminate | discriminate].
    + intros _. split; [eauto | by apply Hfail].
    + discriminate.
  - split; [|split; [|split]].
    + split; eauto.
    + split; eauto.
    + discriminate.
    + intros s Hs. injection Hs as <-. simpl.
      split; [|done].
      rewrite List.filter_app, length_app. simpl.
      rewrite filter_go_spawns.
      destruct (Hfail _ eq_refl) as [-> _]. reflexivity.
Qed.

(** A failing configuration: [NumWorkers = -1]. *)
Lemma NewWorkerPool_validates_witness :
  is_Some (cr_err (NewWorkerPool cfg_bad_workers)) /\
  loops_started (NewWorkerPool cfg_bad_workers) = 0%nat.
Proof.
  destruct (NewWorkerPool_validates cfg_bad_workers) as (_ & _ & H & _).
  destruct (H eq_refl) as (H1 & H2 & _). split; assumption.
Defined.

(** C10.  With a nil [Logger], [NewWorkerPool] behaves exactly as it does
    on the same configuration carrying the default logger, after creating
    that logger: same pool, same error.  So it succeeds under the same
    condition as any other configuration, the pool it returns holds the
    default logger, and when it fails the error is one of the two
    validation errors, on [NumWorkers] or on [WorkerProc], never one
    about the logger. *)
Theorem NewWorkerPool_nil_logger (c : PoolConfig) :
  cfg_Logger c = None ->
  cr_pool (NewWorkerPool c) = cr_pool (NewWorkerPool (with_default_logger c)) /\
  cr_err (NewWorkerPool c) = cr_err (NewWorkerPool (with_default_logger c)) /\
  cr_effects (NewWorkerPool c) =
    EffNewLogger :: cr_effects (NewWorkerPool (with_default_logger c)) /\
  (is_Some (cr_pool (NewWorkerPool c)) <->
     0 <= NumWorkers c /\ WorkerProc c <> []) /\
  (forall s, cr_pool (NewWorkerPool c) = Some s ->
     cfg_Logger (cfg s) = Some log15_New) /\
  (forall e, cr_err (NewWorkerPool c) = Some e ->
     (NumWorkers c < 0 /\ e = ErrNew "pool needs at least one worker") \/
     (WorkerProc c = [] /\ e = ErrNew "pool worker proc must not be empty")).
Proof.
  intros Hnil.
  split; [|split; [|split; [|split; [|split]]]].
  - unfold NewWorkerPool. rewrite Hnil. simpl.
    destruct (NumWorkers c <? 0); [reflexivity|].
    destruct (Z.of_nat (length (WorkerProc c)) <=? 0); [reflexivity|].
    rewrite !iter_spawnWorker. reflexivity.
  - unfold NewWorkerPool. rewrite Hnil. simpl.
    destruct (NumWorkers c <? 0); [reflexivity|].
    destruct (Z.of_nat (length (WorkerProc c)) <=? 0); [reflexivity|].
    rewrite !iter_spawnWorker. reflexivity.
  - unfold NewWorkerPool. rewrite Hnil. simpl.
    destruct (NumWorkers c <? 0); [reflexivity|].
    destruct (Z.of_nat (length (WorkerProc c)) <=? 0); [reflexivity|].
    rewrite !iter_spawnWorker. reflexivity.
  - apply NewWorkerPool_success_iff.
  - intros s Hs.
    destruct (NewWorkerPool_cases c) as [[_ H]|[(_ & _ & H)|(_ & _ & H)]];
      rewrite H in Hs; simpl in Hs; try discriminate.
    injection Hs as <-. simpl. rewrite Hnil. reflexivity.
  - intros e He.
    destruct (NewWorkerPool_cases c) as [(? & H)|[(_ & ? & H)|(_ & _ & H)]];
      rewrite H in He; simpl in He; try discriminate;
      injection He as <-; auto.
Qed.

Lemma NewWorkerPool_nil_logger_witness :
  is_Some (cr_pool (NewWorkerPool cfg_nil_logger)) /\
  cr_err (NewWorkerPool cfg_nil_logger) = None.
Proof.
  destruct (NewWorkerPool_nil_logger cfg_nil_logger eq_refl)
    as (_ & He & _ & Hs & _).
  split.
  - apply Hs. split; [vm_compute; discriminate | discriminate].
  - rewrite He. reflexivity.
Defined.

(** ** Basic facts about steps *)

Lemma step_cfg (e : event) (s s' : state) :
  step e s = Some s' -> cfg s' = cfg s.
Proof. intros H. step_inv H; reflexivity. Qed.

Lemma step_cancelled (e : event) (s s' : state) :
  step e s = Some s' ->
  cancelled s' = cancelled s \/ (e = EvClose /\ cancelled s' = true).
Proof. intros H. step_inv H; auto. Qed.

Lemma step_cancelled_mono (e : event) (s s' : state) :
  step e s = Some s' -> cancelled s = true -> cancelled s' = true.
Proof. intros H Hc. destruct (step_cancelled _ _ _ H) as [->|[_ ->]]; done. Qed.

(** ** The wait group counts the live loops *)

Lemma alive_count_insert (l : list worker) (i : nat) (x y : worker) :
  l !! i = Some x ->
  (alive_count (<[i:=y]> l) + (if alive x then 1 else 0) =
   alive_count l + (if alive y then 1 else 0))%nat.
Proof.
  unfold alive_count. revert i.
  induction l as [|a l IH]; intros [|i] Hi; simpl in *; try discriminate.
  - injection Hi as ->. destruct (alive x), (alive y); simpl; lia.
  - specialize (IH i Hi). destruct (alive a); simpl; lia.
Qed.

Lemma alive_count_insert_same (l : list worker) (i : nat) (x y : worker) :
  l !! i = Some x -> alive x = alive y ->
  alive_count (<[i:=y]> l) = alive_count l.
Proof.
  intros Hi Ha. pose proof (alive_count_insert l i x y Hi) as H.
  rewrite Ha in H. destruct (alive y); lia.
Qed.

Lemma alive_count_zero (l : list worker) :
  alive_count l = 0%nat -> Forall (fun w => w_pc w = WExited) l.
Proof.
  unfold alive_count. induction l as [|a l IH]; simpl; intros H.
  - constructor.
  - destruct (alive a) eqn:Ha; simpl in H; [discriminate|].
    constructor; [|auto].
    unfold alive in Ha. destruct (w_pc a); done.
Qed.

Lemma step_wg (e : event) (s s' : state) :
  step e s = Some s' ->
  wg s = alive_count (workers s) -> wg s' = alive_count (workers s').
Proof.
  intros H Hwg. step_inv H; simpl; try assumption.
  all: try (erewrite alive_count_insert_same;
            [eassumption | eassumption |
             unfold alive; simpl; rewrite ?E, ?E0, ?E1, ?E2, ?E3; reflexivity]).
  - erewrite alive_count_insert_same; [eassumption | eassumption |].
    unfold alive, after_send.
    destruct (w_pc w0); simpl in *; try discriminate; reflexivity.
  - pose proof (alive_count_insert (workers s) w w0 (with_pc w0 WExited) E)
      as Hc.
    replace (alive w0) with true in Hc by (unfold alive; by rewrite E1).
    replace (alive (with_pc w0 WExited)) with false in Hc by reflexivity.
    lia.
  - erewrite alive_count_insert_same; [eassumption | eassumption |].
    unfold alive. rewrite E0. destruct o; reflexivity.
Qed.

(** ** Every worker loop is consistent with its program counter *)

Lemma step_workers_ok (e : event) (s s' : state) :
  step e s = Some s' ->
  Forall (worker_ok (WorkerRequestTimeout (cfg s))) (workers s) ->
  Forall (worker_ok (WorkerRequestTimeout (cfg s'))) (workers s').
Proof.
  intros H Hok. step_inv H; simpl; try assumption.
  all: apply Forall_insert; [assumption|].
  all: match goal with
       | E : workers _ !! _ = Some ?w |- _ =>
           pose proof (Forall_lookup_1 _ _ _ _ Hok E) as Hw
       end.
  all: unfold worker_ok, after_send, running in *; simpl.
  all: try match goal with |- context [spawn _ ?o] => destruct o end.
  all: destruct (w_pc w0) eqn:Hpc; try discriminate; simpl in *.
  all: repeat match goal with
       | E : w_guard _ = _ |- _ => rewrite E in *; clear E
       | E : w_cmd _ = _ |- _ => rewrite E in *; clear E
       end; simpl in *.
  all: intuition (eauto; congruence).
Qed.

(** ** Every call is consistent with its program counter *)

Lemma caller_ok_cancel (b : bool) (c : caller) :
  caller_ok b c -> caller_ok true c.
Proof.
  unfold caller_ok. destruct (c_pc c) as [[]| |]; auto.
Qed.

Lemma on_reply_ok (cl : caller) (b : bool) (r : workResponse) :
  caller_ok b (with_cpc cl (on_reply r)).
Proof.
  unfold caller_ok, on_reply, is_response, is_error.
  destruct (Err r); simpl.
  - right. split; [split|]; congruence.
  - left. split; [reflexivity|]. intros [_ H]. congruence.
Qed.

Lemma step_callers_ok (e : event) (s s' : state) :
  step e s = Some s' ->
  Forall (caller_ok (cancelled s)) (callers s) ->
  Forall (caller_ok (cancelled s')) (callers s').
Proof.
  intros H Hok. step_inv H; simpl.
  all: repeat match goal with
       | E : cancelled ?s = _ |- context [cancelled ?s] => rewrite E
       end.
  all: try assumption.
  all: try (apply Forall_insert; [assumption|]).
  all: try apply on_reply_ok.
  all: try (apply Forall_app; split; [assumption|]; repeat constructor).
  all: try (eapply Forall_impl; [eassumption|]; apply caller_ok_cancel).
  all: repeat match goal with
       | E : _ || _ = false |- _ => apply orb_false_elim in E; destruct E
       end.
  all: try match goal with
       | E : callers _ !! _ = Some ?c |- _ =>
           pose proof (Forall_lookup_1 _ _ _ _ Hok E) as Hw
       end.
  all: unfold caller_ok, is_response, is_error in *; simpl.
  all: repeat match goal with
       | E : c_pc _ = _ |- _ => rewrite E in *; clear E
       | E : c_fired _ = _ |- _ => rewrite E in *; clear E
       | E : cancelled _ = _ |- _ => rewrite E in *; clear E
       end; simpl in *.
  all: intuition (eauto; congruence).
Qed.

(** ** Close calls *)

Lemma step_wg_le (e : event) (s s' : state) :
  step e s = Some s' -> (wg s' <= wg s)%nat.
Proof. intros H. step_inv H; simpl; lia. Qed.

Lemma step_closing (e : event) (s s' : state) :
  step e s = Some s' ->
  (closers s <> [] -> cancelled s = true) ->
  closers s' <> [] -> cancelled s' = true.
Proof.
  intros H Hc. step_inv' H; try assumption; try reflexivity.
  intros _. apply Hc. intros Hnil. rewrite Hnil in E. discriminate.
Qed.

Lemma step_closed (e : event) (s s' : state) :
  step e s = Some s' ->
  (forall k, closers s !! k = Some CReturned -> wg s = 0%nat) ->
  forall k, closers s' !! k = Some CReturned -> wg s' = 0%nat.
Proof.
  intros H Hc k Hk.
  pose proof (step_wg_le _ _ _ H) as Hle.
  assert (Hcases : closers s !! k = Some CReturned \/ wg s = 0%nat).
  { step_inv H; simpl in Hk; auto.
    apply lookup_app_Some in Hk as [Hk|[_ Hk]]; [auto|].
    destruct (k - length (closers s))%nat; simpl in Hk; discriminate. }
  destruct Hcases as [Hk'|Hz]; [apply Hc in Hk'|]; lia.
Qed.

(** ** Calls and the workers that hold them *)

Lemma holds_spec (c : nat) (w : worker) :
  holds c w = true <-> busy (w_pc w) = true /\ w_item w = Some c.
Proof.
  unfold holds. rewrite andb_true_iff.
  destruct (w_item w) as [c'|]; [|intuition discriminate].
  rewrite Nat.eqb_eq. intuition congruence.
Qed.

Lemma existsb_lookup {A} (f : A -> bool) (l : list A) :
  existsb f l = true <-> exists i x, l !! i = Some x /\ f x = true.
Proof.
  rewrite existsb_exists. split.
  - intros (x & Hin & Hf). apply list_elem_of_In in Hin.
    apply list_elem_of_lookup in Hin as [i Hi]. eauto.
  - intros (i & x & Hi & Hf). exists x. split; [|done].
    apply list_elem_of_In, list_elem_of_lookup. eauto.
Qed.

Lemma existsb_false_lookup {A} (f : A -> bool) (l : list A) i x :
  existsb f l = false -> l !! i = Some x -> f x = false.
Proof.
  intros He Hi. destruct (f x) eqn:Hf; [|done].
  assert (existsb f l = true) by (apply existsb_lookup; eauto). congruence.
Qed.

Lemma existsb_insert_keep {A} (f : A -> bool) (l : list A) i x y :
  l !! i = Some x -> (f x = true -> f y = true) ->
  existsb f l = true -> existsb f (<[i:=y]> l) = true.
Proof.
  intros Hi Hxy. rewrite !existsb_lookup. intros (j & z & Hj & Hz).
  destruct (decide (i = j)) as [->|Hne].
  - exists j, y. split.
    + apply list_lookup_insert_eq. by eapply lookup_lt_Some.
    + apply Hxy. congruence.
  - exists j, z. split; [|done]. by rewrite list_lookup_insert_ne.
Qed.

Lemma step_holder (e : event) (s s' : state) :
  step e s = Some s' ->
  holder_ok s -> holder_ok s'.
Proof.
  intros H Hold c1 cl1 Hc1 Haw. step_inv H; simpl; simpl in Hc1.
  all: try (left; first [reflexivity | assumption]).
  all: try split_lookup Hc1.
  all: try (unfold awaiting, on_reply in Haw; simpl in Haw;
            repeat match goal with
            | E : c_pc _ = _ |- _ => rewrite E in Haw
            end;
            try destruct (Err _); discriminate Haw).
  (* the call just handed off: its worker holds it *)
  all: try (right; apply existsb_lookup; eexists _, _; split;
            [apply list_lookup_insert_eq; eapply lookup_lt_Some; eassumption
            | unfold holds; simpl; by rewrite Nat.eqb_refl ]).
  (* a call that is not touched, or keeps waiting *)
  all: try (eapply Hold; [eassumption|]; unfold awaiting in *; simpl in *;
            first [ exact Haw | by match goal with
                     | E : c_pc _ = _ |- _ => rewrite E end ]).
  (* a worker moved: it keeps what it holds *)
  all: match goal with
       | |- _ \/ existsb _ (<[_:=_]> _) = true =>
           destruct (Hold _ _ Hc1 Haw) as [Hcan|Hex];
           [ first [ left; exact Hcan | congruence ] | right ];
           eapply existsb_insert_keep; [eassumption | | exact Hex ]
       end.
  all: rewrite !holds_spec; unfold after_send; simpl.
  all: try match goal with |- context [spawn _ ?o] => destruct o end.
  all: destruct (w_pc w0) eqn:Hpc; simpl in *; try discriminate.
  all: intuition congruence.
Qed.

Lemma busy_send (pc : wpc) (st : sel) :
  send_status pc = Some st -> busy pc = true.
Proof. destruct pc; simpl; congruence. Qed.

Lemma step_classify (e : event) (s s' : state) :
  step e s = Some s' -> step_class s s'.
Proof.
  intros H. step_inv H.
  all: try (eapply ClassClose; simpl; auto; fail).
  all: try match goal with
       | |- step_class _ {| callers := _ ++ [?c] |} =>
           apply (ClassDispatch _ _ c); reflexivity
       end.
  all: try (eapply ClassHandoff; simpl; try eassumption; try reflexivity;
            unfold awaiting; simpl;
            repeat match goal with E : _ = _ |- _ => rewrite E end;
            reflexivity).
  all: try match goal with
       | |- step_class _ (set_worker (set_caller _ ?n ?cl') _ ?wk') =>
           eapply (ClassDeliver _ _ n _ _ cl' _ wk');
           try eassumption; try reflexivity
       end.
  all: try match goal with
       | E : workers _ !! ?w = Some ?wk
         |- step_class _ (set_worker _ ?w ?wk') =>
           apply (ClassWorker _ _ w wk wk' E); try reflexivity
       | E : workers _ !! ?w = Some ?wk
         |- step_class _ (exit_worker _ ?w ?wk) =>
           apply (ClassWorker _ _ w wk (with_pc wk WExited) E);
           try reflexivity
       | E : callers _ !! ?c = Some ?cl
         |- step_class _ (set_caller _ ?c ?cl') =>
           apply (ClassCaller _ _ c cl cl' E); try reflexivity
       end.
  all: try (rewrite holds_spec; split; [eapply busy_send|]; eassumption).
  all: try (unfold awaiting, on_reply; simpl; by destruct (Err _)).
  all: try (unfold after_send; destruct (w_pc w0); simpl in *;
            discriminate || reflexivity).
  all: try (unfold cmove, awaiting, parked_await; simpl;
            repeat match goal with
            | E : c_pc _ = _ |- _ => rewrite E
            | E : cancelled _ = _ |- _ => rewrite E
            end; simpl; intuition (auto; congruence)).
  all: unfold wmove; split;
       [ intros c1; rewrite !holds_spec; simpl;
         try match goal with |- context [spawn _ ?o] => destruct o end;
         destruct (w_pc w0) eqn:Hpc; simpl in *; intuition congruence
       | simpl; try match goal with |- context [spawn _ ?o] => destruct o end;
         simpl; try discriminate ].
  all: intros Hs c1 Hc1; try (left; exact Hs).
  all: right; apply holds_spec in Hc1 as [_ Hc1]; simpl in Hc1.
  all: assert (c1 = n) as -> by congruence; eauto.
Qed.

Lemma parked_send_to_spec (c : nat) (w : worker) :
  holds c w = true -> send_status (w_pc w) = Some Parked ->
  parked_send_to c w = true.
Proof.
  rewrite holds_spec. intros [_ Hi] Hs. unfold parked_send_to.
  rewrite Hs, Hi. apply Nat.eqb_refl.
Qed.

Lemma step_item (e : event) (s s' : state) :
  step e s = Some s' -> item_ok s -> unique_ok s -> item_ok s'.
Proof.
  intros H Hitem Huniq w1 wk1 c1 Hw1 Hh.
  destruct (step_classify _ _ _ H)
    as [w wk wk' Hw [Hm1 Hm2] Hws Hcs Hcan
       |c cl cl' Hc (Hm1 & Hm2 & Hm3) Hcs Hws Hcan
       |cl Haw Hcs Hws Hcan
       |Hws Hcs Hcan
       |c w cl wk wk' Hc Hw Haw Hb Hnc Hpc Hit Hcs Hws Hcan
       |c w cl cl' wk wk' Hc Hw Hhw Hb Haw Hcs Hws Hcan];
    rewrite Hws in Hw1; rewrite Hcs.
  - rewrite Hcan. split_lookup Hw1.
    + destruct (Hitem _ _ _ Hw (Hm1 _ Hh)) as (cl & Hcl & Hca & Hpk).
      exists cl. split; [done|]. split; [done|]. intros Hs.
      destruct (Hm2 Hs _ Hh) as [Hold|(cl2 & Hcl2 & Hp)]; [auto|congruence].
    + eauto.
  - rewrite Hcan.
    destruct (Hitem _ _ _ Hw1 Hh) as (cl1 & Hcl1 & Hca & Hpk).
    destruct (decide (c = c1)) as [->|Hne].
    + assert (cl1 = cl) as -> by congruence.
      exists cl'. split.
      { apply list_lookup_insert_eq. by eapply lookup_lt_Some. }
      split.
      { destruct Hca as [Hca|Hca]; [by left|by apply Hm1]. }
      intros Hs. destruct (parked_await cl') eqn:Hp; [|done].
      destruct (Hm3 eq_refl) as [Hp'|Hex].
      * rewrite (Hpk Hs) in Hp'. discriminate.
      * pose proof (existsb_false_lookup _ _ _ _ Hex Hw1) as Hf.
        rewrite parked_send_to_spec in Hf by done. discriminate.
    + exists cl1. by rewrite list_lookup_insert_ne.
  - rewrite Hcan.
    destruct (Hitem _ _ _ Hw1 Hh) as (cl1 & Hcl1 & Hca & Hpk).
    exists cl1. split; [by apply lookup_app_l_Some|done].
  - destruct (Hitem _ _ _ Hw1 Hh) as (cl1 & Hcl1 & Hca & Hpk).
    exists cl1. split; [done|]. split; [|done].
    destruct Hcan as [->| ->]; auto.
  - rewrite Hcan. split_lookup Hw1.
    + apply holds_spec in Hh as [_ Hh].
      assert (c1 = c) as -> by congruence.
      exists (with_cpc cl (DAwait Polling)). split.
      { apply list_lookup_insert_eq. by eapply lookup_lt_Some. }
      split; [by right|]. rewrite Hpc. discriminate.
    + destruct (Hitem _ _ _ Hw1 Hh) as (cl1 & Hcl1 & Hca & Hpk).
      destruct (decide (c = c1)) as [->|Hne].
      * assert (cl1 = cl) as -> by congruence.
        destruct Hca; congruence.
      * exists cl1. by rewrite list_lookup_insert_ne.
  - rewrite Hcan. split_lookup Hw1.
    + apply holds_spec in Hh as [Hh _]. congruence.
    + destruct (Hitem _ _ _ Hw1 Hh) as (cl1 & Hcl1 & Hca & Hpk).
      destruct (decide (c = c1)) as [->|Hne].
      * exfalso. eauto using Huniq.
      * exists cl1. by rewrite list_lookup_insert_ne.
Qed.

Lemma step_unique (e : event) (s s' : state) :
  step e s = Some s' -> item_ok s -> unique_ok s -> unique_ok s'.
Proof.
  intros H Hitem Huniq w1 w2 wk1 wk2 c1 Hw1 Hw2 Hh1 Hh2.
  destruct (step_classify _ _ _ H)
    as [w wk wk' Hw [Hm1 Hm2] Hws Hcs Hcan
       |c cl cl' Hc (Hm1 & Hm2 & Hm3) Hcs Hws Hcan
       |cl Haw Hcs Hws Hcan
       |Hws Hcs Hcan
       |c w cl wk wk' Hc Hw Haw Hb Hnc Hpc Hit Hcs Hws Hcan
       |c w cl cl' wk wk' Hc Hw Hhw Hb Haw Hcs Hws Hcan];
    rewrite Hws in Hw1, Hw2; try (eapply Huniq; eassumption).
  - split_lookup Hw1; split_lookup Hw2; try done;
      eapply Huniq; eauto.
  - assert (Hno : forall w0 wk0, workers s !! w0 = Some wk0 ->
              holds c wk0 = true -> False).
    { intros w0 wk0 Hw0 Hh0.
      destruct (Hitem _ _ _ Hw0 Hh0) as (cl1 & Hcl1 & Hca & _).
      assert (cl1 = cl) as -> by congruence. destruct Hca; congruence. }
    split_lookup Hw1; split_lookup Hw2; try done.
    + apply holds_spec in Hh1 as [_ Hh1].
      assert (c1 = c) as -> by congruence. exfalso; eauto.
    + apply holds_spec in Hh2 as [_ Hh2].
      assert (c1 = c) as -> by congruence. exfalso; eauto.
    + eapply Huniq; eauto.
  - split_lookup Hw1; split_lookup Hw2; try done.
    + apply holds_spec in Hh1 as [Hh1 _]. congruence.
    + apply holds_spec in Hh2 as [Hh2 _]. congruence.
    + eapply Huniq; eauto.
Qed.

(** ** The invariant holds in every reachable state *)

Lemma inv_step (e : event) (s s' : state) :
  step e s = Some s' -> inv s -> inv s'.
Proof.
  intros H [I1 I2 I3 I4 I5 I6 I7 I8]. split.
  - eapply step_wg; eauto.
  - eapply step_workers_ok; eauto.
  - eapply step_callers_ok; eauto.
  - eapply step_closing; eauto.
  - eapply step_closed; eauto.
  - eapply step_holder; eauto.
  - eapply step_item; eauto.
  - eapply step_unique; eauto.
Qed.

Lemma inv_run (evs : list event) (s s' : state) :
  run evs s = Some s' -> inv s -> inv s'.
Proof.
  revert s. induction evs as [|e evs IH]; simpl; intros s Hr Hi.
  - by injection Hr as <-.
  - destruct (step e s) as [s1|] eqn:Hs; [|discriminate].
    eauto using inv_step.
Qed.

Lemma alive_count_new (n : nat) :
  alive_count (replicate n new_worker) = n.
Proof.
  unfold alive_count. induction n as [|n IH]; simpl; [done|by rewrite IH].
Qed.

Lemma inv_init (c : PoolConfig) (s0 : state) :
  cr_pool (NewWorkerPool c) = Some s0 -> inv s0.
Proof.
  intros H.
  destruct (NewWorkerPool_cases c) as [[_ Hc]|[(_ & _ & Hc)|(_ & _ & Hc)]];
    rewrite Hc in H; simpl in H; try discriminate.
  injection H as <-. split; simpl.
  - symmetry. apply alive_count_new.
  - apply Forall_replicate. unfold worker_ok. simpl. intuition.
  - constructor.
  - done.
  - intros k Hk. destruct k; discriminate.
  - intros k cl Hk. destruct k; discriminate.
  - intros w wk k Hw Hh. simpl in Hw.
    apply lookup_replicate in Hw as [-> _]. discriminate.
  - intros w w' wk wk' k Hw _ Hh. simpl in Hw.
    apply lookup_replicate in Hw as [-> _]. discriminate.
Qed.

Lemma reachable_inv (s : state) : reachable s -> inv s.
Proof.
  intros (c & s0 & evs & Hc & Hr).
  eauto using inv_run, inv_init.
Qed.

Lemma run_app (evs1 evs2 : list event) (s : state) :
  run (evs1 ++ evs2) s =
  match run evs1 s with Some s1 => run evs2 s1 | None => None end.
Proof.
  revert s. induction evs1 as [|e evs1 IH]; simpl; intros s; [done|].
  destruct (step e s); [apply IH|done].
Qed.

Lemma reachable_run (evs : list event) (s s' : state) :
  reachable s -> run evs s = Some s' -> reachable s'.
Proof.
  intros (c & s0 & evs0 & Hc & Hr) Hr'.
  exists c, s0, (evs0 ++ evs). split; [done|].
  by rewrite run_app, Hr.
Qed.

Lemma reachable_step (e : event) (s s' : state) :
  reachable s -> step e s = Some s' -> reachable s'.
Proof.
  intros Hr Hs. apply (reachable_run [e] s s' Hr). simpl. by rewrite Hs.
Qed.

(** ** Dispatch resolves *)

Lemma on_reply_returned (r : workResponse) :
  exists resp err, on_reply r = DReturned resp err.
Proof. unfold on_reply. destruct (Err r); eauto. Qed.

Lemma step_deliver (s : state) (w c : nat) (wk : worker) (cl : caller)
    (stw stc : sel) (r : workResponse) :
  cancelled s = false ->
  workers s !! w = Some wk -> w_item wk = Some c ->
  send_status (w_pc wk) = Some stw -> offered (w_pc wk) = Some r ->
  callers s !! c = Some cl -> c_pc cl = DAwait stc ->
  rendezvous stc stw = true ->
  step (EvDeliver w) s =
  Some (set_worker (set_caller s c (with_cpc cl (on_reply r))) w
          (after_send wk)).
Proof.
  intros Hcan Hw Hi Hs Ho Hc Hpc Hr. simpl. unfold on_worker, on_caller.
  by rewrite Hw, Hi, Ho, Hs, Hc, Hcan, Hpc, Hr.
Qed.

Lemma step_worker_park_send (s : state) (w c : nat) (wk : worker)
    (cl : caller) :
  cancelled s = false ->
  workers s !! w = Some wk -> w_item wk = Some c ->
  send_status (w_pc wk) = Some Polling ->
  callers s !! c = Some cl -> parked_await cl = false ->
  step (EvWorkerPark w) s =
  Some (set_worker s w (with_pc wk (set_sel_w (w_pc wk) Parked))).
Proof.
  intros Hcan Hw Hi Hs Hc Hp. simpl. unfold on_worker.
  rewrite Hw, Hcan.
  destruct (w_pc wk) as [|?| |st ?| |st ?|st ?| | |?|]; simpl in Hs;
    try discriminate; injection Hs as ->; by rewrite Hi, Hc, Hp.
Qed.

Lemma deliver_resolves (s : state) (w c : nat) (wk : worker) (cl : caller)
    (stw stc : sel) (r : workResponse) :
  cancelled s = false ->
  workers s !! w = Some wk -> w_item wk = Some c ->
  send_status (w_pc wk) = Some stw -> offered (w_pc wk) = Some r ->
  callers s !! c = Some cl -> c_pc cl = DAwait stc ->
  stw = Polling \/ stc = Polling ->
  exists evs s',
    (length evs <= 2)%nat /\
    run evs s = Some s' /\ cancelled s' = false /\
    callers s' !! c = Some (with_cpc cl (on_reply r)) /\
    workers s' !! w = Some (after_send wk).
Proof.
  intros Hcan Hw Hi Hs Ho Hc Hpc Hst.
  assert (Hlen : (c < length (callers s))%nat) by by eapply lookup_lt_Some.
  assert (Hwlen : (w < length (workers s))%nat) by by eapply lookup_lt_Some.
  destruct (rendezvous stc stw) eqn:Hr.
  - exists [EvDeliver w]. eexists. cbn [run].
    erewrite step_deliver by eassumption.
    split; [simpl; lia|]. split; [reflexivity|]. split; [done|]. simpl.
    split; by apply list_lookup_insert_eq.
  - assert (stw = Polling /\ stc = Polling) as [-> ->]
      by (destruct stw, stc; simpl in Hr; destruct Hst; done).
    exists [EvWorkerPark w; EvDeliver w]. eexists. cbn [run].
    rewrite (step_worker_park_send s w c wk cl)
      by (try done; unfold parked_await; by rewrite Hpc).
    rewrite (step_deliver _ w c (with_pc wk (set_sel_w (w_pc wk) Parked))
               cl Parked Polling r); try done.
    + split; [simpl; lia|]. split; [reflexivity|]. split; [done|]. simpl.
      split; [by apply list_lookup_insert_eq|].
      rewrite list_insert_insert_eq, list_lookup_insert_eq by done.
      f_equal. unfold after_send.
      destruct (w_pc wk); simpl in *; try discriminate; reflexivity.
    + simpl. apply list_lookup_insert_eq. by eapply lookup_lt_Some.
    + simpl. destruct (w_pc wk); simpl in *; congruence.
    + simpl. destruct (w_pc wk); simpl in *; congruence.
Qed.

Lemma dispatch_can_resolve (s : state) (c : nat) (cl : caller) :
  inv s -> cancelled s = false -> callers s !! c = Some cl ->
  exists evs s' cl' r e,
    (length evs <= 3)%nat /\
    run evs s = Some s' /\ cancelled s' = false /\
    callers s' !! c = Some cl' /\ c_pc cl' = DReturned r e.
Proof.
  intros Hinv Hcan Hc.
  assert (Hlen : (c < length (callers s))%nat) by by eapply lookup_lt_Some.
  destruct (c_pc cl) as [[|]|stc|r e] eqn:Hpc.
  - (* polling at the first select *)
    destruct (c_fired cl) eqn:Hf.
    + exists [EvCallerBusy c]. do 4 eexists. cbn [run step].
      unfold on_caller. rewrite Hc, Hpc, Hf.
      split; [simpl; lia|]. split; [reflexivity|]. split; [done|]. simpl.
      split; [by apply list_lookup_insert_eq|reflexivity].
    + exists [EvTimer c; EvCallerBusy c]. do 4 eexists. cbn [run step].
      unfold on_caller. rewrite Hc, Hpc, Hf. simpl.
      rewrite list_lookup_insert_eq by done. simpl.
      split; [lia|]. split; [reflexivity|]. split; [done|]. simpl.
      rewrite list_insert_insert_eq.
      split; [by apply list_lookup_insert_eq|reflexivity].
  - (* parked at the first select *)
    pose proof (Forall_lookup_1 _ _ _ _ (inv_callers _ Hinv) Hc) as Hok.
    unfold caller_ok in Hok. rewrite Hpc in Hok.
    destruct Hok as [Hf|Hf]; [|congruence].
    exists [EvTimer c]. do 4 eexists. cbn [run step].
    unfold on_caller. rewrite Hc, Hpc, Hf, Hcan.
    split; [simpl; lia|]. split; [reflexivity|]. split; [done|]. simpl.
    split; [by apply list_lookup_insert_eq|reflexivity].
  - (* waiting for the answer *)
    destruct (inv_holder _ Hinv c cl Hc) as [?|Hex];
      [unfold awaiting; by rewrite Hpc|congruence|].
    apply existsb_lookup in Hex as (w & wk & Hw & Hh).
    pose proof Hh as Hh'. apply holds_spec in Hh' as [Hb Hi].
    destruct (inv_item _ Hinv _ _ _ Hw Hh) as (cl1 & Hcl1 & _ & Hpk).
    assert (cl1 = cl) as -> by congruence.
    assert (Hfin : forall s1 wk1 stw r,
              cancelled s1 = false -> callers s1 = callers s ->
              workers s1 !! w = Some wk1 -> w_item wk1 = Some c ->
              send_status (w_pc wk1) = Some stw ->
              offered (w_pc wk1) = Some r ->
              stw = Polling \/ stc = Polling ->
              exists evs s' cl' r e,
                (length evs <= 2)%nat /\
                run evs s1 = Some s' /\ cancelled s' = false /\
                callers s' !! c = Some cl' /\ c_pc cl' = DReturned r e).
    { intros s1 wk1 stw r Hcan1 Hcs1 Hw1 Hi1 Hs1 Ho1 Hst.
      destruct (deliver_resolves s1 w c wk1 cl stw stc r)
        as (evs & s' & Hl & Hr & Hcan' & Hc' & _);
        try done; [by rewrite Hcs1|].
      destruct (on_reply_returned r) as (resp & err & Hrep).
      exists evs, s', (with_cpc cl (on_reply r)), resp, err.
      repeat split; try done. }
    assert (Hwlen : (w < length (workers s))%nat)
      by by eapply lookup_lt_Some.
    destruct (w_pc wk) as [|?| |stw e0| |stw e0|stw r0| | |?|] eqn:Hwpc;
      try discriminate Hb.
    + (* Encode: let it fail *)
      destruct (Hfin
        (set_worker s w (with_pc wk (WSendEncErr Polling
           (ErrWrap "error writing to worker process" (ErrIO "EOF")))))
        (with_pc wk (WSendEncErr Polling
           (ErrWrap "error writing to worker process" (ErrIO "EOF"))))
        Polling
        {| Err := Some (ErrWrap "error writing to worker process"
                          (ErrIO "EOF"));
           Resp := zeroResponse |})
        as (evs & s' & cl' & r & e & Hl & Hr & H1 & H2 & H3);
        try done; [simpl; by apply list_lookup_insert_eq|by left|].
      exists (EvEncode w (Some (ErrIO "EOF")) :: evs), s', cl', r, e.
      split; [simpl; lia|]. repeat split; try done.
      cbn [run step]. unfold on_worker. by rewrite Hw, Hwpc.
    + destruct (Hfin s wk stw
        {| Err := Some e0; Resp := zeroResponse |})
        as (evs & s' & cl' & r & e & Hl & Hr & H1 & H2 & H3);
        try done; try (by rewrite Hwpc).
      { destruct stw; [by left|right]. destruct stc; [done|].
        specialize (Hpk eq_refl).
        unfold parked_await in Hpk. by rewrite Hpc in Hpk. }
      exists evs, s', cl', r, e. split; [lia|done].
    + (* Decode: let it fail *)
      destruct (Hfin
        (set_worker s w (with_pc wk (WSendDecErr Polling
           (ErrWrap "decoding worker process response" (ErrIO "EOF")))))
        (with_pc wk (WSendDecErr Polling
           (ErrWrap "decoding worker process response" (ErrIO "EOF"))))
        Polling
        {| Err := Some (ErrWrap "decoding worker process response"
                          (ErrIO "EOF"));
           Resp := zeroResponse |})
        as (evs & s' & cl' & r & e & Hl & Hr & H1 & H2 & H3);
        try done; [simpl; by apply list_lookup_insert_eq|by left|].
      exists (EvDecode w (inr (ErrIO "EOF")) :: evs), s', cl', r, e.
      split; [simpl; lia|]. repeat split; try done.
      cbn [run step]. unfold on_worker. by rewrite Hw, Hwpc.
    + destruct (Hfin s wk stw
        {| Err := Some e0; Resp := zeroResponse |})
        as (evs & s' & cl' & r & e & Hl & Hr & H1 & H2 & H3);
        try done; try (by rewrite Hwpc).
      { destruct stw; [by left|right]. destruct stc; [done|].
        specialize (Hpk eq_refl).
        unfold parked_await in Hpk. by rewrite Hpc in Hpk. }
      exists evs, s', cl', r, e. split; [lia|done].
    + destruct (Hfin s wk stw {| Err := None; Resp := r0 |})
        as (evs & s' & cl' & r & e & Hl & Hr & H1 & H2 & H3);
        try done; try (by rewrite Hwpc).
      { destruct stw; [by left|right]. destruct stc; [done|].
        specialize (Hpk eq_refl).
        unfold parked_await in Hpk. by rewrite Hpc in Hpk. }
      exists evs, s', cl', r, e. split; [lia|done].
  - exists [], s, cl, r, e. simpl. split; [lia|done].
Qed.

Lemma step_returned (e : event) (s s' : state) (c : nat) (cl : caller)
    (r : JanetResponse) (er : option error) :
  step e s = Some s' -> callers s !! c = Some cl ->
  c_pc cl = DReturned r er -> callers s' !! c = Some cl.
Proof.
  intros H Hc Hpc. step_inv H; simpl; try assumption.
  all: try (by apply lookup_app_l_Some).
  all: match goal with
       | E : callers _ !! ?c0 = Some _ |- <[?c0:=_]> _ !! _ = _ =>
           destruct (decide (c0 = c)) as [->|Hne];
           [congruence|by rewrite list_lookup_insert_ne]
       end.
Qed.

Lemma run_returned (evs : list event) (s s' : state) (c : nat)
    (cl : caller) (r : JanetResponse) (er : option error) :
  run evs s = Some s' -> callers s !! c = Some cl ->
  c_pc cl = DReturned r er -> callers s' !! c = Some cl.
Proof.
  revert s. induction evs as [|e evs IH]; simpl; intros s Hr Hc Hpc.
  - by injection Hr as <-.
  - destruct (step e s) as [s1|] eqn:Hs; [|discriminate].
    eauto using step_returned.
Qed.

(** ** Dispatch resolves without help from the process *)

Lemma run_unaided_run (evs : list event) (s s' : state) :
  run_unaided evs s = Some s' -> run evs s = Some s'.
Proof.
  revert s. induction evs as [|e evs IH]; simpl; intros s H; [done|].
  destruct (unaided s e); [|discriminate].
  destruct (step e s); [auto|discriminate].
Qed.

Lemma run_unaided_app (evs1 evs2 : list event) (s : state) :
  run_unaided (evs1 ++ evs2) s =
  match run_unaided evs1 s with
  | Some s1 => run_unaided evs2 s1
  | None => None
  end.
Proof.
  revert s. induction evs1 as [|e evs1 IH]; simpl; intros s; [done|].
  destruct (unaided s e); [|done]. destruct (step e s); [apply IH|done].
Qed.

(** The request timer gets a loop out of a write or a read: it expires,
    its function closes the pipes, and the call returns an error. *)
Lemma io_unblocks (s : state) (w : nat) (wk : worker) :
  inv s -> workers s !! w = Some wk ->
  w_pc wk = WEncode \/ w_pc wk = WDecode ->
  exists evs s1 wk1 e0,
    (length evs <= 3)%nat /\ run_unaided evs s = Some s1 /\
    callers s1 = callers s /\ cancelled s1 = cancelled s /\
    workers s1 = <[w:=wk1]> (workers s) /\
    send_status (w_pc wk1) = Some Polling /\
    protocol_error (w_pc wk1) = Some e0 /\
    w_item wk1 = w_item wk /\ w_gen wk1 = w_gen wk /\
    w_cmd wk1 = w_cmd wk /\ w_codec wk1 = w_codec wk /\
    w_guard wk1 = GRan /\
    p2 (w_pipes wk1) = false /\ p3 (w_pipes wk1) = false.
Proof.
  intros Hinv Hw Hpc.
  assert (Hwlen : (w < length (workers s))%nat) by by eapply lookup_lt_Some.
  pose proof (Forall_lookup_1 _ _ _ _ (inv_workers _ Hinv) Hw) as Hok.
  unfold worker_ok in Hok.
  destruct Hpc as [Hpc|Hpc]; rewrite Hpc in Hok; simpl in Hok;
    destruct Hok as (_ & _ & _ & _ & _ &
                     [(Hg & Hp2 & Hp3)|([Hg|Hg] & Hp2 & Hp3)]).
  all: match goal with
       | _ : w_pc _ = WEncode, _ : w_guard _ = GRan |- _ =>
           exists [EvEncode w (Some ErrClosed)]
       | _ : w_pc _ = WEncode, _ : w_guard _ = GFired |- _ =>
           exists [EvGuardClose w; EvEncode w (Some ErrClosed)]
       | _ : w_pc _ = WEncode |- _ =>
           exists [EvGuardFire w; EvGuardClose w;
                   EvEncode w (Some ErrClosed)]
       | _ : w_pc _ = WDecode, _ : w_guard _ = GRan |- _ =>
           exists [EvDecode w (inr ErrClosed)]
       | _ : w_pc _ = WDecode, _ : w_guard _ = GFired |- _ =>
           exists [EvGuardClose w; EvDecode w (inr ErrClosed)]
       | _ : w_pc _ = WDecode |- _ =>
           exists [EvGuardFire w; EvGuardClose w;
                   EvDecode w (inr ErrClosed)]
       end.
  all: do 3 eexists; split; [simpl; lia|]; split;
    [cbn [run_unaided unaided step]; unfold on_worker;
     repeat (unfold set_worker, with_pc; cbn;
             rewrite ?list_insert_insert_eq, ?Hw, ?Hpc, ?Hg, ?Hp2, ?Hp3;
             rewrite ?list_lookup_insert_eq by done);
     reflexivity|].
  all: cbn; rewrite ?list_insert_insert_eq.
  all: repeat split; try reflexivity; assumption.
Qed.

Lemma deliver_resolves_unaided (s : state) (w c : nat) (wk : worker)
    (cl : caller) (stw stc : sel) (r : workResponse) :
  cancelled s = false ->
  workers s !! w = Some wk -> w_item wk = Some c ->
  send_status (w_pc wk) = Some stw -> offered (w_pc wk) = Some r ->
  callers s !! c = Some cl -> c_pc cl = DAwait stc ->
  stw = Polling \/ stc = Polling ->
  exists evs s',
    (length evs <= 2)%nat /\
    run_unaided evs s = Some s' /\ cancelled s' = false /\
    callers s' !! c = Some (with_cpc cl (on_reply r)).
Proof.
  intros Hcan Hw Hi Hs Ho Hc Hpc Hst.
  assert (Hlen : (c < length (callers s))%nat) by by eapply lookup_lt_Some.
  assert (Hwlen : (w < length (workers s))%nat) by by eapply lookup_lt_Some.
  destruct (rendezvous stc stw) eqn:Hr.
  - exists [EvDeliver w]. eexists. cbn [run_unaided unaided].
    erewrite step_deliver by eassumption.
    split; [simpl; lia|]. split; [reflexivity|]. split; [done|]. simpl.
    by apply list_lookup_insert_eq.
  - assert (stw = Polling /\ stc = Polling) as [-> ->]
      by (destruct stw, stc; simpl in Hr; destruct Hst; done).
    exists [EvWorkerPark w; EvDeliver w]. eexists. cbn [run_unaided unaided].
    rewrite (step_worker_park_send s w c wk cl)
      by (try done; unfold parked_await; by rewrite Hpc).
    rewrite (step_deliver _ w c (with_pc wk (set_sel_w (w_pc wk) Parked))
               cl Parked Polling r); try done.
    + split; [simpl; lia|]. split; [reflexivity|]. split; [done|]. simpl.
      by apply list_lookup_insert_eq.
    + simpl. apply list_lookup_insert_eq. by eapply lookup_lt_Some.
    + simpl. destruct (w_pc wk); simpl in *; congruence.
    + simpl. destruct (w_pc wk); simpl in *; congruence.
Qed.

Lemma dispatch_resolves_unaided (s : state) (c : nat) (cl : caller) :
  inv s -> cancelled s = false -> callers s !! c = Some cl ->
  exists evs s' cl' r e,
    (length evs <= 5)%nat /\
    run_unaided evs s = Some s' /\ cancelled s' = false /\
    callers s' !! c = Some cl' /\ c_pc cl' = DReturned r e.
Proof.
  intros Hinv Hcan Hc.
  assert (Hlen : (c < length (callers s))%nat) by by eapply lookup_lt_Some.
  destruct (c_pc cl) as [[|]|stc|r e] eqn:Hpc.
  - (* polling at the first select *)
    destruct (c_fired cl) eqn:Hf.
    + exists [EvCallerBusy c]. do 4 eexists. cbn [run_unaided unaided step].
      unfold on_caller. rewrite Hc, Hpc, Hf.
      split; [simpl; lia|]. split; [reflexivity|]. split; [done|]. simpl.
      split; [by apply list_lookup_insert_eq|reflexivity].
    + exists [EvTimer c; EvCallerBusy c]. do 4 eexists.
      cbn [run_unaided unaided step].
      unfold on_caller. rewrite Hc, Hpc, Hf. simpl.
      rewrite list_lookup_insert_eq by done. simpl.
      split; [lia|]. split; [reflexivity|]. split; [done|]. simpl.
      rewrite list_insert_insert_eq.
      split; [by apply list_lookup_insert_eq|reflexivity].
  - (* parked at the first select *)
    pose proof (Forall_lookup_1 _ _ _ _ (inv_callers _ Hinv) Hc) as Hok.
    unfold caller_ok in Hok. rewrite Hpc in Hok.
    destruct Hok as [Hf|Hf]; [|congruence].
    exists [EvTimer c]. do 4 eexists. cbn [run_unaided unaided step].
    unfold on_caller. rewrite Hc, Hpc, Hf, Hcan.
    split; [simpl; lia|]. split; [reflexivity|]. split; [done|]. simpl.
    split; [by apply list_lookup_insert_eq|reflexivity].
  - (* waiting for the answer *)
    destruct (inv_holder _ Hinv c cl Hc) as [?|Hex];
      [unfold awaiting; by rewrite Hpc|congruence|].
    apply existsb_lookup in Hex as (w & wk & Hw & Hh).
    pose proof Hh as Hh'. apply holds_spec in Hh' as [Hb Hi].
    destruct (inv_item _ Hinv _ _ _ Hw Hh) as (cl1 & Hcl1 & _ & Hpk).
    assert (cl1 = cl) as -> by congruence.
    assert (Hwlen : (w < length (workers s))%nat)
      by by eapply lookup_lt_Some.
    assert (Hsend : forall stw r0,
              send_status (w_pc wk) = Some stw ->
              offered (w_pc wk) = Some r0 ->
              exists evs s' cl' r e,
                (length evs <= 5)%nat /\
                run_unaided evs s = Some s' /\ cancelled s' = false /\
                callers s' !! c = Some cl' /\ c_pc cl' = DReturned r e).
    { intros stw r0 Hs Ho.
      destruct (deliver_resolves_unaided s w c wk cl stw stc r0)
        as (evs & s' & Hl & Hr & Hcan' & Hc'); try done.
      { destruct stw; [by left|right]. destruct stc; [done|].
        specialize (Hpk Hs).
        unfold parked_await in Hpk. by rewrite Hpc in Hpk. }
      destruct (on_reply_returned r0) as (resp & err & Hrep).
      exists evs, s', (with_cpc cl (on_reply r0)), resp, err.
      repeat split; try done. lia. }
    assert (Hio : w_pc wk = WEncode \/ w_pc wk = WDecode ->
              exists evs s' cl' r e,
                (length evs <= 5)%nat /\
                run_unaided evs s = Some s' /\ cancelled s' = false /\
                callers s' !! c = Some cl' /\ c_pc cl' = DReturned r e).
    { intros Hio.
      destruct (io_unblocks s w wk Hinv Hw Hio)
        as (evs1 & s1 & wk1 & e0 & Hl1 & Hr1 & Hcs1 & Hcan1 & Hws1 & Hst1 &
            Hpe1 & Hi1 & _).
      destruct (deliver_resolves_unaided s1 w c wk1 cl Polling stc
                  {| Err := Some e0; Resp := zeroResponse |})
        as (evs2 & s' & Hl2 & Hr2 & Hcan' & Hc'); try done.
      { congruence. }
      { rewrite Hws1. by apply list_lookup_insert_eq. }
      { congruence. }
      { destruct (w_pc wk1); simpl in *; congruence. }
      { by rewrite Hcs1. }
      { by left. }
      exists (evs1 ++ evs2), s', (with_cpc cl
        (on_reply {| Err := Some e0; Resp := zeroResponse |})).
      do 2 eexists. rewrite run_unaided_app, Hr1, length_app.
      split; [lia|]. repeat split; try done. }
    destruct (w_pc wk) as [|?| |stw e0| |stw e0|stw r0| | |?|] eqn:Hwpc;
      try discriminate Hb; eauto.
    all: eapply Hsend; reflexivity.
  - exists [], s, cl, r, e. simpl. split; [lia|done].
Qed.

(** ** Where the outcome of a call comes from *)

Lemma step_outcome_origin (ev : event) (s s' : state) (c : nat)
    (cl cl' : caller) (r : JanetResponse) (e : option error) :
  step ev s = Some s' -> callers s !! c = Some cl ->
  (forall r0 e0, c_pc cl <> DReturned r0 e0) ->
  callers s' !! c = Some cl' -> c_pc cl' = DReturned r e ->
  (e = None /\
   exists w wk st,
     ev = EvDeliver w /\ workers s !! w = Some wk /\
     w_item wk = Some c /\ w_pc wk = WSendResp st r) \/
  (r = zeroResponse /\ exists err, e = Some err).
Proof.
  intros H Hc Hn Hc' Hpc'.
  step_inv H; simpl in *.
  all: try (exfalso; assert (cl' = cl) by congruence; subst;
            eapply Hn; eassumption).
  all: try (apply lookup_app_l_Some in Hc; exfalso;
            assert (cl' = cl) by congruence; subst;
            eapply Hn; eassumption).
  all: split_lookup Hc';
    try (exfalso; assert (cl' = cl) by congruence; subst;
         eapply Hn; eassumption).
  all: simpl in *; try discriminate.
  all: try (right; split; [congruence|eexists; congruence]).
  all: try (exfalso; eapply Hn; rewrite <- Hpc'; congruence).
  all: try (right; injection Hpc' as <- <-; split; [done|by eexists]).
  unfold on_reply in Hpc'.
  destruct (w_pc w0) eqn:Hwpc; simpl in *; try discriminate;
    simplify_eq; simpl in *; simplify_eq.
  - right. split; [done|by eexists].
  - right. split; [done|by eexists].
  - left. split; [done|]. do 3 eexists. repeat split; eassumption.
Qed.

Lemma step_offer_origin (ev : event) (s s' : state) (w : nat)
    (wk wk' : worker) (st : sel) (r : JanetResponse) :
  step ev s = Some s' ->
  workers s !! w = Some wk -> workers s' !! w = Some wk' ->
  w_pc wk' = WSendResp st r ->
  w_item wk' = w_item wk /\ w_gen wk' = w_gen wk /\
  ((exists st0, w_pc wk = WSendResp st0 r) \/
   (ev = EvDecode w (inl r) /\ w_pc wk = WDecode)).
Proof.
  intros H Hw Hw' Hpc'. step_inv H; simpl in *.
  all: try (assert (wk' = wk) as -> by congruence; eauto).
  all: split_lookup Hw'; try (assert (wk' = wk) as -> by congruence; eauto).
  all: simplify_eq; simpl in *; try discriminate.
  all: try (repeat split; try done; left; eexists; eassumption).
  - unfold after_send in Hpc'. destruct (w_pc w1); discriminate.
  - repeat split; try done. left.
    destruct (w_pc w1); simpl in *; simplify_eq; eauto.
  - destruct o; discriminate.
  - repeat split; try done. right. split; congruence.
Qed.



(** C1.  In every reachable state whose pool has not been cancelled, and
    for every Dispatch call.  If the call has returned, it has returned
    either a response with a nil error or the zero response with a
    non-nil error, exactly one of the two, and that outcome stays what
    it is whatever happens next.  A worker may well answer with the
    zero value, so the two outcomes are told apart by the error; what
    the response is, is fixed by where it comes from: a step on which
    the call returns with a nil error is the delivery from the worker
    that holds the item of this call, and the response is the one that
    worker offers; every other step on which it returns gives the zero
    response and an error.  And a worker comes to offer a response only
    by the decode call of that exchange returning it, and offers the
    same one until it is taken.  Whether or not the call has returned
    yet, there is a schedule of at most three steps, free of
    cancellation, on which it returns; and there is one of at most five
    steps that needs nothing from the worker process, only timers
    expiring, goroutines going through their selects and I/O on closed
    pipes failing.  So a call never has two outcomes, and is never left
    without one by a process that does not answer. *)
Theorem Dispatch_exactly_one_outcome (s : state) (c : nat) (cl : caller) :
  reachable s -> cancelled s = false -> callers s !! c = Some cl ->
  (forall r e, c_pc cl = DReturned r e ->
     ((is_response r e /\ ~ is_error r e) \/
      (is_error r e /\ ~ is_response r e)) /\
     forall evs s', run evs s = Some s' -> callers s' !! c = Some cl) /\
  (forall ev s' cl' r e,
     (forall r0 e0, c_pc cl <> DReturned r0 e0) ->
     step ev s = Some s' -> callers s' !! c = Some cl' ->
     c_pc cl' = DReturned r e ->
     (e = None /\
      exists w wk st,
        ev = EvDeliver w /\ workers s !! w = Some wk /\
        w_item wk = Some c /\ w_pc wk = WSendResp st r) \/
     (r = zeroResponse /\ exists err, e = Some err)) /\
  (forall ev s' w wk wk' st r,
     step ev s = Some s' ->
     workers s !! w = Some wk -> workers s' !! w = Some wk' ->
     w_pc wk' = WSendResp st r ->
     w_item wk' = w_item wk /\ w_gen wk' = w_gen wk /\
     ((exists st0, w_pc wk = WSendResp st0 r) \/
      (ev = EvDecode w (inl r) /\ w_pc wk = WDecode))) /\
  (exists evs s' cl' r e,
     (length evs <= 3)%nat /\
     run evs s = Some s' /\ cancelled s' = false /\
     callers s' !! c = Some cl' /\ c_pc cl' = DReturned r e /\
     ((is_response r e /\ ~ is_error r e) \/
      (is_error r e /\ ~ is_response r e))) /\
  (exists evs s' cl' r e,
     (length evs <= 5)%nat /\
     run_unaided evs s = Some s' /\ cancelled s' = false /\
     callers s' !! c = Some cl' /\ c_pc cl' = DReturned r e /\
     ((is_response r e /\ ~ is_error r e) \/
      (is_error r e /\ ~ is_response r e))).
Proof.
  intros Hreach Hcan Hc.
  pose proof (reachable_inv _ Hreach) as Hinv.
  split; [|split; [|split; [|split]]].
  - intros r e Hpc. split.
    + pose proof (Forall_lookup_1 _ _ _ _ (inv_callers _ Hinv) Hc) as Hok.
      unfold caller_ok in Hok. by rewrite Hpc in Hok.
    + intros evs s' Hr. eauto using run_returned.
  - intros ev s' cl' r e Hn Hs Hc' Hpc'.
    eapply step_outcome_origin; eauto.
  - intros ev s' w wk wk' st r Hs Hw Hw' Hpc'.
    eapply step_offer_origin; eauto.
  - destruct (dispatch_can_resolve s c cl Hinv Hcan Hc)
      as (evs & s' & cl' & r & e & Hl & Hr & Hcan' & Hc' & Hpc').
    exists evs, s', cl', r, e. repeat split; try done.
    pose proof (reachable_inv _ (reachable_run _ _ _ Hreach Hr)) as Hinv'.
    pose proof (Forall_lookup_1 _ _ _ _ (inv_callers _ Hinv') Hc') as Hok.
    unfold caller_ok in Hok. by rewrite Hpc' in Hok.
  - destruct (dispatch_resolves_unaided s c cl Hinv Hcan Hc)
      as (evs & s' & cl' & r & e & Hl & Hr & Hcan' & Hc' & Hpc').
    exists evs, s', cl', r, e. repeat split; try done.
    pose proof (reachable_inv _ (reachable_run _ _ _ Hreach
                                   (run_unaided_run _ _ _ Hr))) as Hinv'.
    pose proof (Forall_lookup_1 _ _ _ _ (inv_callers _ Hinv') Hc') as Hok.
    unfold caller_ok in Hok. by rewrite Hpc' in Hok.
Qed.

(** The echo scenario: the call has returned the worker's answer. *)
Lemma Dispatch_exactly_one_outcome_witness :
  (is_response resp_hello None /\ ~ is_error resp_hello None) \/
  (is_error resp_hello None /\ ~ is_response resp_hello None).
Proof.
  assert (Hreach : reachable s_echo).
  { exists cfg_echo. eexists. exists sched_echo.
    split; vm_compute; reflexivity. }
  destruct (Dispatch_exactly_one_outcome s_echo 0
              {| c_req := req_hello; c_timeout := 5000; c_fired := false;
                 c_pc := DReturned resp_hello None |}
              Hreach eq_refl eq_refl) as [H _].
  exact (proj1 (H resp_hello None eq_refl)).
Defined.

(** ** Close *)

Lemma exited_all (s : state) :
  inv s -> wg s = 0%nat -> Forall fully_exited (workers s).
Proof.
  intros Hinv Hz. rewrite (inv_wg _ Hinv) in Hz.
  apply alive_count_zero in Hz.
  apply Forall_lookup_2. intros w wk Hw.
  pose proof (Forall_lookup_1 _ _ _ _ Hz Hw) as Hpc. simpl in Hpc.
  pose proof (Forall_lookup_1 _ _ _ _ (inv_workers _ Hinv) Hw) as Hok.
  unfold worker_ok in Hok. rewrite Hpc in Hok. simpl in Hok.
  unfold fully_exited. intuition congruence.
Qed.

Lemma step_exited_frozen (e : event) (s s' : state) :
  inv s -> Forall fully_exited (workers s) ->
  step e s = Some s' -> workers s' = workers s.
Proof.
  intros Hinv Hex H. step_inv H; simpl; try reflexivity.
  all: match goal with
       | E : workers _ !! _ = Some ?w |- _ =>
           pose proof (Forall_lookup_1 _ _ _ _ Hex E) as (Hpc & _);
           pose proof (Forall_lookup_1 _ _ _ _ (inv_workers _ Hinv) E) as Hok
       end.
  all: unfold worker_ok in Hok; rewrite Hpc in *; simpl in *.
  all: try congruence.
  all: destruct Hok as (_ & _ & _ & Hg & _); congruence.
Qed.

Lemma run_exited_frozen (evs : list event) (s s' : state) :
  inv s -> Forall fully_exited (workers s) ->
  run evs s = Some s' -> workers s' = workers s.
Proof.
  revert s. induction evs as [|e evs IH]; simpl; intros s Hinv Hex Hr.
  - by injection Hr as <-.
  - destruct (step e s) as [s1|] eqn:Hs; [|discriminate].
    pose proof (step_exited_frozen _ _ _ Hinv Hex Hs) as Hw.
    rewrite <- Hw. apply IH; [eauto using inv_step|by rewrite Hw|done].
Qed.

(** C7.  A call to Close first cancels the shared context and starts
    waiting.  It can return only in a state where the context is
    cancelled and every worker loop is gone: goroutine returned, process
    reaped or never started, all pipe handles closed.  Once some Close
    has returned, no worker ever moves again on any schedule, so nothing
    is running past that point.  And Close is idempotent: a further call
    made after a Close has returned can itself return at once, and
    leaves the context, the wait group, the workers and the calls exactly
    as they were. *)
Theorem Close_drains_and_is_idempotent (s : state) :
  reachable s ->
  (exists s1, step EvClose s = Some s1 /\ cancelled s1 = true /\
     closers s1 = closers s ++ [CWaiting] /\
     (forall s2, step (EvCloseReturn (length (closers s))) s1 = Some s2 ->
        Forall fully_exited (workers s1))) /\
  (forall k s', step (EvCloseReturn k) s = Some s' ->
     cancelled s = true /\ Forall fully_exited (workers s) /\
     closers s' !! k = Some CReturned /\ workers s' = workers s) /\
  (close_returned s ->
     cancelled s = true /\ Forall fully_exited (workers s) /\
     (forall evs s', run evs s = Some s' ->
        workers s' = workers s /\ cancelled s' = true) /\
     exists s1 s2,
       step EvClose s = Some s1 /\
       step (EvCloseReturn (length (closers s))) s1 = Some s2 /\
       cancelled s2 = cancelled s /\ wg s2 = wg s /\
       workers s2 = workers s /\ callers s2 = callers s /\
       closers s2 = closers s ++ [CReturned]).
Proof.
  intros Hreach. pose proof (reachable_inv _ Hreach) as Hinv.
  assert (Hret : forall t k t', reachable t ->
            step (EvCloseReturn k) t = Some t' ->
            cancelled t = true /\ Forall fully_exited (workers t) /\
            closers t' !! k = Some CReturned /\ workers t' = workers t).
  { intros t k t' Ht Hs. pose proof (reachable_inv _ Ht) as Hi.
    cbn [step] in Hs.
    destruct (closers t !! k) as [[|]|] eqn:Hk; try discriminate.
    destruct (wg t) eqn:Hwg; [|discriminate]. injection Hs as <-. simpl.
    split; [|split; [|split]].
    - apply (inv_closing _ Hi). intros Hn. by rewrite Hn in Hk.
    - by apply exited_all.
    - apply list_lookup_insert_eq. by eapply lookup_lt_Some.
    - reflexivity. }
  split; [|split].
  - eexists. split; [reflexivity|]. simpl. split; [done|]. split; [done|].
    intros s2 Hs2.
    assert (Hr1 : reachable {| cfg := cfg s; cancelled := true; wg := wg s;
                               workers := workers s; callers := callers s;
                               closers := closers s ++ [CWaiting] |})
      by (eapply (reachable_step EvClose); [exact Hreach|reflexivity]).
    apply (Hret _ (length (closers s)) _ Hr1 Hs2).
  - intros k s' Hs. eauto.
  - intros [k Hk].
    assert (Hz : wg s = 0%nat) by eauto using inv_closed.
    assert (Hcan : cancelled s = true).
    { apply (inv_closing _ Hinv). intros Hn. by rewrite Hn in Hk. }
    assert (Hex : Forall fully_exited (workers s)) by by apply exited_all.
    split; [done|]. split; [done|]. split.
    + intros evs s' Hr. split; [eauto using run_exited_frozen|].
      clear -Hr Hcan. revert s Hr Hcan.
      induction evs as [|e evs IH]; simpl; intros s Hr Hcan.
      * by injection Hr as <-.
      * destruct (step e s) as [s1|] eqn:Hs; [|discriminate].
        eauto using step_cancelled_mono.
    + do 2 eexists. split; [reflexivity|]. cbn [step]. simpl.
      rewrite lookup_app_r by lia. rewrite Nat.sub_diag. simpl.
      rewrite Hz. split; [reflexivity|]. simpl.
      repeat split; try done.
      rewrite insert_app_r_alt by lia. rewrite Nat.sub_diag. reflexivity.
Qed.

(** The pool of one worker after Close has returned: a second Close
    leaves it as it is. *)
Lemma Close_drains_and_is_idempotent_witness :
  cancelled s_closed = true /\ Forall fully_exited (workers s_closed).
Proof.
  assert (Hreach : reachable s_closed).
  { exists cfg_echo. eexists. exists sched_closed.
    split; vm_compute; reflexivity. }
  destruct (Close_drains_and_is_idempotent s_closed Hreach) as (_ & _ & H).
  destruct H as (H1 & H2 & _).
  - exists 0%nat. reflexivity.
  - split; assumption.
Defined.

(** ** The worker loop *)

(** C6.  When the decode has succeeded and the caller takes the response
    from the channel, the caller's Dispatch returns that response with a
    nil error and the worker reaches the call to Stop(), which is where
    the loop finds out whether the request timer has expired.  From
    there only the request timer and the worker itself can change the
    worker, and the timer leaves it at that call.  The call to Stop()
    always goes through: if the timer has expired by then, the inner
    function returns (all pipe handles released, codec gone, the loop
    waits for the process to exit) although the response was delivered;
    otherwise the timer is stopped and the loop is back at the select on
    the dispatch channel with the same process, pipes and codec. *)
Theorem success_then_stop_timer (s : state) (w : nat) (wk : worker) :
  reachable s -> workers s !! w = Some wk ->
  (forall st r s1,
     w_pc wk = WSendResp st r -> step (EvDeliver w) s = Some s1 ->
     exists c cl1,
       w_item wk = Some c /\ callers s1 !! c = Some cl1 /\
       c_pc cl1 = DReturned r None /\
       workers s1 !! w = Some (with_pc wk WStopTimer)) /\
  (w_pc wk = WStopTimer ->
     (forall e s', step e s = Some s' ->
        workers s' !! w = Some wk \/ e = EvGuardFire w \/
        e = EvGuardClose w \/ e = EvStopTimer w) /\
     (forall e s' wk',
        e = EvGuardFire w \/ e = EvGuardClose w ->
        step e s = Some s' -> workers s' !! w = Some wk' ->
        w_pc wk' = WStopTimer /\
        (w_guard wk' = GFired \/ w_guard wk' = GRan)) /\
     exists s' wk',
       step (EvStopTimer w) s = Some s' /\ workers s' !! w = Some wk' /\
       (((w_guard wk = GFired \/ w_guard wk = GRan) /\
         w_pc wk' = WWait /\ w_pipes wk' = no_pipes /\ w_codec wk' = None) \/
        (w_guard wk = GArmed (WorkerRequestTimeout (cfg s)) /\
         w_pc wk' = WReady Polling /\ w_guard wk' = GStopped /\
         w_cmd wk' = CmdRunning (w_gen wk) /\ w_cmd wk = w_cmd wk' /\
         w_gen wk' = w_gen wk /\ w_codec wk' = w_codec wk /\
         w_pipes wk' = w_pipes wk /\
         p2 (w_pipes wk) = true /\ p3 (w_pipes wk) = true))).
Proof.
  intros Hreach Hw. pose proof (reachable_inv _ Hreach) as Hinv.
  assert (Hwlen : (w < length (workers s))%nat) by by eapply lookup_lt_Some.
  pose proof (Forall_lookup_1 _ _ _ _ (inv_workers _ Hinv) Hw) as Hok.
  split.
  - intros st r s1 Hpc Hs. cbn [step] in Hs. unfold on_worker in Hs.
    rewrite Hw in Hs.
    destruct (w_item wk) as [c|] eqn:Hi; [|discriminate].
    rewrite Hpc in Hs. simpl in Hs. unfold on_caller in Hs.
    destruct (callers s !! c) as [cl|] eqn:Hc; [|discriminate].
    destruct (cancelled s); [discriminate|].
    destruct (c_pc cl) as [|stc|]; try discriminate.
    destruct (rendezvous stc st); [|discriminate]. injection Hs as <-.
    exists c, (with_cpc cl (on_reply {| Err := None; Resp := r |})).
    split; [done|]. simpl. split; [|split].
    + apply list_lookup_insert_eq. by eapply lookup_lt_Some.
    + reflexivity.
    + unfold after_send. rewrite Hpc. by apply list_lookup_insert_eq.
  - intros Hpc. unfold worker_ok in Hok. rewrite Hpc in Hok. simpl in Hok.
    destruct Hok as (Hcmd & Hcodec & _ & _ & _ & Hg).
    split; [|split].
    + intros e s' Hs. step_inv Hs; simpl; auto.
      all: other_worker w.
      all: auto.
      all: match goal with
           | E : workers _ !! _ = Some ?w0 |- _ =>
               assert (w0 = wk) as -> by congruence
           end; simpl in *; try congruence.
      rewrite Hpc in E1. discriminate.
    + intros e s' wk' [-> | ->] Hs Hw'; cbn [step] in Hs;
        unfold on_worker in Hs; rewrite Hw in Hs;
        destruct (w_guard wk); try discriminate;
        injection Hs as <-; simpl in Hw';
        rewrite list_lookup_insert_eq in Hw' by done;
        injection Hw' as <-; simpl; auto.
    + cbn [step]. unfold on_worker. rewrite Hw, Hpc.
      destruct Hg as [(Hg & _)|([Hg|Hg] & Hp2 & Hp3)]; rewrite Hg.
      * do 2 eexists. split; [reflexivity|]. simpl.
        split; [by apply list_lookup_insert_eq|]. left. simpl. auto.
      * do 2 eexists. split; [reflexivity|]. simpl.
        split; [by apply list_lookup_insert_eq|]. left. simpl. auto.
      * do 2 eexists. split; [reflexivity|]. simpl.
        split; [by apply list_lookup_insert_eq|]. right. by simpl.
Qed.

(** The response was delivered, the timer had fired: the worker is
    discarded all the same. *)
Lemma success_then_stop_timer_witness :
  exists s' wk',
    step (EvStopTimer 0) s_late_success = Some s' /\
    workers s' !! 0%nat = Some wk' /\ w_pc wk' = WWait.
Proof.
  assert (Hreach : reachable s_late_success).
  { exists cfg_echo. eexists. exists sched_late_success.
    split; vm_compute; reflexivity. }
  destruct (success_then_stop_timer s_late_success 0 _ Hreach eq_refl)
    as (_ & H).
  destruct (H eq_refl) as (_ & _ & s' & wk' & Hs & Hw & Hcase).
  exists s', wk'. split; [exact Hs|]. split; [exact Hw|].
  destruct Hcase as [(_ & Hpc & _)|(Hg & _)]; [exact Hpc|discriminate Hg].
Defined.

(** ** Dispatch, once accepted *)

(** C8.  Once a worker has accepted the work item, the call sits in its
    second select.  The timer case is not among its cases, and the expiry
    of the handoff timer leaves the call where it is.  The call returns
    only by the cancellation case (the zero response and PoolClosed,
    possible only when the pool is cancelled) or by receiving what the
    worker holding its item sends on the private channel.  Unless the
    pool is cancelled such a worker exists, and the exchange it is in is
    guarded by the request timer of the worker loop, armed with
    WorkerRequestTimeout or already expired; once that timer has closed
    the pipes, a write to the process cannot succeed any more. *)
Theorem accepted_call_waits_for_reply_or_cancel
    (s : state) (c : nat) (cl : caller) (stc : sel) :
  reachable s -> callers s !! c = Some cl -> c_pc cl = DAwait stc ->
  step (EvCallerBusy c) s = None /\
  (forall s', step (EvTimer c) s = Some s' ->
     exists cl', callers s' !! c = Some cl' /\ c_pc cl' = DAwait stc) /\
  (forall e s' cl' r er,
     step e s = Some s' -> callers s' !! c = Some cl' ->
     c_pc cl' = DReturned r er ->
     (e = EvCallerClosed c /\ cancelled s = true /\
      r = zeroResponse /\ er = Some ErrWorkerPoolClosed) \/
     (exists w wk rr,
        e = EvDeliver w /\ cancelled s = false /\
        workers s !! w = Some wk /\ w_item wk = Some c /\
        offered (w_pc wk) = Some rr /\ c_pc cl' = on_reply rr)) /\
  (cancelled s = false ->
     exists w wk,
       workers s !! w = Some wk /\ holds c wk = true /\
       (w_guard wk = GArmed (WorkerRequestTimeout (cfg s)) \/
        w_guard wk = GFired \/ w_guard wk = GRan) /\
       (w_guard wk = GRan ->
          p2 (w_pipes wk) = false /\ p3 (w_pipes wk) = false /\
          step (EvEncode w None) s = None)).
Proof.
  intros Hreach Hc Hpc. pose proof (reachable_inv _ Hreach) as Hinv.
  assert (Hlen : (c < length (callers s))%nat) by by eapply lookup_lt_Some.
  split; [|split; [|split]].
  - cbn [step]. unfold on_caller. by rewrite Hc, Hpc.
  - intros s' Hs. cbn [step] in Hs. unfold on_caller in Hs.
    rewrite Hc, Hpc in Hs. destruct (c_fired cl); [discriminate|].
    injection Hs as <-. eexists. simpl.
    split; [by apply list_lookup_insert_eq|done].
  - intros e s' cl' r er Hs Hc' Hpc'.
    step_inv Hs; simpl in Hc'.
    all: try (assert (cl' = cl) as -> by congruence; congruence).
    all: try (apply lookup_snoc_Some in Hc' as [[_ Hc']|[_ <-]];
              [assert (cl' = cl) as -> by congruence; congruence
              |discriminate Hpc']).
    all: match type of Hc' with
         | <[?c0:=_]> _ !! _ = _ =>
             destruct (decide (c0 = c)) as [->|Hne];
             [|rewrite list_lookup_insert_ne in Hc' by done;
               assert (cl' = cl) as -> by congruence; congruence]
         end.
    all: rewrite list_lookup_insert_eq in Hc' by done;
         injection Hc' as <-; simpl in Hpc'.
    all: match goal with
         | E : callers _ !! _ = Some ?c0 |- _ =>
             assert (c0 = cl) as -> by congruence
         end.
    all: try congruence.
    + left. injection Hpc' as <- <-. done.
    + right. exists w, w0, w1. repeat split; done.
  - intros Hcan.
    destruct (inv_holder _ Hinv c cl Hc) as [?|Hex];
      [unfold awaiting; by rewrite Hpc|congruence|].
    apply existsb_lookup in Hex as (w & wk & Hw & Hh).
    exists w, wk. split; [done|]. split; [done|].
    pose proof (Forall_lookup_1 _ _ _ _ (inv_workers _ Hinv) Hw) as Hok.
    apply holds_spec in Hh as [Hb _].
    unfold worker_ok in Hok.
    assert (Hg : (w_guard wk = GRan /\
                  p2 (w_pipes wk) = false /\ p3 (w_pipes wk) = false) \/
                 ((w_guard wk = GFired \/
                   w_guard wk = GArmed (WorkerRequestTimeout (cfg s))) /\
                  p2 (w_pipes wk) = true /\ p3 (w_pipes wk) = true))
      by (destruct (w_pc wk); try discriminate Hb; simpl in Hok; tauto).
    split; [tauto|]. intros Hran.
    destruct Hg as [(_ & Hp2 & Hp3)|([Hg|Hg] & _)]; try congruence.
    split; [done|]. split; [done|].
    cbn [step]. unfold on_worker. rewrite Hw, Hp2.
    by destruct (w_pc wk).
Qed.

(** The echo scenario with the call parked in its second select. *)
Lemma accepted_call_waits_for_reply_or_cancel_witness :
  step (EvCallerBusy 0) s_awaiting = None.
Proof.
  assert (Hreach : reachable s_awaiting).
  { exists cfg_echo. eexists. exists sched_awaiting.
    split; vm_compute; reflexivity. }
  exact (proj1 (accepted_call_waits_for_reply_or_cancel
                  s_awaiting 0 _ Parked Hreach eq_refl eq_refl)).
Defined.

(** ** Dispatch, before it is accepted *)

(** C3, as stated, fails: on the pool of one worker, after Close has
    returned, a call whose handoff timer has expired when its first
    select is evaluated may take the timer case and fail with PoolBusy. *)
Lemma Dispatch_after_Close_may_be_busy : ~ after_Close_always_PoolClosed.
Proof.
  intros H.
  assert (Hreach : reachable s_closed).
  { exists cfg_echo. eexists. exists sched_closed.
    split; vm_compute; reflexivity. }
  assert (Hclosed : close_returned s_closed) by (by exists 0%nat).
  specialize (H s_closed sched_late_call s_late_call 0%nat
                {| c_req := req_hello; c_timeout := 0; c_fired := true;
                   c_pc := DReturned zeroResponse (Some ErrWorkerPoolBusy) |}
                zeroResponse (Some ErrWorkerPoolBusy)
                Hreach Hclosed (le_n 0) eq_refl eq_refl eq_refl).
  discriminate H.
Qed.

(** C3, amended.  For a call in its first select, one step leaves it
    there or ends the select in one of three ways.  The timer case gives
    the zero response and PoolBusy; it needs the handoff timer to have
    expired, and a call already parked takes it only if the pool is not
    cancelled.  The cancellation case gives the zero response and
    PoolClosed; it needs the pool to be cancelled.  The handoff to a
    worker needs the pool not to be cancelled.  Each case can indeed be
    taken when it is ready.  When Close has returned the pool is
    cancelled and no worker accepts the item, so the call gets no
    response: it fails with PoolClosed, or, if its timer has expired by
    the time it polls the select, possibly with PoolBusy. *)
Theorem Dispatch_handoff_outcomes
    (s : state) (c : nat) (cl : caller) (st : sel) :
  reachable s -> callers s !! c = Some cl -> c_pc cl = DHandoff st ->
  (forall e s' cl',
     step e s = Some s' -> callers s' !! c = Some cl' ->
     (exists st', c_pc cl' = DHandoff st') \/
     (c_pc cl' = DReturned zeroResponse (Some ErrWorkerPoolBusy) /\
      c_fired cl' = true /\
      ((e = EvCallerBusy c /\ st = Polling /\ c_fired cl = true) \/
       (e = EvTimer c /\ st = Parked /\ cancelled s = false))) \/
     (c_pc cl' = DReturned zeroResponse (Some ErrWorkerPoolClosed) /\
      e = EvCallerClosed c /\ cancelled s = true) \/
     (c_pc cl' = DAwait Polling /\ cancelled s = false /\
      exists w, e = EvHandoff c w)) /\
  (st = Polling -> c_fired cl = true ->
     exists s' cl',
       step (EvCallerBusy c) s = Some s' /\ callers s' !! c = Some cl' /\
       c_pc cl' = DReturned zeroResponse (Some ErrWorkerPoolBusy)) /\
  (st = Parked -> cancelled s = false ->
     exists s' cl',
       step (EvTimer c) s = Some s' /\ callers s' !! c = Some cl' /\
       c_pc cl' = DReturned zeroResponse (Some ErrWorkerPoolBusy)) /\
  (cancelled s = true ->
     exists s' cl',
       step (EvCallerClosed c) s = Some s' /\ callers s' !! c = Some cl' /\
       c_pc cl' = DReturned zeroResponse (Some ErrWorkerPoolClosed)) /\
  (close_returned s ->
     cancelled s = true /\ forall w, step (EvHandoff c w) s = None).
Proof.
  intros Hreach Hc Hpc. pose proof (reachable_inv _ Hreach) as Hinv.
  assert (Hlen : (c < length (callers s))%nat) by by eapply lookup_lt_Some.
  pose proof (Forall_lookup_1 _ _ _ _ (inv_callers _ Hinv) Hc) as Hok.
  unfold caller_ok in Hok. rewrite Hpc in Hok.
  split; [|split; [|split; [|split]]].
  - intros e s' cl' Hs Hc'.
    step_inv Hs; simpl in Hc'.
    all: try (assert (cl' = cl) as -> by congruence; eauto; fail).
    all: try (apply lookup_snoc_Some in Hc' as [[_ Hc']|[_ <-]];
              [assert (cl' = cl) as -> by congruence|]; eauto; fail).
    all: match type of Hc' with
         | <[?c0:=_]> _ !! _ = _ =>
             destruct (decide (c0 = c)) as [->|Hne];
             [|rewrite list_lookup_insert_ne in Hc' by done;
               assert (cl' = cl) as -> by congruence; eauto]
         end.
    all: rewrite list_lookup_insert_eq in Hc' by done;
         injection Hc' as <-; simpl.
    all: match goal with
         | E : callers _ !! _ = Some ?c0 |- _ =>
             assert (c0 = cl) as -> by congruence
         end.
    all: try (left; eauto; fail).
    all: try congruence.
    all: try (right; left; split; [reflexivity|];
              split; [first [reflexivity|assumption]|];
              first [ left; repeat split; congruence
                    | right; repeat split; congruence ]).
    all: try (right; right; left; done).
    all: try (right; right; right; split; [reflexivity|]; split; eauto).
  - intros -> Hf. cbn [step]. unfold on_caller. rewrite Hc, Hpc, Hf.
    do 2 eexists. split; [reflexivity|]. simpl.
    split; [by apply list_lookup_insert_eq|reflexivity].
  - intros -> Hcan. destruct Hok as [Hf|?]; [|congruence].
    cbn [step]. unfold on_caller. rewrite Hc, Hpc, Hf, Hcan.
    do 2 eexists. split; [reflexivity|]. simpl.
    split; [by apply list_lookup_insert_eq|reflexivity].
  - intros Hcan. cbn [step]. unfold on_caller. rewrite Hc, Hcan, Hpc.
    do 2 eexists. split; [reflexivity|]. simpl.
    split; [by apply list_lookup_insert_eq|reflexivity].
  - intros [k Hk].
    assert (Hcan : cancelled s = true).
    { apply (inv_closing _ Hinv). intros Hn. by rewrite Hn in Hk. }
    split; [done|]. intros w. cbn [step]. unfold on_caller, on_worker.
    rewrite Hc. destruct (workers s !! w); [|done]. by rewrite Hcan.
Qed.

(** The call made after Close has returned, polling with its timer
    expired: the cancellation case is ready as well, and gives
    PoolClosed. *)
Lemma Dispatch_handoff_outcomes_witness :
  exists s' cl',
    step (EvCallerClosed 0) s_late_polling = Some s' /\
    callers s' !! 0%nat = Some cl' /\
    c_pc cl' = DReturned zeroResponse (Some ErrWorkerPoolClosed).
Proof.
  assert (Hreach : reachable s_late_polling).
  { exists cfg_echo. eexists.
    exists (sched_closed ++ [EvDispatch req_hello 0; EvTimer 0]).
    split; vm_compute; reflexivity. }
  destruct (Dispatch_handoff_outcomes s_late_polling 0 _ Polling
              Hreach eq_refl eq_refl) as (_ & _ & _ & H & _).
  exact (H eq_refl).
Defined.

(** ** Cancellation and the blocking points of the worker loop *)

(** C5, as stated, fails: a worker blocked in [decoder.Decode] when the
    pool is cancelled has no cancellation case to take. *)
Lemma Decode_does_not_observe_cancellation :
  ~ every_blocking_point_observes_cancellation.
Proof.
  intros H.
  assert (Hreach : reachable s_decoding_cancelled).
  { exists cfg_echo. eexists. exists (sched_decoding ++ [EvClose]).
    split; vm_compute; reflexivity. }
  destruct (H s_decoding_cancelled 0%nat _ Hreach eq_refl eq_refl eq_refl)
    as [s' Hs].
  vm_compute in Hs. discriminate Hs.
Qed.

(** C5, amended.  Once the pool is cancelled, a worker loop at any of its
    selects (waiting on the dispatch channel, delivering an error or a
    response, sleeping in the backoff) can take the cancellation case,
    which ends the inner function, or the loop itself from the backoff.
    At the encode call, the decode call and the process-exit wait there
    is no cancellation case: the worker leaves these points only when
    the call returns.  During the encode and the decode call the request
    timer of the exchange, armed with [WorkerRequestTimeout], is pending
    or has expired, and the cancellation does not stop it: it can
    expire and its function can run as before.  Once the function has
    closed the pipes a write cannot succeed any more, and there is a
    continuation of at most four steps, made of the timer, the I/O error
    on the closed pipes and the cancellation case of the select that
    follows, on which the inner function returns with every handle
    released; it needs nothing from the process. *)
Theorem cancellation_observed_at_selects_only
    (s : state) (w : nat) (wk : worker) :
  reachable s -> cancelled s = true -> workers s !! w = Some wk ->
  (at_select (w_pc wk) = true ->
     exists s' wk',
       step (EvWorkerDone w) s = Some s' /\ workers s' !! w = Some wk' /\
       w_pipes wk' = no_pipes /\ w_codec wk' = None /\
       (match w_pc wk with
        | WBackoff _ => w_pc wk' = WExited
        | _ => w_pc wk' = WWait
        end)) /\
  (w_pc wk = WEncode \/ w_pc wk = WDecode \/ w_pc wk = WWait ->
     step (EvWorkerDone w) s = None /\
     forall e s', step e s = Some s' ->
       workers s' !! w = Some wk \/
       (exists res, e = EvEncode w res /\ w_pc wk = WEncode) \/
       (exists res, e = EvDecode w res /\ w_pc wk = WDecode) \/
       ((e = EvGuardFire w \/ e = EvGuardClose w) /\ w_pc wk <> WWait) \/
       (exists ex, e = EvWait w ex /\ w_pc wk = WWait)) /\
  (w_pc wk = WEncode \/ w_pc wk = WDecode ->
     (w_guard wk = GArmed (WorkerRequestTimeout (cfg s)) \/
      w_guard wk = GFired \/ w_guard wk = GRan) /\
     (w_guard wk = GArmed (WorkerRequestTimeout (cfg s)) ->
        exists s' wk',
          step (EvGuardFire w) s = Some s' /\
          workers s' !! w = Some wk' /\ w_guard wk' = GFired /\
          w_pc wk' = w_pc wk) /\
     (w_guard wk = GFired ->
        exists s' wk',
          step (EvGuardClose w) s = Some s' /\
          workers s' !! w = Some wk' /\ w_guard wk' = GRan /\
          w_pc wk' = w_pc wk /\
          p2 (w_pipes wk') = false /\ p3 (w_pipes wk') = false) /\
     (w_guard wk = GRan ->
        p2 (w_pipes wk) = false /\ p3 (w_pipes wk) = false /\
        step (EvEncode w None) s = None) /\
     exists evs s' wk',
       (length evs <= 4)%nat /\ run_unaided evs s = Some s' /\
       workers s' !! w = Some wk' /\ w_pc wk' = WWait /\
       w_pipes wk' = no_pipes /\ w_codec wk' = None /\
       callers s' = callers s).
Proof.
  intros Hreach Hcan Hw. pose proof (reachable_inv _ Hreach) as Hinv.
  assert (Hwlen : (w < length (workers s))%nat) by by eapply lookup_lt_Some.
  pose proof (Forall_lookup_1 _ _ _ _ (inv_workers _ Hinv) Hw) as Hok.
  split; [|split].
  - intros Hsel. cbn [step]. unfold on_worker. rewrite Hw, Hcan.
    unfold worker_ok in Hok.
    destruct (w_pc wk) eqn:Hpc; try discriminate Hsel; simpl in Hok.
    all: do 2 eexists; (split; [reflexivity|]); simpl;
         (split; [by apply list_lookup_insert_eq|]); simpl; intuition.
  - intros Hpc. split.
    + cbn [step]. unfold on_worker. rewrite Hw, Hcan.
      destruct Hpc as [-> |[-> | ->]]; reflexivity.
    + intros e s' Hs. step_inv Hs; simpl; auto.
      all: other_worker w.
      all: match goal with
           | E : workers _ !! _ = Some ?w0 |- _ =>
               assert (w0 = wk) as -> by congruence
           end.
      all: try (exfalso; destruct Hpc as [Hpc|[Hpc|Hpc]];
                rewrite Hpc in *; simpl in *; congruence).
      all: try (right; left; eauto; fail).
      all: try (right; right; left; eauto; fail).
      all: try (right; right; right; right; eauto; fail).
      all: right; right; right; left; split; [auto|].
      all: unfold worker_ok in Hok; intros Hpc'; rewrite Hpc' in Hok;
           simpl in Hok; destruct Hok as (_ & _ & _ & Hg & _); congruence.
  - intros Hpc.
    assert (Hg : (w_guard wk = GRan /\ p2 (w_pipes wk) = false /\
                  p3 (w_pipes wk) = false) \/
                 ((w_guard wk = GFired \/
                   w_guard wk = GArmed (WorkerRequestTimeout (cfg s))) /\
                  p2 (w_pipes wk) = true /\ p3 (w_pipes wk) = true)).
    { unfold worker_ok in Hok.
      destruct Hpc as [Hpc|Hpc]; rewrite Hpc in Hok; simpl in Hok; tauto. }
    split; [tauto|]. split; [|split; [|split]].
    + intros Hga. do 2 eexists. cbn [step]. unfold on_worker.
      rewrite Hw, Hga. split; [reflexivity|]. simpl.
      split; [by apply list_lookup_insert_eq|done].
    + intros Hgf. do 2 eexists. cbn [step]. unfold on_worker.
      rewrite Hw, Hgf. split; [reflexivity|]. simpl.
      split; [by apply list_lookup_insert_eq|done].
    + intros Hgr.
      destruct Hg as [(_ & Hp2 & Hp3)|([Hg|Hg] & _)]; try congruence.
      repeat split; try done.
      cbn [step]. unfold on_worker. rewrite Hw.
      destruct (w_pc wk); try reflexivity. by rewrite Hp2.
    + destruct (io_unblocks s w wk Hinv Hw Hpc)
        as (evs1 & s1 & wk1 & e0 & Hl1 & Hr1 & Hcs1 & Hcan1 & Hws1 & Hst1 &
            Hpe1 & _).
      assert (Hw1 : workers s1 !! w = Some wk1).
      { rewrite Hws1. by apply list_lookup_insert_eq. }
      exists (evs1 ++ [EvWorkerDone w]). do 2 eexists.
      rewrite run_unaided_app, Hr1, length_app.
      split; [simpl; lia|].
      cbn [run_unaided unaided step]. unfold on_worker.
      rewrite Hw1, Hcan1, Hcan.
      split.
      { destruct (w_pc wk1); simpl in *; try discriminate; reflexivity. }
      simpl. rewrite list_lookup_insert_eq
        by (rewrite Hws1, length_insert; done).
      by rewrite Hcs1.
Qed.

(** The worker blocked in Decode under cancellation: no cancellation
    case. *)
Lemma cancellation_observed_at_selects_only_witness :
  step (EvWorkerDone 0) s_decoding_cancelled = None.
Proof.
  assert (Hreach : reachable s_decoding_cancelled).
  { exists cfg_echo. eexists. exists (sched_decoding ++ [EvClose]).
    split; vm_compute; reflexivity. }
  destruct (cancellation_observed_at_selects_only s_decoding_cancelled 0 _
              Hreach eq_refl eq_refl) as (_ & H & _).
  exact (proj1 (H (or_intror (or_introl eq_refl)))).
Defined.

(** ** A pool without workers *)

Lemma unserved_cancel (b : bool) (c : caller) :
  unserved b c -> unserved true c.
Proof.
  unfold unserved. destruct (c_pc c); intuition.
Qed.

Lemma step_unserved (e : event) (s s' : state) :
  step e s = Some s' -> workers s = [] ->
  Forall (unserved (cancelled s)) (callers s) ->
  workers s' = [] /\ Forall (unserved (cancelled s')) (callers s').
Proof.
  intros H Hnil Hok. step_inv H; simpl.
  all: try match goal with
       | E : workers _ !! _ = Some _ |- _ =>
           rewrite Hnil in E; destruct w; discriminate E
       end.
  all: split; [assumption|].
  all: repeat match goal with
       | E : cancelled ?s = _ |- context [cancelled ?s] => rewrite E
       end.
  all: try assumption.
  all: try (apply Forall_app; split; [assumption|]; repeat constructor).
  all: try (eapply Forall_impl; [eassumption|]; apply unserved_cancel).
  all: apply Forall_insert; [assumption|].
  all: match goal with
       | E : callers _ !! _ = Some ?c |- _ =>
           pose proof (Forall_lookup_1 _ _ _ _ Hok E) as Hw
       end.
  all: unfold unserved in *; simpl.
  all: repeat match goal with
       | E : c_pc _ = _ |- _ => rewrite E in *; clear E
       | E : c_fired _ = _ |- _ => rewrite E in *; clear E
       end; simpl in *.
  all: intuition (eauto; congruence).
Qed.

Lemma run_unserved (evs : list event) (s s' : state) :
  run evs s = Some s' -> workers s = [] ->
  Forall (unserved (cancelled s)) (callers s) ->
  workers s' = [] /\ Forall (unserved (cancelled s')) (callers s').
Proof.
  revert s. induction evs as [|e evs IH]; simpl; intros s Hr Hnil Hok.
  - by injection Hr as <-.
  - destruct (step e s) as [s1|] eqn:Hs; [|discriminate].
    destruct (step_unserved _ _ _ Hs Hnil Hok). eauto.
Qed.

(** C9, as stated, fails: on a pool of zero workers that has been closed,
    a call fails with PoolClosed, not PoolBusy. *)
Lemma zero_workers_may_be_closed : ~ zero_workers_always_PoolBusy.
Proof.
  intros H.
  specialize (H cfg_zero _
                [EvClose; EvDispatch req_hello 5000; EvCallerClosed 0]
                s_zero_closed_call 0%nat _ zeroResponse
                (Some ErrWorkerPoolClosed)
                eq_refl eq_refl eq_refl eq_refl eq_refl).
  discriminate H.
Qed.

(** C9, amended.  A configuration with [NumWorkers = 0] and a non-empty
    [WorkerProc] is accepted: the pool is built and no worker loop is
    started.  On every schedule the pool has no worker, no call is ever
    accepted, and a call that has returned has returned the zero
    response with PoolBusy, its handoff timer expired, or with
    PoolClosed, the pool cancelled.  As long as the pool is not
    cancelled every call can come to its end, and that end is
    PoolBusy. *)
Theorem zero_workers_never_serve (c : PoolConfig) :
  NumWorkers c = 0 -> WorkerProc c <> [] ->
  exists s0,
    cr_pool (NewWorkerPool c) = Some s0 /\
    cr_err (NewWorkerPool c) = None /\
    loops_started (NewWorkerPool c) = 0%nat /\
    forall evs s, run evs s0 = Some s ->
      workers s = [] /\
      forall k cl, callers s !! k = Some cl ->
        awaiting cl = false /\
        (forall w, step (EvHandoff k w) s = None) /\
        (forall r e, c_pc cl = DReturned r e ->
           r = zeroResponse /\
           ((e = Some ErrWorkerPoolBusy /\ c_fired cl = true) \/
            (e = Some ErrWorkerPoolClosed /\ cancelled s = true))) /\
        (cancelled s = false ->
           exists evs' s' cl',
             run evs' s = Some s' /\ cancelled s' = false /\
             callers s' !! k = Some cl' /\ c_fired cl' = true /\
             c_pc cl' = DReturned zeroResponse (Some ErrWorkerPoolBusy)).
Proof.
  intros Hn Hp.
  destruct (NewWorkerPool_cases c) as [[? _]|[(_ & ? & _)|(_ & _ & Hc)]];
    [lia|done|].
  rewrite Hn in Hc. simpl in Hc.
  eexists. rewrite Hc. simpl. split; [reflexivity|]. split; [done|].
  split.
  { unfold loops_started. simpl. by destruct (cfg_Logger c). }
  match goal with
  | |- forall evs s, run evs ?x = _ -> _ => set (s0 := x)
  end.
  assert (Hs0 : cr_pool (NewWorkerPool c) = Some s0) by by rewrite Hc.
  assert (Hws : workers s0 = []) by reflexivity.
  assert (Hcs0 : callers s0 = []) by reflexivity.
  clearbody s0. intros evs s Hr.
  assert (Hinv0 : forall t evs', run evs' s0 = Some t ->
            workers t = [] /\ Forall (unserved (cancelled t)) (callers t)).
  { intros t evs' Ht. eapply run_unserved; [exact Ht|done|].
    rewrite Hcs0. constructor. }
  destruct (Hinv0 s evs Hr) as [Hnil Hok].
  split; [done|]. intros k cl Hk.
  pose proof (Forall_lookup_1 _ _ _ _ Hok Hk) as Hu. unfold unserved in Hu.
  split; [|split; [|split]].
  - unfold awaiting. by destruct (c_pc cl).
  - intros w. cbn [step]. unfold on_caller, on_worker.
    rewrite Hk, Hnil. by destruct w.
  - intros r e Hpc. by rewrite Hpc in Hu.
  - intros Hcan.
    assert (Hreach : reachable s) by (by exists c, s0, evs).
    destruct (dispatch_can_resolve s k cl (reachable_inv _ Hreach) Hcan Hk)
      as (evs' & s' & cl' & r & e & _ & Hr' & Hcan' & Hk' & Hpc').
    exists evs', s', cl'. split; [done|]. split; [done|]. split; [done|].
    destruct (Hinv0 s' (evs ++ evs')) as [_ Hok'];
      [by rewrite run_app, Hr|].
    pose proof (Forall_lookup_1 _ _ _ _ Hok' Hk') as Hu'.
    unfold unserved in Hu'. rewrite Hpc' in Hu'.
    destruct Hu' as (-> & [(-> & Hf)|(_ & ?)]); [done|congruence].
Qed.

(** The configuration with zero workers. *)
Lemma zero_workers_never_serve_witness :
  exists s0,
    cr_pool (NewWorkerPool cfg_zero) = Some s0 /\
    cr_err (NewWorkerPool cfg_zero) = None /\
    loops_started (NewWorkerPool cfg_zero) = 0%nat.
Proof.
  destruct (zero_workers_never_serve cfg_zero eq_refl)
    as (s0 & H1 & H2 & H3 & _); [discriminate|].
  exists s0. repeat split; assumption.
Defined.

(** ** Protocol errors *)

Lemma step_rank (e : event) (s s' : state) (w : nat) (wk : worker) :
  step e s = Some s' -> workers s !! w = Some wk ->
  exists wk', workers s' !! w = Some wk' /\ (rank wk <= rank wk')%nat.
Proof.
  intros H Hw.
  assert (Hwlen : (w < length (workers s))%nat) by by eapply lookup_lt_Some.
  assert (Hsame : forall ws, ws = workers s ->
            exists wk', ws !! w = Some wk' /\ (rank wk <= rank wk')%nat)
    by (intros ws ->; eauto).
  step_inv H; simpl; try (by apply Hsame).
  all: match goal with
       | |- exists _, <[?w0:=_]> _ !! _ = Some _ /\ _ =>
           destruct (decide (w0 = w)) as [->|Hne];
           [|rewrite list_lookup_insert_ne by done; eauto]
       end.
  all: match goal with
       | E : workers _ !! _ = Some ?w0 |- _ =>
           assert (w0 = wk) as -> by congruence
       end.
  all: rewrite list_lookup_insert_eq by done; eexists; split; [reflexivity|].
  all: unfold rank, after_send; simpl.
  all: try match goal with |- context [spawn _ ?o] => destruct o end.
  all: destruct (w_pc wk); simpl in *; try discriminate; lia.
Qed.

Lemma run_rank (evs : list event) (s s' : state) (w : nat) (wk : worker) :
  run evs s = Some s' -> workers s !! w = Some wk ->
  exists wk', workers s' !! w = Some wk' /\ (rank wk <= rank wk')%nat.
Proof.
  revert s wk. induction evs as [|e evs IH]; simpl; intros s wk Hr Hw.
  - injection Hr as <-. eauto.
  - destruct (step e s) as [s1|] eqn:Hs; [|discriminate].
    destruct (step_rank _ _ _ _ _ Hs Hw) as (wk1 & Hw1 & Hle).
    destruct (IH _ _ Hr Hw1) as (wk' & Hw' & Hle').
    exists wk'. split; [done|lia].
Qed.

(** C4, as stated, fails: when the pool is cancelled after a decode has
    failed, the worker takes the cancellation case and gives up the
    process without delivering the error; the call has returned
    PoolClosed, not the wrapped error. *)
Lemma protocol_error_may_go_undelivered : ~ protocol_error_always_delivered.
Proof.
  intros H.
  assert (Hreach : reachable s_decode_failed).
  { exists cfg_echo. eexists. exists sched_decode_failed.
    split; vm_compute; reflexivity. }
  destruct (H s_decode_failed 0%nat _
              (ErrWrap "decoding worker process response" (ErrIO "EOF"))
              0%nat sched_then_cancelled s_decode_failed_cancelled _
              Hreach eq_refl eq_refl eq_refl eq_refl eq_refl eq_refl)
    as (cl & Hcl & Hpc).
  vm_compute in Hcl. injection Hcl as <-. discriminate Hpc.
Qed.

(** After the inner function has returned, a loop that is not cancelled
    reaps the process, sleeps, and starts a fresh one. *)
Lemma restart_after_teardown (s : state) (w : nat) (wk : worker) (pid : nat) :
  workers s !! w = Some wk -> w_pc wk = WWait ->
  w_cmd wk = CmdRunning pid ->
  exists s' wk',
    run [EvWait w None; EvAfter w; EvBackoffElapsed w; EvSpawn w SpawnOk] s
      = Some s' /\
    callers s' = callers s /\ cancelled s' = cancelled s /\
    workers s' !! w = Some wk' /\
    w_pc wk' = WReady Polling /\ w_gen wk' = S (w_gen wk) /\
    w_cmd wk' = CmdRunning (S (w_gen wk)) /\
    w_codec wk' = Some (S (w_gen wk)) /\
    p2 (w_pipes wk') = true /\ p3 (w_pipes wk') = true.
Proof.
  intros Hw Hpc Hcmd.
  assert (Hwlen : (w < length (workers s))%nat) by by eapply lookup_lt_Some.
  do 2 eexists. cbn [run step]. unfold on_worker.
  rewrite Hw, Hpc, Hcmd. simpl.
  rewrite list_lookup_insert_eq by done. simpl.
  rewrite list_lookup_insert_eq by (by rewrite length_insert). simpl.
  rewrite list_lookup_insert_eq by (by rewrite !length_insert). simpl.
  split; [reflexivity|]. simpl. split; [done|]. split; [done|].
  split; [apply list_lookup_insert_eq; by rewrite !length_insert|].
  by simpl.
Qed.

(** At the wait for the process the loop has no cancellation case and
    among all the steps of the pool only the return of [cmd.Wait()]
    moves it on. *)
Lemma wait_ends_by_Wait_only (s : state) (w : nat) (wk : worker) :
  inv s -> workers s !! w = Some wk -> w_pc wk = WWait ->
  step (EvWorkerDone w) s = None /\
  forall e s' wk',
    step e s = Some s' -> workers s' !! w = Some wk' ->
    wk' = wk \/
    (exists x, e = EvWait w x) /\ w_pc wk' = WBackoff Polling /\
    running wk' = false /\ w_gen wk' = w_gen wk.
Proof.
  intros Hinv Hw Hpc.
  assert (Hwlen : (w < length (workers s))%nat) by by eapply lookup_lt_Some.
  pose proof (Forall_lookup_1 _ _ _ _ (inv_workers _ Hinv) Hw) as Hok.
  unfold worker_ok in Hok. rewrite Hpc in Hok. simpl in Hok.
  destruct Hok as (_ & _ & _ & Hg & _).
  split.
  - cbn [step]. unfold on_worker. rewrite Hw, Hpc.
    by destruct (cancelled s).
  - intros e s' wk' Hs Hw'.
    step_inv Hs; simpl in Hw'; try (left; congruence).
    all: match type of Hw' with
         | <[?w0:=_]> _ !! _ = _ =>
             destruct (decide (w0 = w)) as [->|Hne];
             [|rewrite list_lookup_insert_ne in Hw' by done;
               left; congruence]
         end.
    all: rewrite list_lookup_insert_eq in Hw' by done;
         injection Hw' as <-.
    all: match goal with
         | E : workers _ !! _ = Some ?w0 |- _ =>
             assert (w0 = wk) as -> by congruence
         end.
    all: try congruence.
    all: try (exfalso; rewrite Hpc in *; simpl in *; congruence).
    all: right; split; [eauto|]; by simpl.
Qed.

(** C4, amended.  For a worker in an exchange for call [c]: a failed
    encode or decode puts it at the select that offers the wrapped error
    to that call only.  From there one step either leaves it at that
    select with the same error, or ends the inner function; that
    happens either by the send being taken, the pool not cancelled, in
    which case call [c] and no other returns the zero response with the
    error wrapped once more, or by the cancellation case, the pool
    cancelled, in which case no call is touched.  The return of the
    inner function closes every pipe handle and drops the codec
    together.  It does not end the process: the process is still the
    running one, the loop is at [cmd.Wait()], which has no cancellation
    case, and as long as the loop is there only the return of that call
    moves it on, to the back-off with the process reaped.  On no
    schedule does the loop serve again with that process: whenever it
    serves later, it is on a process and codec started after the error.
    When the pool is not cancelled there is a schedule on which the call
    gets the error and, the process having exited and the back-off
    elapsed, the loop is ready again on a fresh process.  When the pool
    is cancelled there is one on which, the process having exited, the
    loop returns from the back-off select and starts nothing. *)
Theorem protocol_error_discards_process
    (s : state) (w : nat) (wk : worker) (c : nat) :
  reachable s -> workers s !! w = Some wk -> w_item wk = Some c ->
  (w_pc wk = WEncode -> forall err s',
     step (EvEncode w (Some err)) s = Some s' ->
     exists wk', workers s' !! w = Some wk' /\
       protocol_error (w_pc wk') =
         Some (ErrWrap "error writing to worker process" err) /\
       w_item wk' = Some c /\ w_gen wk' = w_gen wk) /\
  (w_pc wk = WDecode -> forall err s',
     step (EvDecode w (inr err)) s = Some s' ->
     exists wk', workers s' !! w = Some wk' /\
       protocol_error (w_pc wk') =
         Some (ErrWrap "decoding worker process response" err) /\
       w_item wk' = Some c /\ w_gen wk' = w_gen wk) /\
  (forall e0, protocol_error (w_pc wk) = Some e0 ->
     (forall e s' wk', step e s = Some s' -> workers s' !! w = Some wk' ->
        (protocol_error (w_pc wk') = Some e0 /\ w_item wk' = Some c /\
         w_gen wk' = w_gen wk) \/
        (wk' = teardown wk /\
         ((e = EvDeliver w /\ cancelled s = false /\
           exists cl,
             callers s !! c = Some cl /\
             callers s' =
               <[c:=with_cpc cl
                      (DReturned zeroResponse
                         (Some (ErrWrap "request failed" e0)))]>
                 (callers s)) \/
          (e = EvWorkerDone w /\ cancelled s = true /\
           callers s' = callers s)))) /\
     (forall evs s' wk', run evs s = Some s' ->
        workers s' !! w = Some wk' -> serving (w_pc wk') = true ->
        (w_gen wk < w_gen wk')%nat /\
        w_cmd wk' = CmdRunning (w_gen wk') /\
        w_codec wk' = Some (w_gen wk')) /\
     (cancelled s = false ->
        exists evs s' cl' wk',
          run evs s = Some s' /\ cancelled s' = false /\
          callers s' !! c = Some cl' /\
          c_pc cl' = DReturned zeroResponse
                       (Some (ErrWrap "request failed" e0)) /\
          workers s' !! w = Some wk' /\ w_pc wk' = WReady Polling /\
          w_gen wk' = S (w_gen wk) /\
          w_cmd wk' = CmdRunning (S (w_gen wk)) /\
          w_codec wk' = Some (S (w_gen wk))) /\
     (w_pc (teardown wk) = WWait /\ w_pipes (teardown wk) = no_pipes /\
      w_codec (teardown wk) = None /\
      w_cmd (teardown wk) = CmdRunning (w_gen wk)) /\
     (forall evs s1,
        run evs s = Some s1 -> workers s1 !! w = Some (teardown wk) ->
        step (EvWorkerDone w) s1 = None /\
        forall e s2 wk2,
          step e s1 = Some s2 -> workers s2 !! w = Some wk2 ->
          wk2 = teardown wk \/
          (exists x, e = EvWait w x) /\ w_pc wk2 = WBackoff Polling /\
          running wk2 = false /\ w_gen wk2 = w_gen wk) /\
     (cancelled s = true ->
        exists s' wk',
          run [EvWorkerDone w; EvWait w None; EvWorkerDone w] s
            = Some s' /\
          workers s' !! w = Some wk' /\ w_pc wk' = WExited /\
          running wk' = false /\ w_gen wk' = w_gen wk /\
          callers s' = callers s)).
Proof.
  intros Hreach Hw Hi. pose proof (reachable_inv _ Hreach) as Hinv.
  assert (Hwlen : (w < length (workers s))%nat) by by eapply lookup_lt_Some.
  pose proof (Forall_lookup_1 _ _ _ _ (inv_workers _ Hinv) Hw) as Hok.
  split; [|split].
  - intros Hpc err s' Hs. cbn [step] in Hs. unfold on_worker in Hs.
    rewrite Hw, Hpc in Hs. injection Hs as <-. eexists. simpl.
    split; [by apply list_lookup_insert_eq|]. by simpl.
  - intros Hpc err s' Hs. cbn [step] in Hs. unfold on_worker in Hs.
    rewrite Hw, Hpc in Hs. injection Hs as <-. eexists. simpl.
    split; [by apply list_lookup_insert_eq|]. by simpl.
  - intros e0 He0. split; [|split; [|split; [|split; [|split]]]].
    + intros e s' wk' Hs Hw'.
      assert (Hsame : wk' = wk ->
                protocol_error (w_pc wk') = Some e0 /\
                w_item wk' = Some c /\ w_gen wk' = w_gen wk)
        by (by intros ->).
      step_inv Hs; simpl in Hw'; try (left; apply Hsame; congruence).
      all: match type of Hw' with
           | <[?w0:=_]> _ !! _ = _ =>
               destruct (decide (w0 = w)) as [->|Hne];
               [|rewrite list_lookup_insert_ne in Hw' by done;
                 left; apply Hsame; congruence]
           end.
      all: rewrite list_lookup_insert_eq in Hw' by done;
           injection Hw' as <-.
      all: match goal with
           | E : workers _ !! _ = Some ?w0 |- _ =>
               assert (w0 = wk) as -> by congruence
           end.
      all: try (exfalso; destruct (w_pc wk); simpl in *; congruence).
      all: try (left; destruct (w_pc wk); simpl in *;
                repeat split; congruence).
      * right. assert (n = c) as -> by congruence.
        assert (after_send wk = teardown wk) as ->
          by (unfold after_send; destruct (w_pc wk); simpl in *;
              congruence).
        split; [done|]. left. split; [done|]. split; [done|].
        exists c0. split; [done|]. simpl.
        destruct (w_pc wk); simpl in *; try discriminate;
          injection He0 as ->; injection E1 as <-; reflexivity.
      * right. split; [done|]. right. done.
      * right. split; [done|]. right. done.
    + intros evs s' wk' Hr Hw' Hsv.
      destruct (run_rank _ _ _ _ _ Hr Hw) as (wk1 & Hw1 & Hle).
      assert (wk1 = wk') as -> by congruence.
      pose proof (reachable_inv _ (reachable_run _ _ _ Hreach Hr)) as Hinv'.
      pose proof (Forall_lookup_1 _ _ _ _ (inv_workers _ Hinv') Hw') as Hok'.
      unfold rank in Hle. rewrite Hsv in Hle.
      replace (serving (w_pc wk)) with false in Hle
        by (destruct (w_pc wk); simpl in *; congruence).
      split; [lia|]. unfold worker_ok in Hok'.
      replace (holds_process (w_pc wk')) with true in Hok'
        by (destruct (w_pc wk'); simpl in *; congruence).
      tauto.
    + intros Hcan.
      assert (Hh : holds c wk = true).
      { apply holds_spec. split; [|done].
        destruct (w_pc wk); simpl in *; congruence. }
      destruct (inv_item _ Hinv _ _ _ Hw Hh) as (cl & Hcl & Haw & Hpk).
      destruct Haw as [?|Haw]; [congruence|].
      unfold awaiting in Haw.
      destruct (c_pc cl) as [|stc|] eqn:Hcpc; try discriminate Haw.
      assert (Hsend : exists stw, send_status (w_pc wk) = Some stw /\
                offered (w_pc wk) =
                  Some {| Err := Some e0; Resp := zeroResponse |}).
      { destruct (w_pc wk); simpl in *; try discriminate;
          injection He0 as ->; eauto. }
      destruct Hsend as (stw & Hst & Hoff).
      destruct (deliver_resolves s w c wk cl stw stc _
                  Hcan Hw Hi Hst Hoff Hcl Hcpc)
        as (evs & s1 & _ & Hr1 & Hcan1 & Hc1 & Hw1).
      { destruct stw; [by left|right]. destruct stc; [done|].
        specialize (Hpk Hst). unfold parked_await in Hpk.
        by rewrite Hcpc in Hpk. }
      assert (after_send wk = teardown wk) as Hts
        by (unfold after_send; destruct (w_pc wk); simpl in *; congruence).
      rewrite Hts in Hw1.
      unfold worker_ok in Hok.
      replace (holds_process (w_pc wk)) with true in Hok
        by (destruct (w_pc wk); simpl in *; congruence).
      destruct Hok as (Hcmd & _).
      destruct (restart_after_teardown s1 w (teardown wk) (w_gen wk)
                  Hw1 eq_refl Hcmd)
        as (s2 & wk2 & Hr2 & Hcs2 & Hcan2 & Hw2 & Hp & Hg & Hc2 & Hco & _).
      exists (evs ++ [EvWait w None; EvAfter w; EvBackoffElapsed w;
                      EvSpawn w SpawnOk]), s2,
        (with_cpc cl (on_reply {| Err := Some e0; Resp := zeroResponse |})),
        wk2.
      rewrite run_app, Hr1. split; [exact Hr2|].
      split; [congruence|]. rewrite Hcs2. split; [exact Hc1|].
      split; [reflexivity|]. repeat split; assumption.
    + unfold worker_ok in Hok.
      replace (holds_process (w_pc wk)) with true in Hok
        by (destruct (w_pc wk); simpl in *; congruence).
      destruct Hok as (Hcmd & _). by simpl.
    + intros evs s1 Hr1 Hw1.
      pose proof (reachable_inv _ (reachable_run _ _ _ Hreach Hr1)) as Hinv1.
      apply (wait_ends_by_Wait_only s1 w (teardown wk) Hinv1 Hw1 eq_refl).
    + intros Hcan.
      unfold worker_ok in Hok.
      replace (holds_process (w_pc wk)) with true in Hok
        by (destruct (w_pc wk); simpl in *; congruence).
      destruct Hok as (Hcmd & _).
      do 2 eexists. split.
      { cbn [run step]. unfold on_worker. rewrite Hw, Hcan.
        assert (Hpc : exists st, w_pc wk = WSendEncErr st e0 \/
                                 w_pc wk = WSendDecErr st e0).
        { destruct (w_pc wk); simpl in *; try discriminate;
            injection He0 as ->; eauto. }
        destruct Hpc as (st & [Hpc|Hpc]); rewrite Hpc.
        all: repeat (unfold set_worker, exit_worker, teardown, with_pc; cbn;
                     rewrite ?list_insert_insert_eq, ?Hcmd, ?Hcan;
                     rewrite ?list_lookup_insert_eq by done).
        all: reflexivity. }
      cbn. rewrite list_lookup_insert_eq by done.
      repeat split; reflexivity.
Qed.

(** The failed decode of the counterexample, before the pool is
    cancelled: the error can be delivered and the loop restarted. *)
Lemma protocol_error_discards_process_witness :
  exists evs s' cl',
    run evs s_decode_failed = Some s' /\
    callers s' !! 0%nat = Some cl' /\
    c_pc cl' =
      DReturned zeroResponse
        (Some (ErrWrap "request failed"
                 (ErrWrap "decoding worker process response"
                    (ErrIO "EOF")))).
Proof.
  assert (Hreach : reachable s_decode_failed).
  { exists cfg_echo. eexists. exists sched_decode_failed.
    split; vm_compute; reflexivity. }
  destruct (protocol_error_discards_process s_decode_failed 0 _ 0
              Hreach eq_refl eq_refl) as (_ & _ & H).
  destruct (H _ eq_refl) as (_ & _ & Hlive & _).
  destruct (Hlive eq_refl) as (evs & s' & cl' & wk' & Hr & _ & Hc & Hpc & _).
  exists evs, s', cl'. repeat split; assumption.
Defined.

(** * Further properties of the code *)

(** ** The configuration of a running pool *)

Lemma run_cfg (evs : list event) (s s' : state) :
  run evs s = Some s' -> cfg s' = cfg s.
Proof.
  revert s. induction evs as [|e evs IH]; simpl; intros s Hr.
  - by injection Hr as <-.
  - destruct (step e s) as [s1|] eqn:Hs; [|discriminate].
    rewrite (IH _ Hr). eauto using step_cfg.
Qed.

Lemma step_workers_length (e : event) (s s' : state) :
  step e s = Some s' -> length (workers s') = length (workers s).
Proof.
  intros H. step_inv H; simpl; rewrite ?length_insert; reflexivity.
Qed.

Lemma run_workers_length (evs : list event) (s s' : state) :
  run evs s = Some s' -> length (workers s') = length (workers s).
Proof.
  revert s. induction evs as [|e evs IH]; simpl; intros s Hr.
  - by injection Hr as <-.
  - destruct (step e s) as [s1|] eqn:Hs; [|discriminate].
    rewrite (IH _ Hr). eauto using step_workers_length.
Qed.

Lemma filter_length_le {A} (f : A -> bool) (l : list A) :
  (length (List.filter f l) <= length l)%nat.
Proof. induction l as [|a l IH]; simpl; [lia|]. destruct (f a); simpl; lia. Qed.

(** What [NewWorkerPool] leaves in the pool's configuration. *)
Lemma pool_cfg (c : PoolConfig) (s0 : state) :
  cr_pool (NewWorkerPool c) = Some s0 ->
  NumWorkers (cfg s0) = NumWorkers c /\ WorkerProc (cfg s0) = WorkerProc c /\
  WorkerRequestTimeout (cfg s0) = WorkerRequestTimeout c /\
  cfg_Logger (cfg s0) =
    Some (match cfg_Logger c with Some l => l | None => log15_New end) /\
  0 <= NumWorkers c /\ WorkerProc c <> [] /\
  length (workers s0) = Z.to_nat (NumWorkers c).
Proof.
  intros H.
  destruct (NewWorkerPool_cases c) as [[_ Hc]|[(_ & _ & Hc)|(Hn & Hp & Hc)]];
    rewrite Hc in H; simpl in H; try discriminate.
  injection H as <-. simpl. rewrite length_replicate.
  destruct (cfg_Logger c) eqn:Hl; simpl; rewrite ?Hl; repeat split; done.
Qed.

(** X1.  In every reachable state the configuration the worker loops read
    is the one [NewWorkerPool] validated: the logger is not nil, and
    building the command at lines 115-119 never indexes out of range;
    on both branches of the test on the length the argument vector of
    the command is [WorkerProc] itself, executable first. *)
Theorem worker_command_is_WorkerProc (s : state) :
  reachable s ->
  worker_command (cfg s) = Some (WorkerProc (cfg s)) /\
  WorkerProc (cfg s) <> [] /\ 0 <= NumWorkers (cfg s) /\
  is_Some (cfg_Logger (cfg s)).
Proof.
  intros (c & s0 & evs & Hc & Hr).
  destruct (pool_cfg c s0 Hc) as (Hn & Hp & _ & Hl & Hn0 & Hp0 & _).
  rewrite (run_cfg _ _ _ Hr), Hn, Hp, Hl.
  split; [|split; [done|split; [done|eauto]]].
  unfold worker_command. rewrite Hp.
  destruct (WorkerProc c) as [|name [|a args]]; [done| |]; simpl.
  - reflexivity.
  - replace (1 <? Z.of_nat (S (S (length args)))) with true
      by (symmetry; apply Z.ltb_lt; lia).
    reflexivity.
Qed.

Lemma worker_command_is_WorkerProc_witness :
  worker_command (cfg s_idle) =
    Some ["janet"%string; "worker.janet"%string].
Proof.
  assert (Hreach : reachable s_idle).
  { exists cfg_two. eexists. exists sched_idle.
    split; vm_compute; reflexivity. }
  exact (proj1 (worker_command_is_WorkerProc s_idle Hreach)).
Defined.

(** ** The errors of NewWorkerPool *)

(** X2.  Which error [NewWorkerPool] returns: the one about the number
    of workers exactly when [NumWorkers] is negative, also when
    [WorkerProc] is empty as well since that test comes first; the one
    about the worker command exactly when [NumWorkers] is not negative
    and [WorkerProc] is empty.  On success the pool keeps the
    configuration it was given, the logger replaced by the default one
    only if it was nil. *)
Theorem NewWorkerPool_errors (c : PoolConfig) :
  (cr_err (NewWorkerPool c) = Some (ErrNew "pool needs at least one worker")
     <-> NumWorkers c < 0) /\
  (cr_err (NewWorkerPool c) =
     Some (ErrNew "pool worker proc must not be empty")
     <-> 0 <= NumWorkers c /\ WorkerProc c = []) /\
  (forall s0, cr_pool (NewWorkerPool c) = Some s0 ->
     NumWorkers (cfg s0) = NumWorkers c /\
     WorkerProc (cfg s0) = WorkerProc c /\
     WorkerRequestTimeout (cfg s0) = WorkerRequestTimeout c /\
     cfg_Logger (cfg s0) =
       Some (match cfg_Logger c with Some l => l | None => log15_New end) /\
     callers s0 = [] /\ closers s0 = []).
Proof.
  split; [|split].
  - destruct (NewWorkerPool_cases c) as [[? H]|[(? & ? & H)|(? & ? & H)]];
      rewrite H; simpl; split; try done; try lia; discriminate.
  - destruct (NewWorkerPool_cases c) as [[? H]|[(? & ? & H)|(? & ? & H)]];
      rewrite H; simpl; split; try done; try (intros [? ?]; lia);
      try discriminate; intros [_ ?]; done.
  - intros s0 Hs0.
    destruct (pool_cfg c s0 Hs0) as (H1 & H2 & H3 & H4 & _).
    repeat split; try done;
      destruct (NewWorkerPool_cases c) as [[? H]|[(? & ? & H)|(? & ? & H)]];
      rewrite H in Hs0; simpl in Hs0; try discriminate;
      by injection Hs0 as <-.
Qed.

Lemma NewWorkerPool_errors_witness :
  cfg_Logger (cfg s_fresh) = Some (UserLogger 7) /\ callers s_fresh = [].
Proof.
  destruct (NewWorkerPool_errors cfg_two) as (_ & _ & H).
  destruct (H s_fresh eq_refl) as (_ & _ & _ & Hl & Hc & _).
  split; assumption.
Defined.

(** ** The size of the pool *)

(** X3.  The pool never grows or shrinks: in every reachable state there
    are exactly [NumWorkers] worker loops, the ones [NewWorkerPool]
    started, so at most [NumWorkers] worker processes are running at any
    time, and the wait group counter never exceeds [NumWorkers]. *)
Theorem pool_size_is_NumWorkers (s : state) :
  reachable s ->
  length (workers s) = Z.to_nat (NumWorkers (cfg s)) /\
  (running_count (workers s) <= Z.to_nat (NumWorkers (cfg s)))%nat /\
  (wg s <= Z.to_nat (NumWorkers (cfg s)))%nat.
Proof.
  intros Hreach. pose proof (reachable_inv _ Hreach) as Hinv.
  destruct Hreach as (c & s0 & evs & Hc & Hr).
  destruct (pool_cfg c s0 Hc) as (Hn & _ & _ & _ & _ & _ & Hlen).
  assert (Hl : length (workers s) = Z.to_nat (NumWorkers (cfg s))).
  { rewrite (run_workers_length _ _ _ Hr), (run_cfg _ _ _ Hr), Hn. done. }
  split; [done|]. rewrite <- Hl. split.
  - apply filter_length_le.
  - rewrite (inv_wg _ Hinv). apply filter_length_le.
Qed.

Lemma pool_size_is_NumWorkers_witness :
  length (workers s_timed_out) = 2%nat /\
  (running_count (workers s_timed_out) <= 2)%nat.
Proof.
  assert (Hreach : reachable s_timed_out).
  { exists cfg_two. eexists. exists sched_timed_out.
    split; vm_compute; reflexivity. }
  destruct (pool_size_is_NumWorkers s_timed_out Hreach) as (H1 & H2 & _).
  split; [exact H1|exact H2].
Defined.

(** ** The wait group *)

(** X4.  The wait group counter is the number of worker loops that have
    not returned.  A step leaves it alone or takes one off it; the latter
    only when a loop returns from its backoff select on cancellation, and
    then the counter was positive, so [wg.Done] never drives it below
    zero.  A loop that has returned takes no further step, so [wg.Done]
    runs once per loop. *)
Theorem wait_group_counts_live_loops (s : state) :
  reachable s ->
  wg s = alive_count (workers s) /\
  (forall e s', step e s = Some s' ->
     wg s' = wg s \/
     (wg s = S (wg s') /\ cancelled s = true /\
      exists w wk st,
        e = EvWorkerDone w /\ workers s !! w = Some wk /\
        w_pc wk = WBackoff st /\
        workers s' !! w = Some (with_pc wk WExited))) /\
  (forall w wk e, workers s !! w = Some wk -> w_pc wk = WExited ->
     worker_of e = Some w -> step e s = None).
Proof.
  intros Hreach. pose proof (reachable_inv _ Hreach) as Hinv.
  split; [apply (inv_wg _ Hinv)|]. split.
  - intros e s' Hs.
    pose proof (inv_wg _ (inv_step _ _ _ Hs Hinv)) as Hwg'.
    pose proof (inv_wg _ Hinv) as Hwg.
    step_inv Hs; simpl in *; auto.
    right.
    pose proof (alive_count_insert (workers s) w w0 (with_pc w0 WExited) E)
      as Hc.
    replace (alive w0) with true in Hc by (unfold alive; by rewrite E1).
    replace (alive (with_pc w0 WExited)) with false in Hc by reflexivity.
    split; [lia|]. split; [done|].
    exists w, w0, st. repeat split; try done.
    apply list_lookup_insert_eq. by eapply lookup_lt_Some.
  - intros w wk e Hw Hpc He.
    pose proof (Forall_lookup_1 _ _ _ _ (inv_workers _ Hinv) Hw) as Hok.
    unfold worker_ok in Hok. rewrite Hpc in Hok. simpl in Hok.
    destruct Hok as (_ & _ & _ & Hg & _).
    destruct e; simpl in He; try discriminate; injection He as ->;
      cbn [step]; unfold on_worker, on_caller;
      repeat case_match; try reflexivity; simplify_eq;
      simpl in *; try congruence.
    rewrite Hpc in *. discriminate.
Qed.

Lemma wait_group_counts_live_loops_witness :
  wg s_closed = alive_count (workers s_closed).
Proof.
  assert (Hreach : reachable s_closed).
  { exists cfg_echo. eexists. exists sched_closed.
    split; vm_compute; reflexivity. }
  exact (proj1 (wait_group_counts_live_loops s_closed Hreach)).
Defined.

(** ** The loop variables *)

Lemma step_loop_vars (e : event) (s s' : state) :
  step e s = Some s' ->
  Forall (worker_ok (WorkerRequestTimeout (cfg s))) (workers s) ->
  Forall loop_vars_ok (workers s) -> Forall loop_vars_ok (workers s').
Proof.
  intros H Hok Hlv. step_inv H; simpl; try assumption.
  all: apply Forall_insert; [assumption|].
  all: match goal with
       | E : workers _ !! _ = Some ?w |- _ =>
           pose proof (Forall_lookup_1 _ _ _ _ Hok E) as Hw;
           pose proof (Forall_lookup_1 _ _ _ _ Hlv E) as Hl
       end.
  all: unfold worker_ok, loop_vars_ok, after_send in *; simpl.
  all: try match goal with |- context [spawn _ ?o] => destruct o end.
  all: destruct (w_pc w0) eqn:Hpc; try discriminate; simpl in *.
  all: try done.
  all: try (intros pid; destruct Hw as (Hc & _); congruence).
  all: try (intros pid; destruct Hl as (Hc & _); congruence).
Qed.

Lemma run_loop_vars (evs : list event) (s s' : state) :
  run evs s = Some s' -> inv s ->
  Forall loop_vars_ok (workers s) -> Forall loop_vars_ok (workers s').
Proof.
  revert s. induction evs as [|e evs IH]; simpl; intros s Hr Hinv Hlv.
  - by injection Hr as <-.
  - destruct (step e s) as [s1|] eqn:Hs; [|discriminate].
    apply (IH s1 Hr); [eauto using inv_step|].
    eapply step_loop_vars; eauto using inv_workers.
Qed.

Lemma reachable_loop_vars (s : state) :
  reachable s -> Forall loop_vars_ok (workers s).
Proof.
  intros (c & s0 & evs & Hc & Hr).
  eapply run_loop_vars; [exact Hr|eauto using inv_init|].
  destruct (NewWorkerPool_cases c) as [[_ H]|[(_ & _ & H)|(_ & _ & H)]];
    rewrite H in Hc; simpl in Hc; try discriminate.
  injection Hc as <-. simpl. apply Forall_replicate. by split.
Qed.

(** ** Pipes, codec and process *)



(** ** The request timer and the idle worker *)

(** X6.  An idle worker is out of reach of the request timer.  In every
    reachable state a loop at the select on the dispatch channel has its
    process running, both pipes open and no work item, and its request
    timer is either not created yet or stopped: neither the expiry of
    the timer nor its function can happen, so the pipes of an idle
    worker are never closed under it. *)
Theorem idle_worker_has_no_armed_timer
    (s : state) (w : nat) (wk : worker) (st : sel) :
  reachable s -> workers s !! w = Some wk -> w_pc wk = WReady st ->
  w_cmd wk = CmdRunning (w_gen wk) /\ w_item wk = None /\
  p2 (w_pipes wk) = true /\ p3 (w_pipes wk) = true /\
  (w_guard wk = GNone \/ w_guard wk = GStopped) /\
  step (EvGuardFire w) s = None /\ step (EvGuardClose w) s = None.
Proof.
  intros Hreach Hw Hpc. pose proof (reachable_inv _ Hreach) as Hinv.
  pose proof (Forall_lookup_1 _ _ _ _ (inv_workers _ Hinv) Hw) as Hok.
  unfold worker_ok in Hok. rewrite Hpc in Hok. simpl in Hok.
  destruct Hok as (Hc & _ & _ & _ & Hg & Hi & H2 & H3).
  repeat split; try done.
  - cbn [step]. unfold on_worker. rewrite Hw. by destruct Hg as [-> | ->].
  - cbn [step]. unfold on_worker. rewrite Hw. by destruct Hg as [-> | ->].
Qed.

Lemma idle_worker_has_no_armed_timer_witness :
  step (EvGuardFire 0) s_idle = None /\ step (EvGuardClose 0) s_idle = None.
Proof.
  assert (Hreach : reachable s_idle).
  { exists cfg_two. eexists. exists sched_idle.
    split; vm_compute; reflexivity. }
  destruct (idle_worker_has_no_armed_timer s_idle 0 _ Parked
              Hreach eq_refl eq_refl) as (_ & _ & _ & _ & _ & H1 & H2).
  split; assumption.
Defined.

(** ** An expired request timer *)

Lemma step_vigour (e : event) (s s' : state) (w : nat) (wk : worker) :
  step e s = Some s' -> workers s !! w = Some wk ->
  exists wk', workers s' !! w = Some wk' /\ (vigour wk <= vigour wk')%nat.
Proof.
  intros H Hw.
  assert (Hwlen : (w < length (workers s))%nat) by by eapply lookup_lt_Some.
  assert (Hsame : forall ws, ws = workers s ->
            exists wk', ws !! w = Some wk' /\ (vigour wk <= vigour wk')%nat)
    by (intros ws ->; eauto).
  step_inv H; simpl; try (by apply Hsame).
  all: match goal with
       | |- exists _, <[?w0:=_]> _ !! _ = Some _ /\ _ =>
           destruct (decide (w0 = w)) as [->|Hne];
           [|rewrite list_lookup_insert_ne by done; eauto]
       end.
  all: match goal with
       | E : workers _ !! _ = Some ?w0 |- _ =>
           assert (w0 = wk) as -> by congruence
       end.
  all: rewrite list_lookup_insert_eq by done; eexists; split; [reflexivity|].
  all: unfold vigour, usable, after_send; simpl.
  all: try match goal with |- context [spawn _ ?o] => destruct o end.
  all: destruct (w_pc wk); simpl in *; try discriminate;
       destruct (w_guard wk); simpl in *; try discriminate; lia.
Qed.

Lemma run_vigour (evs : list event) (s s' : state) (w : nat) (wk : worker) :
  run evs s = Some s' -> workers s !! w = Some wk ->
  exists wk', workers s' !! w = Some wk' /\ (vigour wk <= vigour wk')%nat.
Proof.
  revert s wk. induction evs as [|e evs IH]; simpl; intros s wk Hr Hw.
  - injection Hr as <-. eauto.
  - destruct (step e s) as [s1|] eqn:Hs; [|discriminate].
    destruct (step_vigour _ _ _ _ _ Hs Hw) as (wk1 & Hw1 & Hle).
    destruct (IH _ _ Hr Hw1) as (wk' & Hw' & Hle').
    exists wk'. split; [done|lia].
Qed.

(** X7.  An expired request timer costs the worker its process, whatever
    the I/O calls return afterwards.  If the request timer of a loop has
    expired during an exchange, then on no schedule is that loop idle or
    in an exchange with a live timer again on the same process: whenever
    it is, the process is one started later.  In particular a response
    decoded successfully after the expiry is delivered, and the process
    is replaced all the same. *)
Theorem expired_timer_forces_new_process
    (s : state) (w : nat) (wk : worker) :
  workers s !! w = Some wk ->
  guard_expired (w_guard wk) = true ->
  busy (w_pc wk) = true \/ w_pc wk = WStopTimer ->
  forall evs s' wk',
    run evs s = Some s' -> workers s' !! w = Some wk' ->
    usable wk' = true -> (w_gen wk < w_gen wk')%nat.
Proof.
  intros Hw Hg Hpc evs s' wk' Hr Hw' Hu.
  destruct (run_vigour _ _ _ _ _ Hr Hw) as (wk1 & Hw1 & Hle).
  assert (wk1 = wk') as -> by congruence.
  unfold vigour in Hle. rewrite Hu in Hle.
  replace (usable wk) with false in Hle; [lia|].
  unfold usable.
  destruct Hpc as [Hb| ->];
    [destruct (w_pc wk); try discriminate Hb|];
    destruct (w_guard wk); simpl in *; congruence.
Qed.

(** The response is decoded after the timer has expired, and delivered;
    the loop then replaces the process. *)
Lemma expired_timer_forces_new_process_witness :
  exists wk',
    workers s_recycled !! 0%nat = Some wk' /\ (1 < w_gen wk')%nat.
Proof.
  eexists. split; [reflexivity|].
  exact (expired_timer_forces_new_process s_timed_out 0 _ eq_refl eq_refl
           (or_introl eq_refl) sched_recycle s_recycled _
           eq_refl eq_refl eq_refl).
Defined.

(** ** A call served by an idle worker *)

Lemma lookup_new {A} (l : list A) (x : A) : (l ++ [x]) !! length l = Some x.
Proof. by apply list_lookup_middle. Qed.

Lemma insert_new {A} (l : list A) (x y : A) :
  <[length l:=y]> (l ++ [x]) = l ++ [y].
Proof.
  rewrite insert_app_r_alt by lia. by rewrite Nat.sub_diag.
Qed.

(** X8.  The round trip of a call through an idle worker.  In a pool that
    is not cancelled, with a loop parked at the select on the dispatch
    channel, a new call can be handed to that loop at once; if the
    write succeeds and the process answers, [Dispatch] returns exactly
    the response that was decoded, with a nil error, for whatever
    request and response; no other call and no other loop is touched;
    and since the request timer was stopped in time the loop is back at
    the select with the same process, pipes and codec, ready for the next
    call. *)
Theorem idle_worker_serves_a_call
    (s : state) (w : nat) (wk : worker)
    (req : JanetRequest) (timeout : Z) (resp : JanetResponse) :
  reachable s -> cancelled s = false ->
  workers s !! w = Some wk -> w_pc wk = WReady Parked ->
  exists s',
    run [EvDispatch req timeout; EvHandoff (length (callers s)) w;
         EvEncode w None; EvDecode w (inl resp); EvWorkerPark w;
         EvDeliver w; EvStopTimer w] s = Some s' /\
    callers s' =
      callers s ++
      [{| c_req := req; c_timeout := timeout; c_fired := false;
          c_pc := DReturned resp None |}] /\
    workers s' =
      <[w:={| w_pc := WReady Polling; w_cmd := w_cmd wk; w_gen := w_gen wk;
              w_pipes := w_pipes wk; w_codec := w_codec wk;
              w_item := None; w_guard := GStopped;
              w_after := w_after wk |}]> (workers s) /\
    cancelled s' = false /\ wg s' = wg s /\ closers s' = closers s.
Proof.
  intros Hreach Hcan Hw Hpc. pose proof (reachable_inv _ Hreach) as Hinv.
  assert (Hwlen : (w < length (workers s))%nat) by by eapply lookup_lt_Some.
  pose proof (Forall_lookup_1 _ _ _ _ (inv_workers _ Hinv) Hw) as Hok.
  unfold worker_ok in Hok. rewrite Hpc in Hok. simpl in Hok.
  destruct Hok as (_ & _ & _ & _ & _ & _ & Hp2 & _).
  eexists. split.
  { cbn [run step]. unfold on_caller, on_worker.
    repeat (unfold set_worker, set_caller, with_pc, with_cpc, after_send,
              on_reply;
            cbn;
            rewrite ?list_insert_insert_eq, ?insert_new, ?lookup_new, ?Hcan,
              ?Hw, ?Hpc, ?Hp2;
            rewrite ?list_lookup_insert_eq by done).
    reflexivity. }
  cbn. repeat split; reflexivity.
Qed.

Lemma idle_worker_serves_a_call_witness :
  exists s',
    run [EvDispatch req_hello 5000; EvHandoff 0 0; EvEncode 0 None;
         EvDecode 0 (inl resp_hello); EvWorkerPark 0; EvDeliver 0;
         EvStopTimer 0] s_idle = Some s' /\
    callers s' =
      [{| c_req := req_hello; c_timeout := 5000; c_fired := false;
          c_pc := DReturned resp_hello None |}].
Proof.
  assert (Hreach : reachable s_idle).
  { exists cfg_two. eexists. exists sched_idle.
    split; vm_compute; reflexivity. }
  destruct (idle_worker_serves_a_call s_idle 0 _ req_hello 5000 resp_hello
              Hreach eq_refl eq_refl eq_refl) as (s' & Hr & Hc & _).
  exists s'. split; [exact Hr|exact Hc].
Defined.

(** ** A launch that fails *)

(** X9.  A launch that fails leaves no trace.  When a pipe cannot be
    created or [cmd.Start()] fails, the inner function returns with every
    handle released and no process running, the generation number
    untouched; no call and not the wait group are touched.  After the
    wait (skipped, or failing at once) and the back-off the loop is at
    the top of its body in exactly the state it started from, the whole
    pool being the same as before: retries can go on for ever without
    anything piling up.  This holds whether the back-off timer is seen
    expired on arrival at the select or resumes the parked loop. *)
Theorem failed_launch_leaves_no_trace
    (s : state) (w : nat) (wk : worker) (o : spawn_outcome)
    (x : option error) :
  reachable s -> workers s !! w = Some wk -> w_pc wk = WSpawning ->
  o <> SpawnOk ->
  (exists s1,
     step (EvSpawn w o) s = Some s1 /\
     workers s1 !! w = Some (teardown (spawn wk o)) /\
     running (spawn wk o) = false /\ w_gen (spawn wk o) = w_gen wk /\
     wg s1 = wg s /\ callers s1 = callers s) /\
  run [EvSpawn w o; EvWait w x; EvAfter w; EvBackoffElapsed w] s = Some s /\
  (cancelled s = false ->
   run [EvSpawn w o; EvWait w x; EvWorkerPark w; EvAfter w] s = Some s).
Proof.
  intros Hreach Hw Hpc Ho.
  pose proof (reachable_inv _ Hreach) as Hinv.
  assert (Hwlen : (w < length (workers s))%nat) by by eapply lookup_lt_Some.
  pose proof (Forall_lookup_1 _ _ _ _ (inv_workers _ Hinv) Hw) as Hok.
  pose proof (Forall_lookup_1 _ _ _ _ (reachable_loop_vars _ Hreach) Hw) as Hlv.
  unfold worker_ok, loop_vars_ok in *. rewrite Hpc in *. simpl in *.
  destruct Hok as (Hp & Hc & Hi & Hg & _). destruct Hlv as (Hcmd & Haf).
  assert (Hwk : wk = {| w_pc := WSpawning; w_cmd := CmdNil; w_gen := w_gen wk;
                        w_pipes := no_pipes; w_codec := None; w_item := None;
                        w_guard := GNone; w_after := false |}).
  { destruct wk; simpl in *. congruence. }
  assert (Hs : forall wk' b, wk' = wk -> b = cancelled s ->
            {| cfg := cfg s; cancelled := b; wg := wg s;
               workers := <[w:=wk']> (workers s); callers := callers s;
               closers := closers s |} = s).
  { intros wk' b -> ->. rewrite list_insert_id by done. by destruct s. }
  split; [|split].
  - eexists. cbn [step]. unfold on_worker. rewrite Hw, Hpc.
    split; [reflexivity|]. simpl.
    rewrite list_lookup_insert_eq by done.
    destruct o; try congruence; unfold running; simpl; rewrite ?Hcmd;
      repeat split; reflexivity.
  - cbn [run step]. unfold on_worker. rewrite Hw, Hpc.
    destruct o; try congruence.
    all: repeat (unfold set_worker, spawn, teardown; cbn;
                 rewrite ?list_insert_insert_eq, ?Hcmd;
                 rewrite ?list_lookup_insert_eq by done).
    all: f_equal; apply Hs; [by rewrite Hwk|done].
  - intros Hcan. cbn [run step]. unfold on_worker. rewrite Hw, Hpc.
    destruct o; try congruence.
    all: repeat (unfold set_worker, spawn, teardown; cbn;
                 rewrite ?list_insert_insert_eq, ?Hcmd, ?Hcan;
                 rewrite ?list_lookup_insert_eq by done).
    all: f_equal; apply Hs; [by rewrite Hwk|done].
Qed.

Lemma failed_launch_leaves_no_trace_witness :
  run [EvSpawn 0 SpawnStartFail; EvWait 0 None; EvAfter 0;
       EvBackoffElapsed 0] s_fresh = Some s_fresh.
Proof.
  assert (Hreach : reachable s_fresh).
  { exists cfg_two. eexists. exists [].
    split; vm_compute; reflexivity. }
  assert (Ho : SpawnStartFail <> SpawnOk) by discriminate.
  exact (proj1 (proj2 (failed_launch_leaves_no_trace s_fresh 0 _
                         SpawnStartFail None Hreach eq_refl eq_refl Ho))).
Defined.

(** ** Close comes to an end *)

Lemma drain_step (s : state) (w : nat) (wk : worker) :
  reachable s -> cancelled s = true -> workers s !! w = Some wk ->
  w_pc wk <> WExited ->
  exists e s' wk',
    step e s = Some s' /\
    workers s' = <[w:=wk']> (workers s) /\
    (steps_to_exit (w_pc wk') < steps_to_exit (w_pc wk))%nat /\
    callers s' = callers s /\ closers s' = closers s /\
    cancelled s' = true.
Proof.
  intros Hreach Hcan Hw Hne.
  pose proof (reachable_inv _ Hreach) as Hinv.
  pose proof (Forall_lookup_1 _ _ _ _ (reachable_loop_vars _ Hreach) Hw) as Hlv.
  unfold loop_vars_ok in Hlv.
  destruct (w_pc wk) eqn:Hpc; try congruence.
  - exists (EvSpawn w SpawnPipe12Fail). do 2 eexists.
    cbn [step]. unfold on_worker. rewrite Hw, Hpc.
    split; [reflexivity|]. simpl. repeat split; try done. cbn. lia.
  - exists (EvWorkerDone w). do 2 eexists.
    cbn [step]. unfold on_worker. rewrite Hw, Hcan, Hpc.
    split; [reflexivity|]. simpl. repeat split; try done. cbn. lia.
  - exists (EvEncode w (Some (ErrIO "broken pipe"))). do 2 eexists.
    cbn [step]. unfold on_worker. rewrite Hw, Hpc.
    split; [reflexivity|]. simpl. repeat split; try done. cbn. lia.
  - exists (EvWorkerDone w). do 2 eexists.
    cbn [step]. unfold on_worker. rewrite Hw, Hcan, Hpc.
    split; [reflexivity|]. simpl. repeat split; try done. cbn. lia.
  - exists (EvDecode w (inr (ErrIO "EOF"))). do 2 eexists.
    cbn [step]. unfold on_worker. rewrite Hw, Hpc.
    split; [reflexivity|]. simpl. repeat split; try done. cbn. lia.
  - exists (EvWorkerDone w). do 2 eexists.
    cbn [step]. unfold on_worker. rewrite Hw, Hcan, Hpc.
    split; [reflexivity|]. simpl. repeat split; try done. cbn. lia.
  - exists (EvWorkerDone w). do 2 eexists.
    cbn [step]. unfold on_worker. rewrite Hw, Hcan, Hpc.
    split; [reflexivity|]. simpl. repeat split; try done. cbn. lia.
  - exists (EvStopTimer w).
    destruct (w_guard wk) eqn:Hg.
    all: do 2 eexists; cbn [step]; unfold on_worker; rewrite Hw, Hpc, Hg.
    all: split; [reflexivity|]; simpl; repeat split; try done; cbn; lia.
  - exists (EvWait w None). 
    destruct (w_cmd wk) eqn:Hcmd; [| | |by destruct (Hlv pid)].
    all: do 2 eexists; cbn [step]; unfold on_worker; rewrite Hw, Hpc, Hcmd.
    all: split; [reflexivity|]; simpl; repeat split; try done; cbn; lia.
  - exists (EvWorkerDone w). do 2 eexists.
    cbn [step]. unfold on_worker. rewrite Hw, Hcan, Hpc.
    split; [reflexivity|]. simpl. repeat split; try done. cbn. lia.
Qed.

Lemma drain_worker (n : nat) :
  forall (s : state) (w : nat) (wk : worker),
  reachable s -> cancelled s = true -> workers s !! w = Some wk ->
  (steps_to_exit (w_pc wk) <= n)%nat ->
  exists evs s' wk',
    run evs s = Some s' /\ (length evs <= n)%nat /\
    workers s' = <[w:=wk']> (workers s) /\ w_pc wk' = WExited /\
    callers s' = callers s /\ closers s' = closers s /\
    cancelled s' = true.
Proof.
  induction n as [|n IH]; intros s w wk Hreach Hcan Hw Hn.
  - exists [], s, wk. simpl. rewrite list_insert_id by done.
    repeat split; try done. destruct (w_pc wk); simpl in Hn; done || lia.
  - assert (w_pc wk = WExited \/ w_pc wk <> WExited) as [Hex|Hne]
      by (destruct (w_pc wk); (by left) || (by right)).
    { exists [], s, wk. simpl. rewrite list_insert_id by done.
      repeat split; try done. cbn. lia. }
    destruct (drain_step s w wk Hreach Hcan Hw Hne)
      as (e & s1 & wk1 & Hs & Hws & Hlt & Hcs & Hcl & Hcan1).
    assert (Hw1 : workers s1 !! w = Some wk1).
    { rewrite Hws. apply list_lookup_insert_eq. by eapply lookup_lt_Some. }
    destruct (IH s1 w wk1 (reachable_step _ _ _ Hreach Hs) Hcan1 Hw1
                ltac:(lia))
      as (evs & s' & wk' & Hr & Hlen & Hws' & Hpc' & Hcs' & Hcl' & Hcan').
    exists (e :: evs), s', wk'. cbn [run]. rewrite Hs.
    split; [done|]. split; [simpl; lia|].
    rewrite Hws', Hws, list_insert_insert_eq.
    repeat split; congruence.
Qed.

Lemma steps_to_exit_le (pc : wpc) : (steps_to_exit pc <= 4)%nat.
Proof. destruct pc; simpl; lia. Qed.

Lemma drain_all (k : nat) :
  forall s : state,
  reachable s -> cancelled s = true -> (k <= length (workers s))%nat ->
  exists evs s',
    run evs s = Some s' /\ (length evs <= 4 * k)%nat /\
    (forall i wk, (i < k)%nat -> workers s' !! i = Some wk ->
       w_pc wk = WExited) /\
    (forall i, (k <= i)%nat -> workers s' !! i = workers s !! i) /\
    callers s' = callers s /\ closers s' = closers s /\
    cancelled s' = true.
Proof.
  induction k as [|k IH]; intros s Hreach Hcan Hk.
  - exists [], s. simpl. repeat split; try done. intros; lia.
  - destruct (IH s Hreach Hcan ltac:(lia))
      as (evs1 & s1 & Hr1 & Hl1 & Hlow & Hhigh & Hcs & Hcl & Hcan1).
    destruct (lookup_lt_is_Some_2 (workers s) k ltac:(lia)) as [wk Hw].
    assert (Hw1 : workers s1 !! k = Some wk) by (by rewrite Hhigh).
    destruct (drain_worker 4 s1 k wk (reachable_run _ _ _ Hreach Hr1) Hcan1 Hw1
                (steps_to_exit_le _))
      as (evs2 & s2 & wk' & Hr2 & Hl2 & Hws & Hpc & Hcs2 & Hcl2 & Hcan2).
    exists (evs1 ++ evs2), s2. rewrite run_app, Hr1.
    split; [done|]. split; [rewrite length_app; lia|].
    split; [|split; [|repeat split; congruence]].
    + intros i wk0 Hi. rewrite Hws.
      destruct (decide (i = k)) as [->|Hne].
      * rewrite list_lookup_insert_eq by (by eapply lookup_lt_Some).
        congruence.
      * rewrite list_lookup_insert_ne by done. apply Hlow. lia.
    + intros i Hi. rewrite Hws, list_lookup_insert_ne by lia.
      apply Hhigh. lia.
Qed.

(** X10.  Close can always return.  From every reachable state, with
    whatever calls and exchanges under way, a call to Close can be
    followed to its return: after the cancellation each worker loop
    needs at most four steps of its own to return (the pending write or
    read on the pipes coming back with an error, the cancellation case
    of the select it is at, the wait for the process, the cancellation
    case of the back-off select), no call has to make a move, and when
    the last loop is gone the wait group is at zero, [wg.Wait()]
    returns, and every loop has returned with its process reaped and its
    handles closed. *)
Theorem Close_can_always_return (s : state) :
  reachable s ->
  exists evs s',
    run (EvClose :: evs ++ [EvCloseReturn (length (closers s))]) s
      = Some s' /\
    (length evs <= 4 * length (workers s))%nat /\
    closers s' = closers s ++ [CReturned] /\
    cancelled s' = true /\ wg s' = 0%nat /\
    Forall fully_exited (workers s') /\
    callers s' = callers s.
Proof.
  intros Hreach.
  set (s1 := {| cfg := cfg s; cancelled := true; wg := wg s;
                workers := workers s; callers := callers s;
                closers := closers s ++ [CWaiting] |}).
  assert (Hs1 : step EvClose s = Some s1) by reflexivity.
  pose proof (reachable_step _ _ _ Hreach Hs1) as Hreach1.
  destruct (drain_all (length (workers s1)) s1 Hreach1 eq_refl ltac:(lia))
    as (evs & s2 & Hr & Hlen & Hlow & _ & Hcs & Hcl & Hcan).
  pose proof (reachable_run _ _ _ Hreach1 Hr) as Hreach2.
  pose proof (reachable_inv _ Hreach2) as Hinv2.
  assert (Hwg : wg s2 = 0%nat).
  { rewrite (inv_wg _ Hinv2). unfold alive_count.
    pose proof (run_workers_length _ _ _ Hr) as Hlen2.
    assert (Hall : Forall (fun w => alive w = false) (workers s2)).
    { apply Forall_lookup_2. intros i wk Hi.
      unfold alive. rewrite (Hlow i wk); [done| |done].
      rewrite <- Hlen2. by eapply lookup_lt_Some. }
    clear -Hall. induction Hall as [|a l Ha _ IH]; simpl; [done|].
    by rewrite Ha. }
  exists evs. eexists. cbn [run]. rewrite Hs1, run_app, Hr. cbn [run step].
  rewrite Hcl. simpl closers. rewrite lookup_new, Hwg.
  split; [reflexivity|]. simpl.
  rewrite ?Hcl. simpl. rewrite insert_new.
  repeat split; try done.
  by apply exited_all.
Qed.

Lemma Close_can_always_return_witness :
  exists evs s',
    run (EvClose :: evs ++ [EvCloseReturn 0]) s_timed_out = Some s' /\
    closers s' = [CReturned] /\ Forall fully_exited (workers s').
Proof.
  assert (Hreach : reachable s_timed_out).
  { exists cfg_two. eexists. exists sched_timed_out.
    split; vm_compute; reflexivity. }
  destruct (Close_can_always_return s_timed_out Hreach)
    as (evs & s' & Hr & _ & Hc & _ & _ & Hex & _).
  exists evs, s'. split; [exact Hr|]. split; [exact Hc|exact Hex].
Defined.

(** ** What Dispatch returns *)

Lemma step_worker_errors (e : event) (s s' : state) :
  step e s = Some s' ->
  Forall worker_errors_ok (workers s) -> Forall worker_errors_ok (workers s').
Proof.
  intros H Hok. step_inv H; simpl; try assumption.
  all: apply Forall_insert; [assumption|].
  all: match goal with
       | E : workers _ !! _ = Some ?w |- _ =>
           pose proof (Forall_lookup_1 _ _ _ _ Hok E) as Hw
       end.
  all: unfold worker_errors_ok, after_send in *; simpl.
  all: try match goal with |- context [spawn _ ?o] => destruct o end.
  all: destruct (w_pc w0) eqn:Hpc; try discriminate; simpl in *.
  all: try done.
  all: eauto.
  all: simplify_eq; assumption.
Qed.

Lemma caller_errors_mono (b : bool) (c : caller) :
  caller_errors_ok b c -> caller_errors_ok true c.
Proof.
  unfold caller_errors_ok, dispatch_error.
  destruct (c_pc c) as [| |r [e|]]; try done.
  intros (Hr & [H|[[H _]|H]]); split; auto.
Qed.

Lemma step_caller_errors (e : event) (s s' : state) :
  step e s = Some s' ->
  Forall worker_errors_ok (workers s) ->
  Forall (caller_errors_ok (cancelled s)) (callers s) ->
  Forall (caller_errors_ok (cancelled s')) (callers s').
Proof.
  intros H Hwok Hok. step_inv' H; try assumption.
  all: try (apply Forall_app; split; [assumption|]; repeat constructor).
  all: try (eapply Forall_impl; [exact Hok|]; intros c0;
            apply caller_errors_mono).
  all: try (rewrite <- ?E0, <- ?E1, <- ?E2, <- ?E3; assumption).
  all: try apply Forall_insert; try assumption.
  all: repeat match goal with
       | E : callers _ !! _ = Some ?c |- _ =>
           pose proof (Forall_lookup_1 _ _ _ _ Hok E); clear E
       | E : workers _ !! _ = Some ?w |- _ =>
           pose proof (Forall_lookup_1 _ _ _ _ Hwok E); clear E
       end.
  all: unfold caller_errors_ok, worker_errors_ok, dispatch_error, on_reply,
         fire, with_cpc in *; simpl in *.
  all: try done.
  all: try (split; [done|]; auto; fail).
  all: try match goal with
       | E : cancelled _ = _ |- _ => rewrite E in *
       end.
  all: try done.
  all: try (split; [done|]; auto; fail).
  destruct (w_pc w0); try discriminate; simpl in *; simplify_eq; simpl;
    try done.
  - destruct H0 as [io ->]. split; [done|]. right. right. left. by exists io.
  - destruct H0 as [io ->]. split; [done|]. right. right. right. by exists io.
Qed.

Lemma run_errors (evs : list event) (s s' : state) :
  run evs s = Some s' ->
  Forall worker_errors_ok (workers s) ->
  Forall (caller_errors_ok (cancelled s)) (callers s) ->
  Forall worker_errors_ok (workers s') /\
  Forall (caller_errors_ok (cancelled s')) (callers s').
Proof.
  revert s. induction evs as [|e evs IH]; simpl; intros s Hr Hw Hc.
  - by injection Hr as <-.
  - destruct (step e s) as [s1|] eqn:Hs; [|discriminate].
    apply (IH s1 Hr); eauto using step_worker_errors, step_caller_errors.
Qed.

(** X11.  The errors of Dispatch.  In every reachable state a call that
    has returned an error has returned the zero response with it, and
    the error is one of four: PoolBusy, and then the handoff timer of
    that call had expired; PoolClosed, and then the pool is cancelled;
    or [request failed] wrapping the failed write to, or the failed read
    from, the worker process.  Nothing else ever comes out of
    Dispatch. *)
Theorem Dispatch_error_forms
    (s : state) (c : nat) (cl : caller) (r : JanetResponse) (e : error) :
  reachable s -> callers s !! c = Some cl ->
  c_pc cl = DReturned r (Some e) ->
  r = zeroResponse /\
  ((e = ErrWorkerPoolBusy /\ c_fired cl = true) \/
   (e = ErrWorkerPoolClosed /\ cancelled s = true) \/
   (exists io, e = ErrWrap "request failed"
                     (ErrWrap "error writing to worker process" io)) \/
   (exists io, e = ErrWrap "request failed"
                     (ErrWrap "decoding worker process response" io))).
Proof.
  intros (c0 & s0 & evs & Hc0 & Hr) Hc Hpc.
  destruct (run_errors evs s0 s Hr) as [_ Hok].
  - destruct (NewWorkerPool_cases c0) as [[_ H]|[(_ & _ & H)|(_ & _ & H)]];
      rewrite H in Hc0; simpl in Hc0; try discriminate.
    injection Hc0 as <-. simpl. by apply Forall_replicate.
  - destruct (NewWorkerPool_cases c0) as [[_ H]|[(_ & _ & H)|(_ & _ & H)]];
      rewrite H in Hc0; simpl in Hc0; try discriminate.
    injection Hc0 as <-. simpl. constructor.
  - pose proof (Forall_lookup_1 _ _ _ _ Hok Hc) as H.
    unfold caller_errors_ok in H. by rewrite Hpc in H.
Qed.

Lemma Dispatch_error_forms_witness :
  exists cl,
    callers s_decode_failed_cancelled !! 0%nat = Some cl /\
    dispatch_error (cancelled s_decode_failed_cancelled) (c_fired cl)
      ErrWorkerPoolClosed.
Proof.
  assert (Hreach : reachable s_decode_failed_cancelled).
  { exists cfg_echo. eexists. exists (sched_decode_failed ++ sched_then_cancelled).
    split; vm_compute; reflexivity. }
  eexists. split; [reflexivity|].
  exact (proj2 (Dispatch_error_forms s_decode_failed_cancelled 0 _ _ _
                  Hreach eq_refl eq_refl)).
Defined.

(** ** Calls in flight *)

Lemma filter_length_insert {A} (f : A -> bool) (l : list A) (i : nat)
    (x y : A) :
  l !! i = Some x ->
  (length (List.filter f (<[i:=y]> l)) + (if f x then 1 else 0) =
   length (List.filter f l) + (if f y then 1 else 0))%nat.
Proof.
  revert i. induction l as [|a l IH]; intros [|i] H; simpl in *;
    try discriminate.
  - injection H as ->. destruct (f x), (f y); simpl; lia.
  - specialize (IH i H). destruct (f a); simpl; lia.
Qed.

Lemma filter_length_snoc {A} (f : A -> bool) (l : list A) (x : A) :
  length (List.filter f (l ++ [x])) =
  (length (List.filter f l) + (if f x then 1 else 0))%nat.
Proof.
  rewrite List.filter_app, length_app. simpl. by destruct (f x).
Qed.

Lemma step_in_flight (e : event) (s s' : state) :
  step e s = Some s' -> cancelled s' = false ->
  in_flight (callers s) = busy_count (workers s) ->
  in_flight (callers s') = busy_count (workers s').
Proof.
  unfold in_flight, busy_count.
  intros H Hcan Heq. step_inv H; simpl in *; try assumption; try discriminate.
  all: rewrite ?filter_length_snoc; simpl; try lia.
  all: repeat match goal with
       | E : callers ?s !! ?i = Some ?x
         |- context [List.filter awaiting (<[?i:=?y]> (callers ?s))] =>
           let Hc := fresh "Hc" in
           pose proof (filter_length_insert awaiting _ _ _ y E) as Hc;
           revert Hc;
           generalize (length (List.filter awaiting (<[i:=y]> (callers s))));
           intros ? ?
       | E : workers ?s !! ?i = Some ?x
         |- context [List.filter ?f (<[?i:=?y]> (workers ?s))] =>
           let Hc := fresh "Hc" in
           pose proof (filter_length_insert f _ _ _ y E) as Hc;
           revert Hc;
           generalize (length (List.filter f (<[i:=y]> (workers s))));
           intros ? ?
       end.
  all: unfold awaiting, after_send in *; simpl in *.
  all: repeat match goal with
       | E : c_pc _ = _ |- _ => rewrite E in *
       | E : w_pc _ = _ |- _ => rewrite E in *
       end; simpl in *.
  all: try lia.
  all: try congruence.
  - unfold on_reply in *. destruct (w_pc w0); try discriminate;
      simpl in *; destruct (Err w1); simpl in *; lia.
  - destruct o; simpl in *; lia.
Qed.

Lemma run_not_cancelled (evs : list event) (s s' : state) :
  run evs s = Some s' -> cancelled s' = false -> cancelled s = false.
Proof.
  revert s. induction evs as [|e evs IH]; simpl; intros s Hr Hc.
  - by injection Hr as <-.
  - destruct (step e s) as [s1|] eqn:Hs; [|discriminate].
    specialize (IH s1 Hr Hc).
    destruct (cancelled s) eqn:Hcs; [|done].
    rewrite (step_cancelled_mono _ _ _ Hs Hcs) in IH. done.
Qed.

Lemma run_in_flight (evs : list event) (s s' : state) :
  run evs s = Some s' -> cancelled s' = false ->
  in_flight (callers s) = busy_count (workers s) ->
  in_flight (callers s') = busy_count (workers s').
Proof.
  revert s. induction evs as [|e evs IH]; simpl; intros s Hr Hc Heq.
  - by injection Hr as <-.
  - destruct (step e s) as [s1|] eqn:Hs; [|discriminate].
    apply (IH s1 Hr Hc). eapply step_in_flight; eauto.
    eapply run_not_cancelled; eauto.
Qed.

(** X12.  The pool never serves more calls than it has workers.  As long
    as the pool is not cancelled, the calls that a worker has accepted
    and that wait for their answer are exactly as many as the worker
    loops in an exchange, so at most [NumWorkers] calls are in flight at
    any time; a further call has to wait in its first select for a loop
    to come back to the dispatch channel. *)
Theorem in_flight_calls_bounded (s : state) :
  reachable s -> cancelled s = false ->
  in_flight (callers s) = busy_count (workers s) /\
  (Z.of_nat (in_flight (callers s)) <= NumWorkers (cfg s))%Z.
Proof.
  intros (c0 & s0 & evs & Hc0 & Hr) Hcan.
  assert (Heq : in_flight (callers s) = busy_count (workers s)).
  { apply (run_in_flight evs s0 s Hr Hcan).
    destruct (NewWorkerPool_cases c0) as [[_ H]|[(_ & _ & H)|(_ & _ & H)]];
      rewrite H in Hc0; simpl in Hc0; try discriminate.
    injection Hc0 as <-. simpl. unfold in_flight, busy_count. simpl.
    clear. induction (Z.to_nat (NumWorkers c0)) as [|n IH]; [done|exact IH]. }
  split; [done|]. rewrite Heq.
  destruct (pool_cfg c0 s0 Hc0) as (Hn & _ & _ & _ & Hpos & _ & Hlen).
  rewrite (run_cfg _ _ _ Hr), Hn.
  pose proof (filter_length_le (fun w => busy (w_pc w)) (workers s)) as Hle.
  rewrite (run_workers_length _ _ _ Hr), Hlen in Hle.
  unfold busy_count. lia.
Qed.

Lemma in_flight_calls_bounded_witness :
  in_flight (callers s_awaiting) = busy_count (workers s_awaiting) /\
  (Z.of_nat (in_flight (callers s_awaiting)) <= NumWorkers (cfg s_awaiting))%Z.
Proof.
  assert (Hreach : reachable s_awaiting).
  { exists cfg_echo. eexists. exists sched_awaiting.
    split; vm_compute; reflexivity. }
  exact (in_flight_calls_bounded s_awaiting Hreach eq_refl).
Defined.

(** ** After the cancellation *)

Lemma step_cancelled_calls (e : event) (s s' : state) (c : nat)
    (cl' : caller) (r : JanetResponse) (er : option error) :
  cancelled s = true -> step e s = Some s' ->
  callers s' !! c = Some cl' -> c_pc cl' = DReturned r er ->
  callers s !! c = Some cl' \/
  (r = zeroResponse /\
   (er = Some ErrWorkerPoolClosed \/
    (er = Some ErrWorkerPoolBusy /\ c_fired cl' = true))).
Proof.
  intros Hcan H Hc Hpc. step_inv H; simpl in *; try (by left);
    try congruence.
  all: split_lookup Hc; try (by left); simpl in *; try congruence.
  all: simplify_eq; auto.
Qed.

Lemma step_cancelled_accept (e : event) (s s' : state) (c : nat)
    (cl' : caller) :
  cancelled s = true -> step e s = Some s' ->
  callers s' !! c = Some cl' -> awaiting cl' = true ->
  exists cl, callers s !! c = Some cl /\ awaiting cl = true.
Proof.
  intros Hcan H Hc Hpc. step_inv H; simpl in *; eauto; try congruence.
  all: split_lookup Hc; eauto; simpl in *; try congruence.
  all: unfold awaiting in *; simpl in *; try congruence.
  all: eexists; split; [eassumption|].
  all: unfold awaiting; by rewrite ?E0, ?E1, ?E2, ?E3.
Qed.

Lemma step_cancelled_exchange (e : event) (s s' : state) (w : nat)
    (wk' : worker) :
  cancelled s = true -> step e s = Some s' ->
  workers s' !! w = Some wk' -> busy (w_pc wk') = true ->
  exists wk, workers s !! w = Some wk /\ busy (w_pc wk) = true /\
    w_item wk' = w_item wk /\ w_gen wk' = w_gen wk.
Proof.
  intros Hcan H Hw Hb. step_inv H; simpl in *; eauto; try congruence.
  all: split_lookup Hw; eauto; simpl in *; try congruence.
  all: try (eexists; split; [eassumption|];
            by rewrite ?E0, ?E1, ?E2, ?E3).
  destruct o; discriminate.
Qed.

(** X13.  Nothing is served once the context is cancelled.  From a
    cancelled pool, on every schedule: a call that returns gets no
    response, only the zero response with PoolClosed, or with PoolBusy
    if its handoff timer had expired, and this also when a worker had
    its response decoded and ready to send; no call is accepted by a
    worker any more; and a worker loop found in an exchange was in that
    same exchange, for the same call and on the same process, when the
    context was cancelled: no exchange is started. *)
Theorem nothing_served_after_cancellation
    (s : state) (evs : list event) (s' : state) :
  cancelled s = true -> run evs s = Some s' ->
  (forall c cl' r er,
     callers s' !! c = Some cl' -> c_pc cl' = DReturned r er ->
     callers s !! c = Some cl' \/
     (r = zeroResponse /\
      (er = Some ErrWorkerPoolClosed \/
       (er = Some ErrWorkerPoolBusy /\ c_fired cl' = true)))) /\
  (forall c cl',
     callers s' !! c = Some cl' -> awaiting cl' = true ->
     exists cl, callers s !! c = Some cl /\ awaiting cl = true) /\
  (forall w wk',
     workers s' !! w = Some wk' -> busy (w_pc wk') = true ->
     exists wk, workers s !! w = Some wk /\ busy (w_pc wk) = true /\
       w_item wk' = w_item wk /\ w_gen wk' = w_gen wk).
Proof.
  revert s. induction evs as [|e evs IH]; simpl; intros s Hcan Hr.
  - injection Hr as <-. repeat split; eauto.
  - destruct (step e s) as [s1|] eqn:Hs; [|discriminate].
    destruct (IH s1 (step_cancelled_mono _ _ _ Hs Hcan) Hr)
      as (Hret & Hacc & Hex).
    split; [|split].
    + intros c cl' r er Hc Hpc.
      destruct (Hret c cl' r er Hc Hpc) as [Hc1|?]; [|by right].
      eapply step_cancelled_calls; eauto.
    + intros c cl' Hc Ha.
      destruct (Hacc c cl' Hc Ha) as (cl1 & Hc1 & Ha1).
      eapply step_cancelled_accept; eauto.
    + intros w wk' Hw Hb.
      destruct (Hex w wk' Hw Hb) as (wk1 & Hw1 & Hb1 & Hi1 & Hg1).
      destruct (step_cancelled_exchange e s s1 w wk1 Hcan Hs Hw1 Hb1)
        as (wk & Hw0 & Hb0 & Hi0 & Hg0).
      exists wk. repeat split; congruence.
Qed.

Lemma nothing_served_after_cancellation_witness :
  exists cl',
    callers s_decode_failed_cancelled !! 0%nat = Some cl' /\
    (callers s_failed_closing !! 0%nat = Some cl' \/
     (zeroResponse = zeroResponse /\
      (Some ErrWorkerPoolClosed = Some ErrWorkerPoolClosed \/
       (Some ErrWorkerPoolClosed = Some ErrWorkerPoolBusy /\
        c_fired cl' = true)))).
Proof.
  eexists. split; [reflexivity|].
  exact (proj1 (nothing_served_after_cancellation s_failed_closing
                  [EvCallerClosed 0; EvWorkerDone 0]
                  s_decode_failed_cancelled eq_refl eq_refl)
           0%nat _ _ _ eq_refl eq_refl).
Defined.

(** ** The back-off *)

Lemma step_launch_credit (e : event) (s s' : state) (w : nat)
    (wk wk' : worker) :
  step e s = Some s' ->
  workers s !! w = Some wk -> workers s' !! w = Some wk' ->
  (launch_credit wk' <=
   launch_credit wk + (if is_after w e then 1 else 0))%nat.
Proof.
  intros H Hw Hw'. step_inv H; simpl in *.
  all: try (assert (wk' = wk) as -> by congruence; lia).
  all: split_lookup Hw'; [|assert (wk' = wk) as -> by congruence; lia].
  all: simplify_eq.
  all: unfold launch_credit, after_send; simpl.
  all: rewrite ?Nat.eqb_refl.
  all: try match goal with |- context [spawn _ ?o] => destruct o end.
  all: repeat match goal with
       | E : w_pc _ = _ |- _ => rewrite E in *
       | E : w_after _ = _ |- _ => rewrite E in *
       end; simpl in *.
  all: try lia.
  all: repeat match goal with
       | |- context [w_pc ?x] => destruct (w_pc x); simpl in *
       | |- context [w_after ?x] => destruct (w_after x); simpl in *
       end; try discriminate; try lia.
Qed.

Lemma run_launch_credit (evs : list event) :
  forall (s s' : state) (w : nat) (wk wk' : worker),
  run evs s = Some s' ->
  workers s !! w = Some wk -> workers s' !! w = Some wk' ->
  (launch_credit wk' <= launch_credit wk + backoffs w evs)%nat.
Proof.
  unfold backoffs.
  induction evs as [|e evs IH]; simpl; intros s s' w wk wk' Hr Hw Hw'.
  - injection Hr as <-. assert (wk' = wk) as -> by congruence. lia.
  - destruct (step e s) as [s1|] eqn:Hs; [|discriminate].
    destruct (lookup_lt_is_Some_2 (workers s1) w) as [wk1 Hw1].
    { rewrite (step_workers_length _ _ _ Hs). by eapply lookup_lt_Some. }
    pose proof (step_launch_credit _ _ _ _ _ _ Hs Hw Hw1).
    pose proof (IH _ _ _ _ _ Hr Hw1 Hw').
    destruct (is_after w e); simpl; lia.
Qed.

(** X14.  No process is started without a back-off.  The generation
    number of a loop counts the processes it has started.  On every
    schedule from the creation of the pool, a loop has started at most
    one process more than its back-off timer has expired; between two
    states of a schedule it starts at most one more than the expiries
    in between, and none more than those when it has a live process in
    the first state.  So whatever the processes do, each loop starts
    them at the rate of the 200ms timer at most. *)
Theorem restart_needs_backoff
    (c : PoolConfig) (s0 s s' : state) (evs0 evs : list event) (w : nat)
    (wk wk' : worker) :
  cr_pool (NewWorkerPool c) = Some s0 -> run evs0 s0 = Some s ->
  run evs s = Some s' ->
  workers s !! w = Some wk -> workers s' !! w = Some wk' ->
  (w_gen wk <= 1 + backoffs w evs0)%nat /\
  (w_gen wk' <= w_gen wk + 1 + backoffs w evs)%nat /\
  (holds_process (w_pc wk) = true ->
   w_gen wk' <= w_gen wk + backoffs w evs)%nat.
Proof.
  intros Hc Hr0 Hr Hw Hw'.
  pose proof (run_launch_credit _ _ _ _ _ _ Hr Hw Hw') as H.
  assert (H0 : (launch_credit wk <= 1 + backoffs w evs0)%nat).
  { destruct (lookup_lt_is_Some_2 (workers s0) w) as [wk0 Hw0].
    { rewrite <- (run_workers_length _ _ _ Hr0). by eapply lookup_lt_Some. }
    pose proof (run_launch_credit _ _ _ _ _ _ Hr0 Hw0 Hw) as H0.
    destruct (NewWorkerPool_cases c) as [[_ Hn]|[(_ & _ & Hn)|(_ & _ & Hn)]];
      rewrite Hn in Hc; simpl in Hc; try discriminate.
    injection Hc as <-. simpl in Hw0.
    apply lookup_replicate in Hw0 as [-> _]. simpl in H0. lia. }
  unfold launch_credit in *.
  split; [lia|]. split.
  - destruct (w_pc wk), (w_after wk); lia.
  - intros Hh. destruct (w_pc wk); simpl in Hh; try discriminate; lia.
Qed.

Lemma restart_needs_backoff_witness :
  exists wk wk',
    workers s_timed_out !! 0%nat = Some wk /\
    workers s_recycled !! 0%nat = Some wk' /\
    (w_gen wk' <= w_gen wk + backoffs 0 sched_recycle)%nat.
Proof.
  assert (H0 : cr_pool (NewWorkerPool cfg_two) = Some s_fresh)
    by (vm_compute; reflexivity).
  assert (H1 : run sched_timed_out s_fresh = Some s_timed_out)
    by (vm_compute; reflexivity).
  assert (H2 : run sched_recycle s_timed_out = Some s_recycled)
    by (vm_compute; reflexivity).
  do 2 eexists. split; [reflexivity|]. split; [reflexivity|].
  exact (proj2 (proj2 (restart_needs_backoff cfg_two s_fresh s_timed_out
                         s_recycled sched_timed_out sched_recycle 0 _ _
                         H0 H1 H2 eq_refl eq_refl)) eq_refl).
Defined.

(** ** Locality *)

Lemma step_other_worker (e : event) (s s' : state) (w : nat) :
  step e s = Some s' -> worker_of e <> Some w ->
  workers s' !! w = workers s !! w.
Proof.
  intros H Hne. step_inv H; simpl in *; try reflexivity.
  all: apply list_lookup_insert_ne; congruence.
Qed.

Lemma step_other_call (e : event) (s s' : state) (c : nat) (cl : caller) :
  step e s = Some s' -> call_of s e <> Some c ->
  callers s !! c = Some cl -> callers s' !! c = Some cl.
Proof.
  intros H Hne Hc. step_inv H; simpl in *; try assumption.
  all: try (by apply lookup_app_l_Some).
  all: repeat match goal with
       | E : workers _ !! _ = _ |- _ => rewrite E in Hne; clear E
       end.
  all: rewrite list_lookup_insert_ne; [assumption|congruence].
Qed.

Lemma run_other_worker (evs : list event) (s s' : state) (w : nat) :
  run evs s = Some s' ->
  Forall (fun e => worker_of e <> Some w) evs ->
  workers s' !! w = workers s !! w.
Proof.
  revert s. induction evs as [|e evs IH]; simpl; intros s Hr Hall.
  - by injection Hr as <-.
  - destruct (step e s) as [s1|] eqn:Hs; [|discriminate].
    inversion Hall as [|? ? He Hevs]; subst.
    rewrite (IH s1 Hr Hevs). eauto using step_other_worker.
Qed.

(** X15.  Steps are local.  The loops share nothing but the dispatch
    channel and the context: on a schedule without a step of loop [w]
    (its own steps, a handoff to it, a delivery from it), whatever the
    other loops, their processes and timers, the calls and Close do, the
    state of loop [w] is the same at the end, process, pipes, codec and
    timer included.  And a call is changed only by a step of its own
    (its timer, its selects, its handoff) or by the delivery from the
    worker that holds its item; every other step leaves it as it is. *)
Theorem steps_are_local
    (s s' s1 : state) (evs : list event) (e : event) (w c : nat)
    (cl : caller) :
  (run evs s = Some s' ->
   Forall (fun e => worker_of e <> Some w) evs ->
   workers s' !! w = workers s !! w) /\
  (step e s = Some s1 -> call_of s e <> Some c ->
   callers s !! c = Some cl -> callers s1 !! c = Some cl).
Proof.
  split; [apply run_other_worker|apply step_other_call].
Qed.

Lemma steps_are_local_witness :
  exists s' s1,
    run [EvSpawn 1 SpawnStartFail; EvWait 1 None; EvClose] s_timed_out
      = Some s' /\
    workers s' !! 0%nat = workers s_timed_out !! 0%nat /\
    step (EvGuardClose 0) s_timed_out = Some s1 /\
    callers s1 !! 0%nat = callers s_timed_out !! 0%nat.
Proof.
  do 2 eexists.
  assert (Hr : run [EvSpawn 1 SpawnStartFail; EvWait 1 None; EvClose]
                 s_timed_out
               = Some (state_after cfg_two
                         (sched_timed_out ++
                          [EvSpawn 1 SpawnStartFail; EvWait 1 None;
                           EvClose])))
    by (vm_compute; reflexivity).
  split; [exact Hr|].
  assert (Hall : Forall (fun e => worker_of e <> Some 0%nat)
                   [EvSpawn 1 SpawnStartFail; EvWait 1 None; EvClose])
    by (repeat constructor; discriminate).
  assert (Hne : call_of s_timed_out (EvGuardClose 0) <> Some 0%nat)
    by discriminate.
  split; [|split; [reflexivity|]].
  - exact (proj1 (steps_are_local s_timed_out _ s_timed_out _
                    (EvGuardClose 0) 0 0
                    {| c_req := req_hello; c_timeout := 5000;
                       c_fired := false; c_pc := DAwait Polling |})
             Hr Hall).
  - exact (proj2 (steps_are_local s_timed_out s_timed_out _ []
                    (EvGuardClose 0) 0 0 _) eq_refl Hne eq_refl).
Defined.
